(** * PythonResolver: a model of the external resolver orchestration

    The development follows [python-resolver.js]: the [PythonResolver]
    object (result cache, run flags, recorded script URL, cron job), its
    asynchronous methods [downloadScript] and [resolveLink], the
    synchronous [scheduleUpdate] / [stopScheduledUpdates], the scheduler
    callback and [getStatus].

    JavaScript values are modelled as follows.
    - strings are byte strings ([string]); numbers that occur are
      non-negative integers, or [Z] for clock readings;
    - a JSON value is a tree [JSON]; an object is the list of its own
      properties in enumeration order (which is what [JSON.stringify]
      walks), so two objects holding the same pairs in a different
      order are different values of the model, as they serialise
      differently;
    - the [Map] used as result cache is a [gmap string CacheEntry];
    - the file system is a [gmap] from paths to contents;
    - control flow ([return], [throw], [try]/[catch]/[finally]) is
      modelled with completion records, asynchronous suspension with an
      explicit [Await] node.

    Console output is left out, and so are [createScriptTemplate] (it
    only writes a fixed text to the script path) and the creation of
    the [temp] directory in the constructor. *)

From Stdlib Require Import ZArith Ascii String List Lia.
From stdpp Require Import base gmap strings pretty list.

Local Open Scope string_scope.
Set Warnings "-register-all".

(** ** Characters and strings *)

Definition dquote : ascii := "034"%char.
Definition backslash : ascii := "092"%char.

Definition str1 (c : ascii) : string := String c EmptyString.

(** [String.prototype.includes]: does [needle] occur in [s]? *)
Fixpoint includes (s needle : string) : bool :=
  String.prefix needle s ||
  match s with
  | EmptyString => false
  | String _ s' => includes s' needle
  end.

Definition is_digit (c : ascii) : bool :=
  let n := N_of_ascii c in ((48 <=? n) && (n <=? 57))%N.

Definition digit_value (c : ascii) : N := (N_of_ascii c - 48)%N.

(** [join sep l]: [Array.prototype.join]. *)
Fixpoint join (sep : string) (l : list string) : string :=
  match l with
  | [] => EmptyString
  | [x] => x
  | x :: rest => x +:+ sep +:+ join sep rest
  end.

(** ** JSON values and [JSON.stringify] *)

Inductive JSON : Type :=
| JNull
| JBool (b : bool)
| JNum (n : Z)
| JStr (s : string)
| JArr (items : list JSON)
| JObj (props : list (string * JSON)).

Definition hex_digit (n : N) : ascii :=
  if (n <? 10)%N then ascii_of_N (48 + n) else ascii_of_N (87 + n).

(** One character of [QuoteJSONString]: the two-character escapes, the
    [\u00XX] form for the other control characters, everything else as
    it stands. *)
Definition escape_char (c : ascii) : string :=
  let n := N_of_ascii c in
  if (n =? 8)%N then String backslash "b"
  else if (n =? 9)%N then String backslash "t"
  else if (n =? 10)%N then String backslash "n"
  else if (n =? 12)%N then String backslash "f"
  else if (n =? 13)%N then String backslash "r"
  else if (n =? 34)%N then String backslash (str1 dquote)
  else if (n =? 92)%N then String backslash (str1 backslash)
  else if (n <? 32)%N then
    String backslash ("u00" +:+ String (hex_digit (n / 16)) (str1 (hex_digit (n mod 16))))
  else str1 c.

Fixpoint escape (s : string) : string :=
  match s with
  | EmptyString => EmptyString
  | String c s' => escape_char c +:+ escape s'
  end.

Definition quote (s : string) : string :=
  String dquote (escape s +:+ str1 dquote).

(** Reading back the first character of an escaped string: the inverse
    of [escape_char] at the head of a text.  A double quote ends the
    string, so nothing is read there. *)
Definition hex_value (c : ascii) : N :=
  let n := N_of_ascii c in
  if (n <? 58)%N then (n - 48)%N else (n - 87)%N.

Definition unescape_head (s : string) : option (ascii * string) :=
  match s with
  | EmptyString => None
  | String c rest =>
      if Ascii.eqb c dquote then None
      else if Ascii.eqb c backslash then
        match rest with
        | String "b" r => Some ("008"%char, r)
        | String "t" r => Some ("009"%char, r)
        | String "n" r => Some ("010"%char, r)
        | String "f" r => Some ("012"%char, r)
        | String "r" r => Some ("013"%char, r)
        | String "u" (String "0" (String "0" (String h1 (String h2 r)))) =>
            Some (ascii_of_N (16 * hex_value h1 + hex_value h2), r)
        | String d r =>
            if Ascii.eqb d dquote then Some (dquote, r)
            else if Ascii.eqb d backslash then Some (backslash, r)
            else None
        | EmptyString => None
        end
      else Some (c, rest)
  end.

(** One member of a serialised header object. *)
Definition member (kv : string * string) : string :=
  quote (fst kv) +:+ ":" +:+ quote (snd kv).

(** [JSON.stringify(v)] without indentation. *)
Fixpoint JSON_stringify (v : JSON) : string :=
  match v with
  | JNull => "null"
  | JBool true => "true"
  | JBool false => "false"
  | JNum n => pretty n
  | JStr s => quote s
  | JArr items => "[" +:+ join "," (map JSON_stringify items) +:+ "]"
  | JObj props =>
      "{" +:+ join "," (map (fun kv => quote (fst kv) +:+ ":" +:+ JSON_stringify (snd kv)) props)
          +:+ "}"
  end.

Definition newline : string := str1 "010"%char.

(** [JSON.stringify(v, null, 2)]: [indent] is the current indentation,
    members are indented by two more spaces. *)
Fixpoint JSON_stringify_indent (indent : string) (v : JSON) : string :=
  let inner := indent +:+ "  " in
  match v with
  | JArr [] => "[]"
  | JArr items =>
      "[" +:+ newline +:+ inner
          +:+ join ("," +:+ newline +:+ inner) (map (JSON_stringify_indent inner) items)
          +:+ newline +:+ indent +:+ "]"
  | JObj [] => "{}"
  | JObj props =>
      "{" +:+ newline +:+ inner
          +:+ join ("," +:+ newline +:+ inner)
                (map (fun kv => quote (fst kv) +:+ ": " +:+ JSON_stringify_indent inner (snd kv))
                     props)
          +:+ newline +:+ indent +:+ "}"
  | _ => JSON_stringify v
  end.

(** A header mapping whose values are strings, as an object. *)
Definition headers_object (h : list (string * string)) : JSON :=
  JObj (map (fun kv => (fst kv, JStr (snd kv))) h).

(** The cache key of [resolveLink]:
    [`${url}:${JSON.stringify(headers)}`]. *)
Definition cacheKey (url : string) (headers : JSON) : string :=
  url +:+ ":" +:+ JSON_stringify headers.

(** ** The resolver object and its host *)

(** A thrown [Error]; only its [message] is ever read. *)
Record Exn : Type := Error { message : string }.

(** A cache entry, [{ timestamp, data }]. *)
Record CacheEntry : Type := { timestamp : Z; data : JSON }.

(** The mutable fields of [PythonResolver].  [cronJob] refers to a task
    of the cron library by its position in the host's task table.
    [scriptPath], [cacheExpiryTime] and [pythonCmd] are assigned once in
    the constructor and are constants below. *)
Record PythonResolver : Type := {
  resolvedLinksCache : gmap string CacheEntry;
  lastExecution : option Z;
  lastError : option string;
  isRunning : bool;
  scriptUrl : option string;
  cronJob : option nat;
  updateInterval : option string
}.

(** What the object lives in: the clock read by [Date.now()], the file
    system, the cron library's tasks (expression, still running?), and
    the commands handed to [exec] so far. *)
Record Host : Type := {
  now : Z;
  files : gmap string string;
  cronTasks : list (string * bool);
  spawned : list string
}.

Record State : Type := { self : PythonResolver; host : Host }.

Definition with_self (f : PythonResolver -> PythonResolver) (s : State) : State :=
  {| self := f (self s); host := host s |}.

Definition with_host (f : Host -> Host) (s : State) : State :=
  {| self := self s; host := f (host s) |}.

Definition set_resolvedLinksCache (c : gmap string CacheEntry) (r : PythonResolver) :=
  {| resolvedLinksCache := c; lastExecution := lastExecution r; lastError := lastError r;
     isRunning := isRunning r; scriptUrl := scriptUrl r; cronJob := cronJob r;
     updateInterval := updateInterval r |}.

Definition set_lastExecution (t : option Z) (r : PythonResolver) :=
  {| resolvedLinksCache := resolvedLinksCache r; lastExecution := t; lastError := lastError r;
     isRunning := isRunning r; scriptUrl := scriptUrl r; cronJob := cronJob r;
     updateInterval := updateInterval r |}.

Definition set_lastError (e : option string) (r : PythonResolver) :=
  {| resolvedLinksCache := resolvedLinksCache r; lastExecution := lastExecution r; lastError := e;
     isRunning := isRunning r; scriptUrl := scriptUrl r; cronJob := cronJob r;
     updateInterval := updateInterval r |}.

Definition set_isRunning (b : bool) (r : PythonResolver) :=
  {| resolvedLinksCache := resolvedLinksCache r; lastExecution := lastExecution r;
     lastError := lastError r; isRunning := b; scriptUrl := scriptUrl r; cronJob := cronJob r;
     updateInterval := updateInterval r |}.

Definition set_scriptUrl (u : option string) (r : PythonResolver) :=
  {| resolvedLinksCache := resolvedLinksCache r; lastExecution := lastExecution r;
     lastError := lastError r; isRunning := isRunning r; scriptUrl := u; cronJob := cronJob r;
     updateInterval := updateInterval r |}.

Definition set_cronJob (j : option nat) (r : PythonResolver) :=
  {| resolvedLinksCache := resolvedLinksCache r; lastExecution := lastExecution r;
     lastError := lastError r; isRunning := isRunning r; scriptUrl := scriptUrl r; cronJob := j;
     updateInterval := updateInterval r |}.

Definition set_updateInterval (i : option string) (r : PythonResolver) :=
  {| resolvedLinksCache := resolvedLinksCache r; lastExecution := lastExecution r;
     lastError := lastError r; isRunning := isRunning r; scriptUrl := scriptUrl r;
     cronJob := cronJob r; updateInterval := i |}.

Definition set_now (t : Z) (h : Host) :=
  {| now := t; files := files h; cronTasks := cronTasks h; spawned := spawned h |}.

Definition set_files (f : gmap string string) (h : Host) :=
  {| now := now h; files := f; cronTasks := cronTasks h; spawned := spawned h |}.

Definition set_cronTasks (t : list (string * bool)) (h : Host) :=
  {| now := now h; files := files h; cronTasks := t; spawned := spawned h |}.

Definition set_spawned (l : list string) (h : Host) :=
  {| now := now h; files := files h; cronTasks := cronTasks h; spawned := l |}.

(** ** Control flow: completions and asynchronous computations *)

(** How a block of statements ends: it falls through with a value,
    executes [return r], or throws. *)
Inductive Completion (R A : Type) : Type :=
| Normal (a : A)
| Return (r : R)
| Throw (e : Exn).
Arguments Normal {R A} a.
Arguments Return {R A} r.
Arguments Throw {R A} e.

(** The promises the code awaits.  The index is what the awaited
    expression evaluates to; a rejection is an [Exn]. *)
Inductive Request : Type -> Type :=
| HttpGet (url : string) : Request (Exn + string)
| Exec (cmd : string) : Request (Exn + string * string)
| Sleep (ms : Z) : Request unit.

(** A function body in progress.  Between two [Await]s the code runs
    uninterrupted on the state; at an [Await] it is suspended. *)
Inductive Async (R A : Type) : Type :=
| Done (c : Completion R A)
| Get (k : State -> Async R A)
| Put (s : State) (k : Async R A)
| Await {X : Type} (req : Request X) (k : X -> Async R A).
Arguments Done {R A} c.
Arguments Get {R A} k.
Arguments Put {R A} s k.
Arguments Await {R A X} req k.

Fixpoint bind {R A B} (p : Async R A) (f : A -> Async R B) : Async R B :=
  match p with
  | Done (Normal a) => f a
  | Done (Return r) => Done (Return r)
  | Done (Throw e) => Done (Throw e)
  | Get k => Get (fun s => bind (k s) f)
  | Put s k => Put s (bind k f)
  | Await req k => Await req (fun x => bind (k x) f)
  end.

Declare Scope async_scope.
Delimit Scope async_scope with async.
Bind Scope async_scope with Async.
Notation "'let*' x ':=' p 'in' q" := (bind p (fun x => q))
  (at level 10, x pattern, p at level 100, q at level 200, only parsing) : async_scope.
Notation "p ';;' q" := (bind p (fun _ => q))
  (at level 100, q at level 200, right associativity, only parsing) : async_scope.
Local Open Scope async_scope.

Definition pure {R A} (a : A) : Async R A := Done (Normal a).
Definition skip {R} : Async R unit := pure tt.
Definition return_ {R A} (r : R) : Async R A := Done (Return r).
Definition throw {R A} (e : Exn) : Async R A := Done (Throw e).
Definition gets {R A} (f : State -> A) : Async R A := Get (fun s => pure (f s)).
Definition modify {R} (f : State -> State) : Async R unit := Get (fun s => Put (f s) skip).
Definition await {R X} (req : Request X) : Async R X := Await req pure.

(** [try { body } catch (e) { handler e }] *)
Fixpoint try_catch {R A} (body : Async R A) (handler : Exn -> Async R A) : Async R A :=
  match body with
  | Done (Throw e) => handler e
  | Done c => Done c
  | Get k => Get (fun s => try_catch (k s) handler)
  | Put s k => Put s (try_catch k handler)
  | Await req k => Await req (fun x => try_catch (k x) handler)
  end.

(** [try { body } finally { fin }]: the finaliser runs however the body
    ends; the body's completion stands unless the finaliser itself ends
    abruptly. *)
Fixpoint try_finally {R A} (body : Async R A) (fin : Async R unit) : Async R A :=
  match body with
  | Done c => bind fin (fun _ => Done c)
  | Get k => Get (fun s => try_finally (k s) fin)
  | Put s k => Put s (try_finally k fin)
  | Await req k => Await req (fun x => try_finally (k x) fin)
  end.

(** A call [f(...)] (or [await f(...)] of an async function) seen from
    the caller: the callee's [return r] yields [r], a throw propagates.
    Bodies have type [Async R Empty_set]: every path returns or throws. *)
Fixpoint call {R R'} (body : Async R Empty_set) : Async R' R :=
  match body with
  | Done (Normal a) => match a with end
  | Done (Return r) => Done (Normal r)
  | Done (Throw e) => Done (Throw e)
  | Get k => Get (fun s => call (k s))
  | Put s k => Put s (call k)
  | Await req k => Await req (fun x => call (k x))
  end.

(** ** The world outside the object *)

Inductive FsOp : Type := OpWrite | OpRead | OpUnlink.

(** Everything the code depends on and does not define: the outcome of
    awaited operations together with the state found on resumption (the
    child process or the server has acted, time has passed, other tasks
    of the event loop may have run), failures of file-system calls and
    how far a failing write got, [cron.schedule]'s validation of an
    expression, [JSON.parse], the
    locale formatting of dates, the regular expression that extracts
    the version marker, [__dirname] and [process.platform]. *)
Record World : Type := {
  respond : forall X, Request X -> State -> X * State;
  fs_fault : FsOp -> string -> State -> option Exn;
  written_before_fault : string -> string -> State -> option nat;
  cron_validate : string -> option Exn;
  JSON_parse : string -> Exn + JSON;
  toLocaleString : Z -> string;
  match_version : string -> option string;
  dirname : string;
  platform : string
}.

(** Sequential execution: every [Await] is answered by the world. *)
Fixpoint run (W : World) {R A} (p : Async R A) (s : State) : Completion R A * State :=
  match p with
  | Done c => (c, s)
  | Get k => run W (k s) s
  | Put s' k => run W k s'
  | Await req k => let (x, s') := respond W _ req s in run W (k x) s'
  end.

(** Execution up to the first suspension: the part of a call that runs
    before control goes back to the event loop. *)
Inductive Progress (R A : Type) : Type :=
| Finished (c : Completion R A)
| Suspended {X : Type} (req : Request X) (k : X -> Async R A).
Arguments Finished {R A} c.
Arguments Suspended {R A X} req k.

Fixpoint advance {R A} (p : Async R A) (s : State) : Progress R A * State :=
  match p with
  | Done c => (Finished c, s)
  | Get k => advance (k s) s
  | Put s' k => advance k s'
  | Await req k => (Suspended req k, s)
  end.

(** ** Numbers in [scheduleUpdate] *)

(** The values [hours] and [minutes] can take: a number, [NaN], or
    [undefined] when the array is too short. *)
Inductive JSValue : Type := VNum (n : N) | VNaN | VUndefined.

Fixpoint all_digits (s : string) : bool :=
  match s with
  | EmptyString => true
  | String c s' => is_digit c && all_digits s'
  end.

Fixpoint digits_value (acc : N) (s : string) : N :=
  match s with
  | EmptyString => acc
  | String c s' => digits_value (10 * acc + digit_value c) s'
  end.

(** [Number(s)] on the strings that can reach it, runs of decimal
    digits (the empty string converts to 0); any other text is treated
    as not a number. *)
Definition Number (s : string) : JSValue :=
  if all_digits s then VNum (digits_value 0 s) else VNaN.

(** [`${v}`] *)
Definition to_string (v : JSValue) : string :=
  match v with
  | VNum n => pretty n
  | VNaN => "NaN"
  | VUndefined => "undefined"
  end.

(** [v < n], [v > n], [v === n]: false as soon as [v] is not a number. *)
Definition js_lt (v : JSValue) (n : N) : bool :=
  match v with VNum x => (x <? n)%N | _ => false end.
Definition js_gt (v : JSValue) (n : N) : bool :=
  match v with VNum x => (n <? x)%N | _ => false end.
Definition js_eq (v : JSValue) (n : N) : bool :=
  match v with VNum x => (x =? n)%N | _ => false end.

(** [s.split(sep)] for a one-character separator. *)
Fixpoint split (sep : ascii) (s : string) : list string :=
  match s with
  | EmptyString => [EmptyString]
  | String c s' =>
      if Ascii.eqb c sep then EmptyString :: split sep s'
      else match split sep s' with
           | [] => [str1 c]
           | x :: rest => String c x :: rest
           end
  end.

(** [/^\d{1,2}:\d{2}$/.test(s)] *)
Definition test_time_format (s : string) : bool :=
  match s with
  | String h1 (String c (String m1 (String m2 EmptyString))) =>
      is_digit h1 && Ascii.eqb c ":" && is_digit m1 && is_digit m2
  | String h1 (String h2 (String c (String m1 (String m2 EmptyString)))) =>
      is_digit h1 && is_digit h2 && Ascii.eqb c ":" && is_digit m1 && is_digit m2
  | _ => false
  end.

(** Truthiness of a string: only the empty string is falsy. *)
Definition truthy (s : string) : bool :=
  match s with EmptyString => false | _ => true end.

Definition element (l : list JSValue) (i : nat) : JSValue :=
  nth i l VUndefined.

(** ** The methods of [PythonResolver] *)

Section Methods.
Variable W : World.

Definition path_sep : string :=
  if String.eqb (platform W) "win32" then str1 backslash else "/".

(** [path.join] of plain segments. *)
Definition path_join (segments : list string) : string := join path_sep segments.

Definition scriptPath : string := path_join [dirname W; "resolver_script.py"].
Definition cacheExpiryTime : Z := 20 * 60 * 1000.
Definition pythonCmd : string :=
  if String.eqb (platform W) "win32" then "python" else "python3".

(** The object as the constructor leaves it. *)
Definition new_PythonResolver : PythonResolver :=
  {| resolvedLinksCache := ∅; lastExecution := None; lastError := None;
     isRunning := false; scriptUrl := None; cronJob := None; updateInterval := None |}.

(** *** Host primitives *)

Definition Date_now {R} : Async R Z := gets (fun s => now (host s)).

Definition existsSync {R} (path : string) : Async R bool :=
  gets (fun s => bool_decide (is_Some (files (host s) !! path))).

Definition no_such_file (path : string) : Exn :=
  Error ("ENOENT: no such file or directory, '" +:+ path +:+ "'").

(** What a failing [fs.writeFileSync(path, content)] leaves behind.
    The file is opened with flag ['w'], which creates or truncates it,
    and the content is written afterwards: if the file could not be
    opened nothing has changed; otherwise the file holds the bytes that
    went in before the error. *)
Definition torn_write (path content : string) (s : State) : State :=
  match written_before_fault W path content s with
  | None => s
  | Some n =>
      with_host (fun h => set_files (<[path := substring 0 n content]> (files h)) h) s
  end.

Definition writeFileSync {R} (path content : string) : Async R unit :=
  Get (fun s =>
    match fs_fault W OpWrite path s with
    | Some e => Put (torn_write path content s) (throw e)
    | None => Put (with_host (fun h => set_files (<[path := content]> (files h)) h) s) skip
    end).

Definition readFileSync {R} (path : string) : Async R string :=
  Get (fun s =>
    match fs_fault W OpRead path s with
    | Some e => throw e
    | None => match files (host s) !! path with
              | Some content => pure content
              | None => throw (no_such_file path)
              end
    end).

Definition unlinkSync {R} (path : string) : Async R unit :=
  Get (fun s =>
    match fs_fault W OpUnlink path s with
    | Some e => throw e
    | None => match files (host s) !! path with
              | Some _ => Put (with_host (fun h => set_files (delete path (files h)) h) s) skip
              | None => throw (no_such_file path)
              end
    end).

(** [await execAsync(cmd)]: the command is handed to the host, the
    caller is suspended; a rejection is thrown at the [await]. *)
Definition execAsync {R} (cmd : string) : Async R (string * string) :=
  modify (with_host (fun h => set_spawned (spawned h ++ [cmd]) h)) ;;
  let* r := await (Exec cmd) in
  match r with
  | inl e => throw e
  | inr out => pure out
  end.

(** [(await axios.get(url, { responseType: 'text' })).data] *)
Definition axios_get {R} (url : string) : Async R string :=
  let* r := await (HttpGet url) in
  match r with
  | inl e => throw e
  | inr body => pure body
  end.

Definition parse {R} (text : string) : Async R JSON :=
  match JSON_parse W text with
  | inl e => throw e
  | inr v => pure v
  end.

(** [cron.schedule(expression, callback)]: throws on an expression
    the library rejects, otherwise registers a running task.  The
    callback is always [scheduledTick] below. *)
Definition cron_schedule {R} (expression : string) : Async R nat :=
  match cron_validate W expression with
  | Some e => throw e
  | None =>
      Get (fun s =>
        Put (with_host (fun h => set_cronTasks (cronTasks h ++ [(expression, true)]) h) s)
            (pure (length (cronTasks (host s)))))
  end.

(** [task.stop()] *)
Definition cron_stop {R} (task : nat) : Async R unit :=
  modify (with_host (fun h => set_cronTasks (alter (fun t => (fst t, false)) task (cronTasks h)) h)).

Definition assign {R} (f : PythonResolver -> PythonResolver) : Async R unit :=
  modify (with_self f).

(** *** [downloadScript] *)

Definition downloadScript (url : string) : Async bool Empty_set :=
  try_catch
    (assign (set_scriptUrl (Some url)) ;;
     let* response_data := axios_get url in
     writeFileSync scriptPath response_data ;;
     if negb (includes response_data "def resolve_link")
        && negb (includes response_data "def resolve_stream")
     then
       assign (set_lastError
                 (Some "The script must contain a resolve_link or resolve_stream function")) ;;
       return_ false
     else return_ true)
    (fun error =>
       assign (set_lastError (Some ("Download error: " +:+ message error))) ;;
       return_ false).

(** *** [checkScriptHealth] *)

Definition checkScriptHealth : Async bool Empty_set :=
  let* present := existsSync scriptPath in
  if negb present then
    assign (set_lastError (Some "Python resolver script not found")) ;;
    return_ false
  else
    try_catch
      (execAsync (pythonCmd +:+ " --version") ;;
       let* out := execAsync (pythonCmd +:+ " " +:+ scriptPath +:+ " --check") in
       return_ (includes (fst out) "resolver_ready" || includes (snd out) "resolver_ready"))
      (fun error =>
         assign (set_lastError (Some ("Verification error: " +:+ message error))) ;;
         return_ false).

(** *** [resolveLink] *)

(** [path.join(__dirname, 'temp', `${prefix}${t}.json`)] *)
Definition temp_file (prefix : string) (t : Z) : string :=
  path_join [dirname W; "temp"; prefix +:+ pretty t +:+ ".json"].

(** [`${this.pythonCmd} ${this.scriptPath} --resolve "${inputFile}" "${outputFile}"`] *)
Definition resolve_command (inputFile outputFile : string) : string :=
  pythonCmd +:+ " " +:+ scriptPath +:+ " --resolve "
    +:+ str1 dquote +:+ inputFile +:+ str1 dquote +:+ " "
    +:+ str1 dquote +:+ outputFile +:+ str1 dquote.

(** The object written to the input file. *)
Definition inputParams (url : string) (headers : JSON) (channelName : string)
    (proxyConfig : JSON) : JSON :=
  JObj [("url", JStr url); ("headers", headers);
        ("channel_name", JStr channelName); ("proxy_config", proxyConfig)].

(** The [try]/[catch]/[finally] statement of [resolveLink]. *)
Definition resolveLink_guarded (key url : string) (headers : JSON)
    (channelName : string) (proxyConfig : JSON) : Async JSON Empty_set :=
  try_finally
    (try_catch
       (assign (set_isRunning true) ;;
        let inputParams := inputParams url headers channelName proxyConfig in
        let* t_in := Date_now in
        let inputFile := temp_file "input_" t_in in
        let* t_out := Date_now in
        let outputFile := temp_file "output_" t_out in
        writeFileSync inputFile (JSON_stringify_indent EmptyString inputParams) ;;
        let cmd := resolve_command inputFile outputFile in
        execAsync cmd ;;
        let* written := existsSync outputFile in
        if written then
          let* resultText := readFileSync outputFile in
          try_catch
            (let* result := parse resultText in
             let* t := Date_now in
             Get (fun s =>
               Put (with_self (set_resolvedLinksCache
                      (<[key := {| timestamp := t; data := result |}]>
                         (resolvedLinksCache (self s)))) s) skip) ;;
             let* d := Date_now in
             assign (set_lastExecution (Some d)) ;;
             assign (set_lastError None) ;;
             try_catch
               (unlinkSync inputFile ;; unlinkSync outputFile)
               (fun e => skip) ;;
             return_ result)
            (fun parseError =>
               assign (set_lastError (Some ("Parsing error: " +:+ message parseError))) ;;
               return_ JNull)
        else
          assign (set_lastError (Some "Output file not created")) ;;
          return_ JNull)
       (fun error =>
          assign (set_lastError (Some ("Execution error: " +:+ message error))) ;;
          return_ JNull))
    (assign (set_isRunning false)).

(** [resolveLink] once the cache has not answered. *)
Definition resolveLink_miss (key url : string) (headers : JSON)
    (channelName : string) (proxyConfig : JSON) : Async JSON Empty_set :=
  let* present := existsSync scriptPath in
  if negb present then
    assign (set_lastError (Some "Python resolver script not found")) ;;
    return_ JNull
  else
    let* running := gets (fun s => isRunning (self s)) in
    (if running then await (Sleep 500) else skip) ;;
    resolveLink_guarded key url headers channelName proxyConfig.

Definition resolveLink (url : string) (headers : JSON)
    (channelName : string) (proxyConfig : JSON) : Async JSON Empty_set :=
  let key := cacheKey url headers in
  let* cachedResult := gets (fun s => resolvedLinksCache (self s) !! key) in
  match cachedResult with
  | Some entry =>
      let* t := Date_now in
      if (t - timestamp entry <? cacheExpiryTime)%Z
      then return_ (data entry)
      else resolveLink_miss key url headers channelName proxyConfig
  | None => resolveLink_miss key url headers channelName proxyConfig
  end.

(** *** Scheduling *)

Definition stopScheduledUpdates : Async bool Empty_set :=
  let* job := gets (fun s => cronJob (self s)) in
  match job with
  | Some task =>
      cron_stop task ;;
      assign (set_cronJob None) ;;
      assign (set_updateInterval None) ;;
      return_ true
  | None => return_ false
  end.

(** The expression handed to [cron.schedule]. *)
Definition cronExpression (hours minutes : JSValue) : string :=
  if js_eq hours 0
  then "*/" +:+ to_string minutes +:+ " * * * *"
  else to_string minutes +:+ " */" +:+ to_string hours +:+ " * * *".

Definition scheduleUpdate (timeFormat : string) : Async bool Empty_set :=
  call stopScheduledUpdates ;;
  if negb (truthy timeFormat) || negb (test_time_format timeFormat) then
    assign (set_lastError (Some "Invalid time format. Use HH:MM or H:MM")) ;;
    return_ false
  else
    try_catch
      (let parts := map Number (split ":" timeFormat) in
       let hours := element parts 0 in
       let minutes := element parts 1 in
       if js_lt hours 0 || js_gt hours 23 || js_lt minutes 0 || js_gt minutes 59 then
         assign (set_lastError (Some "Invalid time. Hours: 0-23, Minutes: 0-59")) ;;
         return_ false
       else
         let* task := cron_schedule (cronExpression hours minutes) in
         assign (set_cronJob (Some task)) ;;
         assign (set_updateInterval (Some timeFormat)) ;;
         return_ true)
      (fun error =>
         assign (set_lastError (Some ("Scheduling error: " +:+ message error))) ;;
         return_ false).

(** The callback given to [cron.schedule]: what one tick does. *)
Definition scheduledTick : Async unit unit :=
  let* url := gets (fun s => scriptUrl (self s)) in
  match url with
  | Some u => if truthy u then call (downloadScript u) ;; skip else skip
  | None => skip
  end ;;
  Get (fun s => Put (with_self (set_resolvedLinksCache ∅) s) skip).

Definition clearCache : Async bool Empty_set :=
  Get (fun s => Put (with_self (set_resolvedLinksCache ∅) s) skip) ;;
  return_ true.

(** *** Status *)

Record Status : Type := {
  st_isRunning : bool;
  st_lastExecution : string;
  st_lastError : option string;
  st_scriptExists : bool;
  st_scriptUrl : option string;
  st_updateInterval : option string;
  st_scheduledUpdates : bool;
  st_cacheItems : nat;
  st_resolverVersion : string
}.

Definition getResolverVersion : Async string Empty_set :=
  try_catch
    (let* present := existsSync scriptPath in
     (if present then
        let* content := readFileSync scriptPath in
        match match_version W content with
        | Some v => if truthy v then return_ v else skip
        | None => skip
        end
      else skip) ;;
     return_ "N/A")
    (fun error => return_ "Error").

(** [formatDate(date)]: [date.toLocaleString('it-IT', ...)] *)
Definition formatDate (date : Z) : string := toLocaleString W date.

Definition getStatus : Async Status Empty_set :=
  let* s := Get pure in
  let* present := existsSync scriptPath in
  let* version := call getResolverVersion in
  return_
    {| st_isRunning := isRunning (self s);
       st_lastExecution :=
         match lastExecution (self s) with
         | Some d => formatDate d
         | None => "Mai"
         end;
       st_lastError := lastError (self s);
       st_scriptExists := present;
       st_scriptUrl := scriptUrl (self s);
       st_updateInterval := updateInterval (self s);
       st_scheduledUpdates := bool_decide (is_Some (cronJob (self s)));
       st_cacheItems := size (resolvedLinksCache (self s));
       st_resolverVersion := version |}.

End Methods.

(** ** The meaning of the cron expressions that [scheduleUpdate] builds *)

(** [cron.schedule] belongs to the node-cron package, which is not part
    of the repository; what an expression means is the standard
    five-field reading (minute, hour, day of month, month, day of
    week).  A field is modelled in the forms the code can produce: [*]
    matches every value, a number [n] matches [n], a step [*/n] matches
    the multiples of [n] (0 being the start of the range of minutes and
    of hours).  A point in time is abstracted to its hour of the day
    and its minute of the hour. *)
Definition field_matches (field : string) (value : N) : bool :=
  match field with
  | String "*" EmptyString => true
  | String "*" (String "/" step) =>
      all_digits step && truthy step &&
      negb (digits_value 0 step =? 0)%N && (value mod digits_value 0 step =? 0)%N
  | _ => all_digits field && truthy field && (digits_value 0 field =? value)%N
  end.

Definition cron_fires (expression : string) (hour minute : N) : bool :=
  match split " " expression with
  | [m; h; "*"; "*"; "*"] => field_matches m minute && field_matches h hour
  | _ => false
  end.

(** ** The stages of one [resolveLink] call *)

Section Stages.
Variable W : World.

(** The state in which the [try] statement is entered: the state of
    the call, or the one found after the 500 ms wait when the flag
    was set. *)
Definition after_throttle (s : State) : State :=
  if isRunning (self s) then snd (respond W unit (Sleep 500) s) else s.

Definition inputFile (s : State) : string := temp_file W "input_" (now (host s)).
Definition outputFile (s : State) : string := temp_file W "output_" (now (host s)).

(** The state in which the child process is started from the entry
    state [s]: flag set, input file written, command handed over. *)
Definition exec_state (url : string) (headers : JSON) (channelName : string)
    (proxyConfig : JSON) (s : State) : State :=
  with_host (fun h => set_spawned
               (spawned h ++ [resolve_command W (inputFile s) (outputFile s)]) h)
    (with_host (fun h => set_files
                  (<[inputFile s :=
                       JSON_stringify_indent EmptyString (inputParams url headers channelName proxyConfig)]>
                     (files h)) h)
       (with_self (set_isRunning true) s)).

(** What awaiting the child process yields, started from [s]. *)
Definition exec_outcome (url : string) (headers : JSON) (channelName : string)
    (proxyConfig : JSON) (s : State) : (Exn + string * string) * State :=
  respond W _ (Exec (resolve_command W (inputFile s) (outputFile s)))
    (exec_state url headers channelName proxyConfig s).

(** The final state of a failed run: [lastError] recorded, flag released. *)
Definition failed (msg : string) (s : State) : State :=
  with_self (set_isRunning false) (with_self (set_lastError (Some msg)) s).

(** No other task touches the object while a call is suspended. *)
Definition undisturbed : Prop :=
  forall X (req : Request X) s, self (snd (respond W X req s)) = self s.

(** The cache lookup of [resolveLink] answers with [entry]. *)
Definition cache_hit (key : string) (s : State) (entry : CacheEntry) : Prop :=
  resolvedLinksCache (self s) !! key = Some entry /\
  (now (host s) - timestamp entry < cacheExpiryTime)%Z.

Definition cache_miss (key : string) (s : State) : Prop :=
  forall entry, resolvedLinksCache (self s) !! key = Some entry ->
                (cacheExpiryTime <= now (host s) - timestamp entry)%Z.
End Stages.

(** ** Interval specifications *)

Definition digit_char (d : N) : ascii := ascii_of_N (48 + d).
Definition one_digit (n : N) : string := str1 (digit_char n).
Definition two_digits (n : N) : string :=
  String (digit_char (n / 10)) (str1 (digit_char (n mod 10))).

(** [s] reads [H:MM] or [HH:MM] for the numbers [h] and [m]. *)
Definition reads_as (s : string) (h m : N) : Prop :=
  (m < 100)%N /\
  (((h < 10)%N /\ s = one_digit h +:+ ":" +:+ two_digits m) \/
   ((h < 100)%N /\ s = two_digits h +:+ ":" +:+ two_digits m)).

(** An interval specification in range: hours 0-23, minutes 0-59. *)
Definition valid_interval (s : string) (h m : N) : Prop :=
  reads_as s h m /\ (h <= 23)%N /\ (m <= 59)%N.

(** What the checks of [scheduleUpdate] see in [s]: a non-empty text
    of the right shape whose two parts convert to [h] and [m]. *)
Definition parts_are (s : string) (h m : N) : bool :=
  match map Number (split ":" s) with
  | [VNum a; VNum b] => (a =? h)%N && (b =? m)%N
  | _ => false
  end.

Definition accepted_as (s : string) (h m : N) : bool :=
  truthy s && test_time_format s && parts_are s h m.

Definition below (n : nat) : list N := map N.of_nat (seq 0 n).

(** The state left by [stopScheduledUpdates]: the task the object
    refers to is stopped and forgotten. *)
Definition stopped (st : State) : State :=
  match cronJob (self st) with
  | Some task =>
      with_self (set_updateInterval None)
        (with_self (set_cronJob None)
           (with_host (fun h => set_cronTasks
                                  (alter (fun t => (fst t, false)) task (cronTasks h)) h) st))
  | None => st
  end.

(** The state left by a successful [scheduleUpdate]: a new running
    task with the given expression, referred to by the object. *)
Definition rescheduled (expression timeFormat : string) (st : State) : State :=
  with_self (set_updateInterval (Some timeFormat))
    (with_self (set_cronJob (Some (length (cronTasks (host (stopped st))))))
       (with_host (fun h => set_cronTasks (cronTasks h ++ [(expression, true)]) h)
          (stopped st))).

(** ** A concrete world *)

Module Scenario.

Definition resolved : JSON :=
  JObj [("resolved_url", JStr "https://cdn.example.com/live.m3u8?token=t1");
        ("headers", JObj [("User-Agent", JStr "Mozilla/5.0")])].

(** [JSON.parse] on the documents that occur in the scenario. *)
Definition parse_known (text : string) : Exn + JSON :=
  if String.eqb text (JSON_stringify resolved) then inr resolved
  else if String.eqb text "null" then inr JNull
  else inl (Error "Unexpected token in JSON at position 0").

(** A host in [/app] on Linux.  The HTTP server answers [http]; the
    child process takes 40 ms and fails, or writes [text] to the
    output file it was given, or writes nothing; the cron library
    accepts every expression iff [cron_ok]; file operations succeed. *)
Definition world (http : Exn + string) (child : Exn + option string) (cron_ok : bool) : World :=
  {| respond := fun X (req : Request X) (s : State) =>
       match req in Request T return T * State with
       | HttpGet _ => (http, with_host (fun h => set_now (now h + 120) h) s)
       | Exec _ =>
           let out := "/app/temp/output_" +:+ pretty (now (host s)) +:+ ".json" in
           match child with
           | inl e => (inl e, with_host (fun h => set_now (now h + 40) h) s)
           | inr written =>
               (inr (EmptyString, EmptyString),
                with_host (fun h =>
                  set_now (now h + 40)
                    (set_files (match written with
                                | Some text => <[out := text]> (files h)
                                | None => files h
                                end) h)) s)
           end
       | Sleep ms => (tt, with_host (fun h => set_now (now h + ms) h) s)
       end;
     fs_fault := fun _ _ _ => None;
     written_before_fault := fun _ _ _ => None;
     cron_validate := fun _ =>
       if cron_ok then None else Some (Error "invalid cron expression");
     JSON_parse := parse_known;
     toLocaleString := fun t => pretty t;
     match_version := fun _ => None;
     dirname := "/app";
     platform := "linux" |}.

Definition good_script : string := "def resolve_link(url, headers=None): return url".
Definition bad_script : string := "<html>404 Not Found</html>".

(** The usual world: script downloads fine, the child answers
    [resolved], the cron library accepts. *)
Definition W0 : World := world (inr good_script) (inr (Some (JSON_stringify resolved))) true.

(** Variations: the child process cannot be run; it exits without
    writing its output; it writes something that is not JSON; the
    download yields a page without entry point; the server cannot be
    reached. *)
Definition W_exec_fails : World :=
  world (inr good_script) (inl (Error "Command failed: python3")) true.
Definition W_no_output : World := world (inr good_script) (inr None) true.
Definition W_bad_output : World := world (inr good_script) (inr (Some "Traceback")) true.
Definition W_bad_download : World := world (inr bad_script) (inr None) true.
Definition W_offline : World :=
  world (inl (Error "getaddrinfo ENOTFOUND example.com")) (inr None) true.

(** Two downloads overlap: while the call for [script_a] waits for its
    answer, a call for [script_b] starts and runs to its end; then the
    first call is resumed with its answer. *)
Definition script_a : string := "https://example.com/a.py".
Definition script_b : string := "https://example.com/b.py".

Definition W_overlap : World :=
  {| respond := fun X (req : Request X) (s : State) =>
       match req in Request T return T * State with
       | HttpGet u =>
           if String.eqb u script_a
           then (inr good_script, snd (run W0 (downloadScript W0 script_b) s))
           else respond W0 _ (HttpGet u) s
       | Exec cmd => respond W0 _ (Exec cmd) s
       | Sleep ms => respond W0 _ (Sleep ms) s
       end;
     fs_fault := fs_fault W0;
     written_before_fault := written_before_fault W0;
     cron_validate := cron_validate W0;
     JSON_parse := JSON_parse W0;
     toLocaleString := toLocaleString W0;
     match_version := match_version W0;
     dirname := dirname W0;
     platform := platform W0 |}.

(** The disk is full: every write fails after the file has been opened
    and before any byte has gone in. *)
Definition W_disk_full : World :=
  {| respond := respond W0;
     fs_fault := fun op _ _ =>
       match op with
       | OpWrite => Some (Error "ENOSPC: no space left on device, write")
       | _ => None
       end;
     written_before_fault := fun _ _ _ => Some 0;
     cron_validate := cron_validate W0;
     JSON_parse := JSON_parse W0;
     toLocaleString := toLocaleString W0;
     match_version := match_version W0;
     dirname := dirname W0;
     platform := platform W0 |}.

(** The object after construction, at clock reading [t], with the
    given files. *)
Definition start (t : Z) (fs : gmap string string) : State :=
  {| self := new_PythonResolver;
     host := {| now := t; files := fs; cronTasks := []; spawned := [] |} |}.

(** Started with the script installed. *)
Definition installed : State :=
  start 1700000000000 {[ "/app/resolver_script.py" := good_script ]}.

(** Started with nothing installed. *)
Definition empty : State := start 1700000000000 ∅.

Definition url_a : string := "https://example.com/stream?x=1".
Definition url_b : string := "https://example.com/stream?x=2".

(** One call for [url_a] has completed. *)
Definition after_a : State :=
  snd (run W0 (resolveLink W0 url_a (JObj []) "Channel1" JNull) installed).

(** The same state, [dt] milliseconds later. *)
Definition later (dt : Z) (s : State) : State :=
  with_host (fun h => set_now (now h + dt) h) s.

(** Then a call for [url_b] has started and is waiting for its child
    process. *)
Definition b_in_flight : State :=
  snd (advance (resolveLink W0 url_b (JObj []) "Channel2" JNull) after_a).

(** A schedule "1:00" is active. *)
Definition scheduled : State :=
  snd (run W0 (scheduleUpdate W0 "1:00") installed).

Definition headers_1 : list (string * string) :=
  [("User-Agent", "Mozilla/5.0"); ("Referer", "https://example.com/")].
Definition headers_2 : list (string * string) :=
  [("Referer", "https://example.com/"); ("User-Agent", "Mozilla/5.0")].

(** One call for [url_a] with [headers_1] has completed. *)
Definition after_h1 : State :=
  snd (run W0 (resolveLink W0 url_a (headers_object headers_1) "Channel1" JNull) installed).

End Scenario.

(** ** Further notions about the resolver *)

(** The state after a command has been handed to [exec]. *)
Definition spawn (cmd : string) (s : State) : State :=
  with_host (fun h => set_spawned (spawned h ++ [cmd]) h) s.

(** Every running task of the cron library is the one the object
    refers to; in particular at most one task is running. *)
Definition one_timer (st : State) : Prop :=
  forall i expression, cronTasks (host st) !! i = Some (expression, true) ->
                       cronJob (self st) = Some i.

(** No task is running. *)
Definition no_timer (st : State) : Prop :=
  forall i expression, cronTasks (host st) !! i <> Some (expression, true).

(** The state of a successful [resolveLink] run just before the
    temporary files are removed: result cached, [lastExecution] set,
    [lastError] cleared, on the state [s1] found after the child
    process. *)
Definition recorded (key : string) (result : JSON) (s1 : State) : State :=
  with_self (set_lastError None)
    (with_self (set_lastExecution (Some (now (host s1))))
       (with_self (set_resolvedLinksCache
                     (<[key := {| timestamp := now (host s1); data := result |}]>
                        (resolvedLinksCache (self s1)))) s1)).

(** The state with one file removed. *)
Definition without_file (path : string) (s : State) : State :=
  with_host (fun h => set_files (delete path (files h)) h) s.

(** The call of [resolveLink] from [st] runs the child process and
    reads [result] from it; [s1] is the state found after the process. *)
Definition succeeds (W : World) (url : string) (headers : JSON) (channelName : string)
    (proxyConfig : JSON) (st s1 : State) (result : JSON) : Prop :=
  cache_miss (cacheKey url headers) st /\
  is_Some (files (host st) !! scriptPath W) /\
  fs_fault W OpWrite (inputFile W (after_throttle W st))
    (with_self (set_isRunning true) (after_throttle W st)) = None /\
  exists out text,
    exec_outcome W url headers channelName proxyConfig (after_throttle W st) = (inr out, s1) /\
    files (host s1) !! outputFile W (after_throttle W st) = Some text /\
    fs_fault W OpRead (outputFile W (after_throttle W st)) s1 = None /\
    JSON_parse W text = inr result.

(** Two caches agree except possibly under [key], where an entry is
    never lost. *)
Definition cache_kept (key : string) (before after : gmap string CacheEntry) : Prop :=
  (forall k, k <> key -> after !! k = before !! k) /\
  (is_Some (before !! key) -> is_Some (after !! key)).

(** ** [logo-utils.js] *)

(** Strings are taken to be UTF-8 text: [encodeURIComponent] then
    works byte by byte, keeping the unreserved ASCII characters
    [A-Z a-z 0-9 - _ . ! ~ * ' ( )] and writing every other byte as
    a percent sign and two upper-case hexadecimal digits.  (A JS string
    with a lone surrogate, on which it throws, has no counterpart
    here.) *)

Definition LOGO_PROXY_BASE : string := "https://images.weserv.nl/".

Definition is_upper (c : ascii) : bool :=
  let n := N_of_ascii c in ((65 <=? n) && (n <=? 90))%N.
Definition is_lower (c : ascii) : bool :=
  let n := N_of_ascii c in ((97 <=? n) && (n <=? 122))%N.

Definition lower_ascii (c : ascii) : ascii :=
  if is_upper c then ascii_of_N (N_of_ascii c + 32) else c.

(** Does [s] start with [p], letters compared without regard to case? *)
Fixpoint prefix_ignoring_case (p s : string) : bool :=
  match p, s with
  | EmptyString, _ => true
  | String a p', String b s' =>
      Ascii.eqb (lower_ascii a) (lower_ascii b) && prefix_ignoring_case p' s'
  | String _ _, EmptyString => false
  end.

(** [/^https?:\/\//i.test(url)] *)
Definition test_http_scheme (url : string) : bool :=
  prefix_ignoring_case "http://" url || prefix_ignoring_case "https://" url.

Definition is_unreserved (c : ascii) : bool :=
  is_upper c || is_lower c || is_digit c ||
  let n := N_of_ascii c in
  ((n =? 45) || (n =? 95) || (n =? 46) || (n =? 33) || (n =? 126) ||
   (n =? 42) || (n =? 39) || (n =? 40) || (n =? 41))%N.

Definition hex_upper (n : N) : ascii :=
  if (n <? 10)%N then ascii_of_N (48 + n) else ascii_of_N (55 + n).

Definition encode_byte (c : ascii) : string :=
  if is_unreserved c then str1 c
  else String "%" (String (hex_upper (N_of_ascii c / 16))
                     (str1 (hex_upper (N_of_ascii c mod 16)))).

Fixpoint encodeURIComponent (s : string) : string :=
  match s with
  | EmptyString => EmptyString
  | String c s' => encode_byte c +:+ encodeURIComponent s'
  end.

(** [wrapLogoUrl(url)].  The argument is a string or any other value
    ([undefined], [null], ...), which is returned as it is. *)
Definition wrapLogoUrl {A : Type} (url : A + string) : A + string :=
  match url with
  | inl other => inl other
  | inr s =>
      if negb (truthy s) then inr s
      else if negb (test_http_scheme s) then inr s
      else if includes s "images.weserv.nl" then inr s
      else inr (LOGO_PROXY_BASE +:+ "?url=" +:+ encodeURIComponent s
                  +:+ "&w=512&h=512&fit=contain&bg=00000000")
  end.

(** Reading one encoded byte back, for the proofs: the inverse of
    [encode_byte] at the head of a text. *)
Definition hex_upper_value (c : ascii) : N :=
  let n := N_of_ascii c in if (n <? 58)%N then (n - 48)%N else (n - 55)%N.

Definition decode_head (s : string) : option (ascii * string) :=
  match s with
  | String "%" (String h1 (String h2 rest)) =>
      Some (ascii_of_N (16 * hex_upper_value h1 + hex_upper_value h2), rest)
  | String c rest => if is_unreserved c then Some (c, rest) else None
  | EmptyString => None
  end.

(** Every character of [s] satisfies [p]. *)
Fixpoint all_chars (p : ascii -> bool) (s : string) : bool :=
  match s with
  | EmptyString => true
  | String c s' => p c && all_chars p s'
  end.

(** ** JS white space on UTF-8 text *)

(** The characters matched by [\s] and removed by [trim]: tab, line
    feed, vertical tab, form feed, carriage return, space, and the
    non-ASCII ones U+00A0, U+1680, U+2000-U+200A, U+2028, U+2029,
    U+202F, U+205F, U+3000, U+FEFF in their UTF-8 encodings. *)
Definition is_ascii_space (c : ascii) : bool :=
  let n := N_of_ascii c in
  ((n =? 9) || (n =? 10) || (n =? 11) || (n =? 12) || (n =? 13) || (n =? 32))%N.

(** Two- and three-byte white space, by its bytes. *)
Definition is_space2 (b1 b2 : ascii) : bool :=
  ((N_of_ascii b1 =? 194) && (N_of_ascii b2 =? 160))%N.

Definition is_space3 (b1 b2 b3 : ascii) : bool :=
  let n1 := N_of_ascii b1 in
  let n2 := N_of_ascii b2 in
  let n3 := N_of_ascii b3 in
  ((n1 =? 225) && (n2 =? 154) && (n3 =? 128) ||
   (n1 =? 226) && (n2 =? 128) &&
     ((128 <=? n3) && (n3 <=? 138) || (n3 =? 168) || (n3 =? 169) || (n3 =? 175)) ||
   (n1 =? 226) && (n2 =? 129) && (n3 =? 159) ||
   (n1 =? 227) && (n2 =? 128) && (n3 =? 128) ||
   (n1 =? 239) && (n2 =? 187) && (n3 =? 191))%N.

(** [s.trimStart()] *)
Fixpoint trimStart (s : string) : string :=
  match s with
  | EmptyString => EmptyString
  | String b1 rest1 =>
      if is_ascii_space b1 then trimStart rest1
      else match rest1 with
           | String b2 rest2 =>
               if is_space2 b1 b2 then trimStart rest2
               else match rest2 with
                    | String b3 rest3 => if is_space3 b1 b2 b3 then trimStart rest3 else s
                    | EmptyString => s
                    end
           | EmptyString => s
           end
  end.

(** The same from the end, on the reversed text (bytes of a character
    in reverse order). *)
Fixpoint trimStart_reversed (s : string) : string :=
  match s with
  | EmptyString => EmptyString
  | String b1 rest1 =>
      if is_ascii_space b1 then trimStart_reversed rest1
      else match rest1 with
           | String b2 rest2 =>
               if is_space2 b2 b1 then trimStart_reversed rest2
               else match rest2 with
                    | String b3 rest3 =>
                        if is_space3 b3 b2 b1 then trimStart_reversed rest3 else s
                    | EmptyString => s
                    end
           | EmptyString => s
           end
  end.

Fixpoint reverse_onto (acc s : string) : string :=
  match s with
  | EmptyString => acc
  | String c s' => reverse_onto (String c acc) s'
  end.

Definition reverse (s : string) : string := reverse_onto EmptyString s.

Definition trimEnd (s : string) : string := reverse (trimStart_reversed (reverse s)).

(** [s.trim()] *)
Definition trim (s : string) : string := trimEnd (trimStart s).

(** ** [meta-handler.js]: [normalizeId] *)

Definition is_word (c : ascii) : bool :=
  is_upper c || is_lower c || is_digit c || (N_of_ascii c =? 95)%N.

(** [s.replace(/[^\w.]/g, '')]: only the ASCII word characters and the
    dot are kept; every byte of a non-ASCII character goes. *)
Fixpoint keep_word_dot (s : string) : string :=
  match s with
  | EmptyString => EmptyString
  | String c s' =>
      if is_word c || (N_of_ascii c =? 46)%N then String c (keep_word_dot s')
      else keep_word_dot s'
  end.

Fixpoint map_chars (f : ascii -> ascii) (s : string) : string :=
  match s with
  | EmptyString => EmptyString
  | String c s' => String (f c) (map_chars f s')
  end.

Definition is_ascii (c : ascii) : bool := (N_of_ascii c <? 128)%N.

Section NormalizeId.
(** [String.prototype.toLowerCase] is a parameter; what is used of it
    is stated where it is needed. *)
Variable toLowerCase : string -> string.

(** [id?.toLowerCase().replace(/[^\w.]/g, '').trim() || ''], for [id] a
    string, or [None] for [undefined] and [null]. *)
Definition normalizeId (id : option string) : string :=
  match id with
  | Some s =>
      let r := trim (keep_word_dot (toLowerCase s)) in
      if truthy r then r else EmptyString
  | None => EmptyString
  end.
End NormalizeId.

(** On ASCII text [toLowerCase] maps [A-Z] to [a-z], character by
    character. *)
Definition lowers_ascii (toLowerCase : string -> string) : Prop :=
  forall s, all_chars is_ascii s = true -> toLowerCase s = map_chars lower_ascii s.

(** No result of [toLowerCase] contains a letter in [A-Z]. *)
Definition leaves_no_upper (toLowerCase : string -> string) : Prop :=
  forall s, all_chars (fun c => negb (is_upper c)) (toLowerCase s) = true.

(** The characters of a normalised id: [a-z], [0-9], [_] and [.]. *)
Definition is_id_char (c : ascii) : bool :=
  is_lower c || is_digit c || (N_of_ascii c =? 95)%N || (N_of_ascii c =? 46)%N.

(** The characters of [s] that satisfy [p], in their order. *)
Fixpoint only_chars (p : ascii -> bool) (s : string) : string :=
  match s with
  | EmptyString => EmptyString
  | String c s' => if p c then String c (only_chars p s') else only_chars p s'
  end.

(** An ASCII character that is not white space. *)
Definition plain (c : ascii) : bool := is_ascii c && negb (is_ascii_space c).

(** ** [createScriptTemplate] and the [/api/resolver] route *)

(** [quoted [a; b; c]] is [a"b"c]: the pieces of a line between its
    double quotes. *)
Definition quoted (pieces : list string) : string := join (str1 dquote) pieces.

(** The lines of the bundled resolver script ([templateContent]). *)
Definition templateLines : list string :=
  ["#!/usr/bin/env python3";
   "# -*- coding: utf-8 -*-";
   "#";
   "# Python resolver for OMG TV";
   "# This script receives a URL and returns the resolved URL";
   EmptyString;
   "import sys";
   "import json";
   "import os";
   "import requests";
   "import time";
   "from urllib.parse import urlparse, parse_qs";
   EmptyString;
   "# Global configuration";
   quoted ["API_KEY = "; "la_tua_api_key"; EmptyString];
   quoted ["API_SECRET = "; "il_tuo_secret"; EmptyString];
   quoted ["RESOLVER_VERSION = "; "1.0.0"; EmptyString];
   EmptyString;
   "def get_token():";
   quoted ["    "; EmptyString; EmptyString; EmptyString];
   "    Example function to obtain an authentication token";
   quoted ["    "; EmptyString; EmptyString; EmptyString];
   "    # Custom implementation for obtaining the token";
   "    # This is just a simulation";
   quoted ["    token = f"; "token_{int(time.time())}"; EmptyString];
   "    return token";
   EmptyString;
   "def resolve_link(url, headers=None, channel_name=None):";
   quoted ["    "; EmptyString; EmptyString; EmptyString];
   "    Main function that resolves a link";
   "    Parameters:";
   "    - url: URL to resolve";
   "    - headers: dictionary with HTTP headers to use ";
   "    - channel_name: channel name for logging";
   "    ";
   "    Returns:";
   "    - A dictionary with the resolved URL and headers to use";
   quoted ["    "; EmptyString; EmptyString; EmptyString];
   quoted ["    print(f"; "Resolving URL: {url}"; ")"];
   quoted ["    print(f"; "Channel: {channel_name}"; ")"];
   "    ";
   "    # Parse URL to extract parameters";
   "    parsed_url = urlparse(url)";
   "    params = parse_qs(parsed_url.query)";
   "    ";
   "    # Example: add a token to the URL";
   "    token = get_token()";
   "    ";
   "    # ESEMPIO 1: Aggiungi token a URL esistente";
   quoted ["    if parsed_url.netloc == "; "example.com"; ":"];
   quoted ["        resolved_url = f"; "{url}&token={token}"; EmptyString];
   "    ";
   "    # ESEMPIO 2: Chiama API e ottieni URL reale";
   quoted ["    elif "; "api"; " in parsed_url.netloc:"];
   "        try:";
   "            api_response = requests.get(";
   quoted ["                f"; "https://api.example.com/resolve"; ","];
   quoted ["                params={"; "url"; ": url, "; "key"; ": API_KEY},"];
   "                headers=headers";
   "            )";
   "            if api_response.status_code == 200:";
   "                data = api_response.json()";
   quoted ["                resolved_url = data.get("; "stream_url"; ", url)"];
   "            else:";
   quoted ["                print(f"; "API error: {api_response.status_code}"; ")"];
   "                resolved_url = url";
   "        except Exception as e:";
   quoted ["            print(f"; "API call error: {str(e)}"; ")"];
   "            resolved_url = url";
   "    ";
   "    # Caso predefinito: restituisci l'URL originale";
   "    else:";
   "        resolved_url = url";
   "    ";
   "    # Aggiungi o modifica gli header";
   "    final_headers = headers.copy() if headers else {}";
   "    ";
   "    # Puoi aggiungere header specifici";
   quoted ["    final_headers["; "User-Agent"; "] = final_headers.get("; "User-Agent"; ", "; "Mozilla/5.0"; ")"];
   quoted ["    final_headers["; "Authorization"; "] = f"; "Bearer {token}"; EmptyString];
   "    ";
   "    # Restituisci il risultato";
   "    return {";
   quoted ["        "; "resolved_url"; ": resolved_url,"];
   quoted ["        "; "headers"; ": final_headers"];
   "    }";
   EmptyString;
   "def main():";
   quoted ["    "; EmptyString; EmptyString; EmptyString];
   "    Funzione principale che gestisce i parametri di input";
   quoted ["    "; EmptyString; EmptyString; EmptyString];
   "    # Verifica parametri di input";
   "    if len(sys.argv) < 2:";
   quoted ["        print("; "Utilizzo: python3 resolver.py [--check|--resolve input_file output_file]"; ")"];
   "        sys.exit(1)";
   "    ";
   "    # Check command: verify that the script is valid";
   quoted ["    if sys.argv[1] == "; "--check"; ":"];
   quoted ["        print("; "resolver_ready: True"; ")"];
   "        sys.exit(0)";
   "    ";
   "    # Comando resolve: risolvi un URL";
   quoted ["    if sys.argv[1] == "; "--resolve"; " and len(sys.argv) >= 4:"];
   "        input_file = sys.argv[2]";
   "        output_file = sys.argv[3]";
   "        ";
   "        try:";
   "            # Leggi i parametri di input";
   "            with open(input_file, 'r') as f:";
   "                input_data = json.load(f)";
   "            ";
   "            url = input_data.get('url', '')";
   "            headers = input_data.get('headers', {})";
   "            channel_name = input_data.get('channel_name', 'unknown')";
   "            ";
   "            # Risolvi l'URL";
   "            result = resolve_link(url, headers, channel_name)";
   "            ";
   "            # Scrivi il risultato";
   "            with open(output_file, 'w') as f:";
   "                json.dump(result, f, indent=2)";
   "            ";
   quoted ["            print(f"; "URL risolto salvato in: {output_file}"; ")"];
   "            sys.exit(0)";
   "        except Exception as e:";
   quoted ["            print(f"; "Error: {str(e)}"; ")"];
   "            sys.exit(1)";
   "    ";
   quoted ["    print("; "Comando non valido"; ")"];
   "    sys.exit(1)";
   EmptyString;
   quoted ["if __name__ == "; "__main__"; ":"];
   "    main()";
   EmptyString].

Definition templateContent : string := join newline templateLines.

Section Route.
Variable W : World.

Definition createScriptTemplate : Async bool Empty_set :=
  try_catch
    (writeFileSync W (scriptPath W) templateContent ;;
     return_ true)
    (fun error =>
       assign (set_lastError (Some ("Template creation error: " +:+ message error))) ;;
       return_ false).

(** What [res.json] is given: an object with [success], [message] and
    possibly [scriptPath], or the status snapshot. *)
Inductive Body : Type :=
| Outcome (success : bool) (message : option string) (path : option string)
| Snapshot (status : Status).

(** The response sent: the HTTP status code (200 unless [res.status]
    was called) and the body. *)
Record Response : Type := { code : nat; body : Body }.

Definition is_action (action : option string) (name : string) : bool :=
  match action with
  | Some a => String.eqb a name
  | None => false
  end.

(** A string field of the request body that is present and not empty. *)
Definition given (field : option string) : option string :=
  match field with
  | Some s => if truthy s then Some s else None
  | None => None
  end.

(** [PythonResolver.getStatus().lastError] *)
Definition status_lastError {R} : Async R (option string) :=
  let* status := call (getStatus W) in
  pure (st_lastError status).

(** The [try] block of the handler of [POST /api/resolver]; the fields
    [action], [url] and [interval] of the request body are strings or
    absent. *)
Definition resolverApi_try (action url interval : option string) : Async Response Empty_set :=
  match is_action action "download", given url with
  | true, Some u =>
      let* success := call (downloadScript W u) in
      if success then
        return_ {| code := 200;
                   body := Outcome true (Some "Resolver script downloaded successfully") None |}
      else
        let* e := status_lastError in
        return_ {| code := 500; body := Outcome false e None |}
  | _, _ =>
      if is_action action "create-template" then
        let* success := call createScriptTemplate in
        if success then
          return_ {| code := 200;
                     body := Outcome true (Some "Resolver script template created successfully")
                               (Some (scriptPath W)) |}
        else
          let* e := status_lastError in
          return_ {| code := 500; body := Outcome false e None |}
      else if is_action action "check-health" then
        let* isHealthy := call (checkScriptHealth W) in
        let* msg := (if isHealthy then pure (Some "Resolver script is healthy")
                     else status_lastError) in
        return_ {| code := 200; body := Outcome isHealthy msg None |}
      else if is_action action "status" then
        let* status := call (getStatus W) in
        return_ {| code := 200; body := Snapshot status |}
      else if is_action action "clear-cache" then
        call clearCache ;;
        return_ {| code := 200; body := Outcome true (Some "Resolver cache cleared") None |}
      else
        match is_action action "schedule", given interval with
        | true, Some i =>
            let* success := call (scheduleUpdate W i) in
            if success then
              return_ {| code := 200;
                         body := Outcome true (Some ("Automatic updates scheduled every " +:+ i))
                                   None |}
            else
              let* e := status_lastError in
              return_ {| code := 500; body := Outcome false e None |}
        | _, _ =>
            if is_action action "stopSchedule" then
              let* stopped := call stopScheduledUpdates in
              return_ {| code := 200;
                         body := Outcome true
                                   (Some (if stopped then "Automatic updates stopped"
                                          else "No scheduled updates to stop")) None |}
            else
              return_ {| code := 400; body := Outcome false (Some "Invalid action") None |}
        end
  end.

(** The handler: a throw in the block is answered with a 500 carrying
    the error's message. *)
Definition resolverApi (action url interval : option string) : Async Response Empty_set :=
  try_catch (resolverApi_try action url interval)
    (fun error => return_ {| code := 500; body := Outcome false (Some (message error)) None |}).

End Route.

(** The actions the route knows. *)
Definition known_action (action url interval : option string) : bool :=
  is_action action "download" && bool_decide (is_Some (given url)) ||
  is_action action "create-template" || is_action action "check-health" ||
  is_action action "status" || is_action action "clear-cache" ||
  is_action action "schedule" && bool_decide (is_Some (given interval)) ||
  is_action action "stopSchedule".

(** The response of a failed operation: 500 with the recorded error. *)
Definition failure_response (st' : State) : Response :=
  {| code := 500; body := Outcome false (lastError (self st')) None |}.

(** ** [epg-utils.js] *)

(** A programme of the guide; the fields are strings or absent. *)
Record Program : Type := { start : option string; stop : option string; title : option string }.

(** [`${v}`] for a string or [undefined]. *)
Definition template_value (v : option string) : string :=
  match v with
  | Some s => s
  | None => "undefined"
  end.

(** The prefix of a title line, with the bytes it has in the source
    file. *)
Definition bullet : string :=
  String "195" (String "162" (String "226" (String "130" (String "172"
    (String "194" (String "162" " ")))))).

(** One space, unless the run of white space has begun already. *)
Definition run_space (inside : bool) (rest : string) : string :=
  if inside then rest else String " " rest.

(** [text.replace(/\s+/g, ' ')]; [inside] tells that the characters
    just before were white space. *)
Fixpoint replace_spaces (inside : bool) (s : string) : string :=
  match s with
  | EmptyString => EmptyString
  | String b1 rest1 =>
      if is_ascii_space b1 then run_space inside (replace_spaces true rest1)
      else match rest1 with
           | String b2 rest2 =>
               if is_space2 b1 b2 then run_space inside (replace_spaces true rest2)
               else match rest2 with
                    | String b3 rest3 =>
                        if is_space3 b1 b2 b3
                        then run_space inside (replace_spaces true rest3)
                        else String b1 (replace_spaces false rest1)
                    | EmptyString => String b1 (replace_spaces false rest1)
                    end
           | EmptyString => String b1 EmptyString
           end
  end.

(** [array.filter(Boolean)] on strings that may be [undefined]. *)
Definition filter_Boolean (l : list (option string)) : list string :=
  omap given l.

(** [array.slice(0, end)] *)
Definition slice {A} (l : list A) (end_ : Z) : list A :=
  take (Z.to_nat (if (end_ <? 0)%Z then Z.of_nat (length l) + end_ else end_)) l.

(** The object [meta] of [meta-handler.js]: the two fields
    [enrichWithDetailedEPG] assigns, and the rest. *)
Record Meta (T : Type) : Type := { description : string; releaseInfo : string; others : T }.
Arguments description {T}.
Arguments releaseInfo {T}.
Arguments others {T}.

Section Epg.
(** [text.replace(/\p{Extended_Pictographic}/gu, '')]: the Unicode
    property is left to the engine. *)
Variable remove_pictographic : string -> string.

Definition sanitizeEpgText (text : option string) : string :=
  match given text with
  | None => EmptyString
  | Some t => trim (replace_spaces false (remove_pictographic t))
  end.

Definition formatProgramLine (program : option Program) : list string :=
  match program with
  | None => []
  | Some p =>
      let timeRange :=
        match given (stop p) with
        | Some s => Some (template_value (start p) +:+ " - " +:+ s)
        | None => start p
        end in
      let title := sanitizeEpgText (title p) in
      let formattedTitle := if truthy title then bullet +:+ title else EmptyString in
      filter_Boolean [timeRange; Some formattedTitle]
  end.

(** The [forEach] over [upcoming], from [index] on; [len] is
    [upcoming.length]. *)
Fixpoint push_upcoming (len index : nat) (upcoming : list Program) (lines : list string)
  : list string :=
  match upcoming with
  | [] => lines
  | program :: rest =>
      let programLines := formatProgramLine (Some program) in
      let lines :=
        if (0 <? length programLines)%nat then
          let lines := (lines ++ programLines)%list in
          if (Z.of_nat index <? Z.of_nat len - 1)%Z then (lines ++ [EmptyString])%list else lines
        else lines in
      push_upcoming len (S index) rest lines
  end.

(** [buildEpgDescription({ currentProgram, upcomingPrograms, upcomingLimit })]
    with the array and the limit given. *)
Definition buildEpgDescription (currentProgram : option Program)
  (upcomingPrograms : list (option Program)) (upcomingLimit : Z) : string :=
  let lines := [] in
  let lines :=
    match currentProgram with
    | Some _ => ((lines ++ ["Now"]) ++ formatProgramLine currentProgram)%list
    | None => lines
    end in
  let upcoming := slice (omap id upcomingPrograms) upcomingLimit in
  let lines :=
    if (0 <? length upcoming)%nat then
      let lines := if (0 <? length lines)%nat then (lines ++ [EmptyString])%list else lines in
      let lines := (lines ++ ["Next"])%list in
      push_upcoming (length upcoming) 0 upcoming lines
    else lines in
  trim (join newline lines).

(** ** [meta-handler.js]: [enrichWithDetailedEPG] *)

(** [EPGManager.getCurrentProgram] and [EPGManager.getUpcomingPrograms]
    (an array or [undefined]), and [String.prototype.toLowerCase]. *)
Variable getCurrentProgram : string -> option Program.
Variable getUpcomingPrograms : string -> option (list (option Program)).
Variable toLowerCase : string -> string.

(** [userConfig.epg_enabled] and [channelId] are strings or absent. *)
Definition enrichWithDetailedEPG {T} (meta : Meta T) (channelId epg_enabled : option string)
  : Meta T :=
  match given epg_enabled with
  | None => meta
  | Some _ =>
      let normalizedId := normalizeId toLowerCase channelId in
      let currentProgram := getCurrentProgram normalizedId in
      let upcomingPrograms := getUpcomingPrograms normalizedId in
      let epgDescription :=
        buildEpgDescription currentProgram (default [] upcomingPrograms) 3 in
      if truthy epgDescription then
        {| description := epgDescription;
           releaseInfo := default "LIVE" (currentProgram ≫= fun p => given (title p));
           others := others meta |}
      else meta
  end.
End Epg.

(** [s] begins with an ASCII white-space character. *)
Definition starts_spaced (s : string) : bool :=
  match s with
  | String c _ => is_ascii_space c
  | EmptyString => false
  end.

(** Every ASCII white-space character of [s] is a space, and the
    character after it is not ASCII white space. *)
Fixpoint spaced (s : string) : bool :=
  match s with
  | EmptyString => true
  | String c rest =>
      (if is_ascii_space c then Ascii.eqb c " " && negb (starts_spaced rest) else true)
      && spaced rest
  end.

(** A character that is not ASCII text: white space or a byte of a
    longer character. *)
Definition not_plain (c : ascii) : bool := negb (plain c).

(** * Properties *)

(** ** The cache key determines the url's headers, order included *)

Section Serialisation.

Local Arguments String.append : simpl nomatch.

Lemma append_assoc (a b c : string) : (a +:+ b) +:+ c = a +:+ (b +:+ c).
Proof. induction a as [|x a IH]; cbn [String.append]; congruence. Qed.

Lemma append_inv_head (a b c : string) : a +:+ b = a +:+ c -> b = c.
Proof. induction a as [|x a IH]; cbn [String.append]; [auto | intros [= H]; auto]. Qed.

Lemma unescape_escape_char (c : ascii) (rest : string) :
  unescape_head (escape_char c +:+ rest) = Some (c, rest).
Proof. destruct c as [[] [] [] [] [] [] [] []]; reflexivity. Qed.

Lemma escape_inj (s1 s2 r1 r2 : string) :
  escape s1 +:+ String dquote r1 = escape s2 +:+ String dquote r2 ->
  s1 = s2 /\ r1 = r2.
Proof.
  revert s2. induction s1 as [|c1 s1 IH]; intros [|c2 s2] H; cbn [escape] in H.
  - cbn in H. injection H as ->. auto.
  - rewrite append_assoc in H. apply (f_equal unescape_head) in H.
    rewrite unescape_escape_char in H. discriminate.
  - rewrite append_assoc in H. apply (f_equal unescape_head) in H.
    rewrite unescape_escape_char in H. discriminate.
  - rewrite !append_assoc in H. apply (f_equal unescape_head) in H.
    rewrite !unescape_escape_char in H. injection H as -> H.
    destruct (IH _ H) as [-> ->]. auto.
Qed.

Lemma quote_inj (s1 s2 r1 r2 : string) :
  quote s1 +:+ r1 = quote s2 +:+ r2 -> s1 = s2 /\ r1 = r2.
Proof.
  unfold quote, str1. cbn [String.append]. intros [= H].
  rewrite !append_assoc in H. cbn [String.append] in H. apply escape_inj, H.
Qed.

Lemma member_inj (kv1 kv2 : string * string) (r1 r2 : string) :
  member kv1 +:+ r1 = member kv2 +:+ r2 -> kv1 = kv2 /\ r1 = r2.
Proof.
  destruct kv1 as [k1 v1], kv2 as [k2 v2]. unfold member. cbn [fst snd].
  rewrite !append_assoc. intros H.
  apply quote_inj in H as [-> H].
  apply (append_inv_head ":") in H. apply quote_inj in H as [-> ->]. auto.
Qed.

Lemma member_head (kv : string * string) (r : string) :
  exists t, member kv +:+ r = String dquote t.
Proof. unfold member, quote. cbn [String.append]. eauto. Qed.

Lemma members_inj (h1 h2 : list (string * string)) :
  join "," (map member h1) +:+ "}" = join "," (map member h2) +:+ "}" -> h1 = h2.
Proof.
  revert h2. induction h1 as [|x t1 IH]; intros [|y t2] H.
  - reflexivity.
  - exfalso. cbn [map join] in H. destruct t2 as [|z t2]; cbn [map] in H.
    + destruct (member_head y "}") as [t Ht]. rewrite Ht in H. discriminate.
    + rewrite append_assoc in H.
      destruct (member_head y ("," +:+ join "," (member z :: map member t2) +:+ "}")) as [t Ht].
      rewrite append_assoc in H. rewrite Ht in H. discriminate.
  - exfalso. cbn [map join] in H. destruct t1 as [|z t1]; cbn [map] in H.
    + destruct (member_head x "}") as [t Ht]. rewrite Ht in H. discriminate.
    + rewrite append_assoc in H.
      destruct (member_head x ("," +:+ join "," (member z :: map member t1) +:+ "}")) as [t Ht].
      rewrite append_assoc in H. rewrite Ht in H. discriminate.
  - assert (Hj : forall (a : string * string) t,
               join "," (map member (a :: t)) +:+ "}" =
               member a +:+ match t with
                            | [] => "}"
                            | _ => "," +:+ join "," (map member t) +:+ "}"
                            end).
    { intros a [|b t]; cbn [map join]; [reflexivity|].
      rewrite !append_assoc. reflexivity. }
    rewrite !Hj in H. apply member_inj in H as [-> H].
    destruct t1 as [|a1 t1], t2 as [|a2 t2]; try discriminate.
    + reflexivity.
    + apply (append_inv_head ",") in H. rewrite (IH _ H). reflexivity.
Qed.

Lemma stringify_headers (h : list (string * string)) :
  JSON_stringify (headers_object h) = "{" +:+ join "," (map member h) +:+ "}".
Proof.
  unfold headers_object. cbn [JSON_stringify]. rewrite map_map. reflexivity.
Qed.

Lemma cacheKey_headers_inj (url : string) (h1 h2 : list (string * string)) :
  cacheKey url (headers_object h1) = cacheKey url (headers_object h2) -> h1 = h2.
Proof.
  unfold cacheKey. rewrite !stringify_headers. intros H.
  apply append_inv_head in H. apply append_inv_head in H.
  cbn [String.append] in H. injection H as H. apply members_inj, H.
Qed.

End Serialisation.

(** ** The sequential semantics of the control operators *)

Section RunLaws.
Variable W : World.

Lemma run_bind {R A B} (p : Async R A) (f : A -> Async R B) s :
  run W (bind p f) s =
  match run W p s with
  | (Normal a, s') => run W (f a) s'
  | (Return r, s') => (Return r, s')
  | (Throw e, s') => (Throw e, s')
  end.
Proof.
  revert s. induction p as [[a|r|e]|k IH|s' k IH|X req k IH]; intros s; simpl; auto.
  destruct (respond W X req s) as [x s1]. apply IH.
Qed.

Lemma run_try_catch {R A} (p : Async R A) (h : Exn -> Async R A) s :
  run W (try_catch p h) s =
  match run W p s with
  | (Throw e, s') => run W (h e) s'
  | other => other
  end.
Proof.
  revert s. induction p as [[a|r|e]|k IH|s' k IH|X req k IH]; intros s; simpl; auto.
  destruct (respond W X req s) as [x s1]. apply IH.
Qed.

Lemma run_try_finally {R A} (p : Async R A) (fin : Async R unit) s :
  run W (try_finally p fin) s =
  let (c, s1) := run W p s in
  match run W fin s1 with
  | (Normal _, s2) => (c, s2)
  | (Return r, s2) => (Return r, s2)
  | (Throw e, s2) => (Throw e, s2)
  end.
Proof.
  revert s. induction p as [c|k IH|s' k IH|X req k IH]; intros s; simpl; auto.
  - rewrite run_bind. destruct (run W fin s) as [[[]|r|e] s2]; reflexivity.
  - destruct (respond W X req s) as [x s1]. apply IH.
Qed.

Lemma run_call {R R'} (p : Async R Empty_set) s :
  run W (call (R':=R') p) s =
  match run W p s with
  | (Normal a, _) => match a with end
  | (Return r, s') => (Normal r, s')
  | (Throw e, s') => (Throw e, s')
  end.
Proof.
  revert s. induction p as [[[]|r|e]|k IH|s' k IH|X req k IH]; intros s; simpl; auto.
  destruct (respond W X req s) as [x s1]. apply IH.
Qed.

(** A computation that never awaits does not depend on the world:
    [advance] already finishes it. *)
Lemma advance_finished_run {R A} (p : Async R A) s c s' :
  advance p s = (Finished c, s') -> run W p s = (c, s').
Proof.
  revert s. induction p as [c0|k IH|s0 k IH|X req k IH]; intros s; simpl.
  - intros [= -> ->]. reflexivity.
  - apply IH.
  - apply IH.
  - discriminate.
Qed.
End RunLaws.

(** A torn write changes one file and nothing else. *)
Lemma torn_write_self (W : World) (path content : string) (s : State) :
  self (torn_write W path content s) = self s.
Proof. unfold torn_write. destruct (written_before_fault W path content s); reflexivity. Qed.

Lemma torn_write_files (W : World) (path content : string) (s : State) (p : string) :
  p <> path -> files (host (torn_write W path content s)) !! p = files (host s) !! p.
Proof.
  intros Hp. unfold torn_write. destruct (written_before_fault W path content s); [|reflexivity].
  destruct s as [o h]. cbn. apply lookup_insert_ne. congruence.
Qed.

Lemma torn_write_host (W : World) (path content : string) (s : State) :
  now (host (torn_write W path content s)) = now (host s) /\
  cronTasks (host (torn_write W path content s)) = cronTasks (host s) /\
  spawned (host (torn_write W path content s)) = spawned (host s).
Proof.
  unfold torn_write. destruct (written_before_fault W path content s) as [k|]; [|auto].
  destruct s as [o [t f c sp]]. cbn. auto.
Qed.

Local Opaque temp_file resolve_command inputParams JSON_stringify_indent JSON_stringify
  cacheKey scriptPath pythonCmd pretty cacheExpiryTime.

Ltac crunch :=
  repeat (cbn -[Z.ltb Z.sub]; unfold parse, cron_schedule; try case_match).

(** ** [resolveLink] *)

Section ResolveLink.
Variable W : World.
Variables (url : string) (headers : JSON) (channelName : string) (proxyConfig : JSON).

Abbreviation key := (cacheKey url headers).
Abbreviation the_call := (resolveLink W url headers channelName proxyConfig).
Abbreviation the_try := (resolveLink_guarded W key url headers channelName proxyConfig).

(** The [try] statement ends in a [return], with the flag released. *)
Lemma guarded_returns s :
  exists r s', run W the_try s = (Return r, s') /\ isRunning (self s') = false.
Proof.
  unfold resolveLink_guarded. rewrite run_try_finally, run_try_catch.
  destruct (run W _ s) as [[[]|r|e] s1]; cbn; eauto.
Qed.

(** A fresh entry answers the call at once. *)
Lemma resolveLink_hit st entry :
  cache_hit key st entry ->
  advance the_call st = (Finished (Return (data entry)), st).
Proof.
  intros [Hk Ht]. unfold resolveLink. cbn -[Z.ltb Z.sub]. rewrite Hk. cbn -[Z.ltb Z.sub].
  apply Z.ltb_lt in Ht. rewrite Ht. reflexivity.
Qed.

(** Without one, the rest of the function runs. *)
Lemma resolveLink_on_miss st :
  cache_miss key st ->
  run W the_call st = run W (resolveLink_miss W key url headers channelName proxyConfig) st.
Proof.
  intros Hm. unfold resolveLink. cbn -[Z.ltb Z.sub].
  destruct (resolvedLinksCache (self st) !! key) as [entry|] eqn:Hk; [|reflexivity].
  cbn -[Z.ltb Z.sub]. specialize (Hm entry Hk).
  apply Z.ltb_ge in Hm. rewrite Hm. reflexivity.
Qed.

Lemma resolveLink_miss_absent st :
  files (host st) !! scriptPath W = None ->
  run W (resolveLink_miss W key url headers channelName proxyConfig) st =
  (Return JNull, with_self (set_lastError (Some "Python resolver script not found")) st).
Proof.
  intros Hf. unfold resolveLink_miss. cbn. rewrite Hf. reflexivity.
Qed.

Lemma resolveLink_miss_present st :
  is_Some (files (host st) !! scriptPath W) ->
  run W (resolveLink_miss W key url headers channelName proxyConfig) st =
  run W the_try (after_throttle W st).
Proof.
  intros Hf. unfold resolveLink_miss, after_throttle. cbn.
  rewrite bool_decide_eq_true_2 by exact Hf. cbn.
  destruct (isRunning (self st)); cbn; [|reflexivity].
  destruct (respond W unit (Sleep 500) st) as [[] s1]. reflexivity.
Qed.

(** The [try] statement, case by case, from its entry state [s]. *)
Lemma guarded_write_fails s e :
  fs_fault W OpWrite (inputFile W s) (with_self (set_isRunning true) s) = Some e ->
  run W the_try s =
  (Return JNull,
   failed ("Execution error: " +:+ message e)
     (torn_write W (inputFile W s)
        (JSON_stringify_indent EmptyString (inputParams url headers channelName proxyConfig))
        (with_self (set_isRunning true) s))).
Proof.
  intros Hw. unfold resolveLink_guarded, inputFile in *. cbn. rewrite Hw. reflexivity.
Qed.

Lemma guarded_exec_fails s e s1 :
  fs_fault W OpWrite (inputFile W s) (with_self (set_isRunning true) s) = None ->
  exec_outcome W url headers channelName proxyConfig s = (inl e, s1) ->
  run W the_try s = (Return JNull, failed ("Execution error: " +:+ message e) s1).
Proof.
  intros Hw Hx. unfold resolveLink_guarded, exec_outcome, exec_state, inputFile, outputFile in *.
  cbn. rewrite Hw. cbn. rewrite Hx. reflexivity.
Qed.

Lemma guarded_output_missing s out s1 :
  fs_fault W OpWrite (inputFile W s) (with_self (set_isRunning true) s) = None ->
  exec_outcome W url headers channelName proxyConfig s = (inr out, s1) ->
  files (host s1) !! outputFile W s = None ->
  run W the_try s = (Return JNull, failed "Output file not created" s1).
Proof.
  intros Hw Hx Ho. unfold resolveLink_guarded, exec_outcome, exec_state, inputFile, outputFile in *.
  cbn. rewrite Hw. cbn. rewrite Hx. cbn. rewrite Ho. reflexivity.
Qed.

Lemma guarded_read_fails s out s1 text e :
  fs_fault W OpWrite (inputFile W s) (with_self (set_isRunning true) s) = None ->
  exec_outcome W url headers channelName proxyConfig s = (inr out, s1) ->
  files (host s1) !! outputFile W s = Some text ->
  fs_fault W OpRead (outputFile W s) s1 = Some e ->
  run W the_try s = (Return JNull, failed ("Execution error: " +:+ message e) s1).
Proof.
  intros Hw Hx Ho Hr.
  unfold resolveLink_guarded, exec_outcome, exec_state, inputFile, outputFile in *.
  cbn. rewrite Hw. cbn. rewrite Hx. cbn. rewrite Ho. cbn. rewrite Hr. reflexivity.
Qed.

Lemma guarded_parse_fails s out s1 text e :
  fs_fault W OpWrite (inputFile W s) (with_self (set_isRunning true) s) = None ->
  exec_outcome W url headers channelName proxyConfig s = (inr out, s1) ->
  files (host s1) !! outputFile W s = Some text ->
  fs_fault W OpRead (outputFile W s) s1 = None ->
  JSON_parse W text = inl e ->
  run W the_try s = (Return JNull, failed ("Parsing error: " +:+ message e) s1).
Proof.
  intros Hw Hx Ho Hr Hp.
  unfold resolveLink_guarded, exec_outcome, exec_state, inputFile, outputFile in *.
  cbn. rewrite Hw. cbn. rewrite Hx. cbn. rewrite Ho. cbn. rewrite Hr, Ho. cbn.
  unfold parse. rewrite Hp. reflexivity.
Qed.

(** The successful run: the result is returned and cached under the
    key with the clock reading found after the child process. *)
Lemma guarded_success s out s1 text result :
  fs_fault W OpWrite (inputFile W s) (with_self (set_isRunning true) s) = None ->
  exec_outcome W url headers channelName proxyConfig s = (inr out, s1) ->
  files (host s1) !! outputFile W s = Some text ->
  fs_fault W OpRead (outputFile W s) s1 = None ->
  JSON_parse W text = inr result ->
  exists s', run W the_try s = (Return result, s') /\
    resolvedLinksCache (self s') =
      <[key := {| timestamp := now (host s1); data := result |}]> (resolvedLinksCache (self s1)) /\
    lastError (self s') = None /\
    lastExecution (self s') = Some (now (host s1)) /\
    isRunning (self s') = false /\
    now (host s') = now (host s1) /\
    spawned (host s') = spawned (host s1).
Proof.
  intros Hw Hx Ho Hr Hp.
  unfold resolveLink_guarded, exec_outcome, exec_state, inputFile, outputFile in *.
  cbn. rewrite Hw. cbn. rewrite Hx. cbn. rewrite Ho. cbn. rewrite Hr, Ho. cbn.
  unfold parse. rewrite Hp. cbn.
  repeat (case_match; cbn); eexists; (split; [reflexivity|]); cbn; auto 10.
Qed.
End ResolveLink.

(** ** How a call of [resolveLink] can end *)

Section Outcomes.
Variable W : World.
Variables (url : string) (headers : JSON) (channelName : string) (proxyConfig : JSON).

Abbreviation key := (cacheKey url headers).
Abbreviation the_call := (resolveLink W url headers channelName proxyConfig).

Lemma hit_or_miss st :
  (exists entry, cache_hit key st entry) \/ cache_miss key st.
Proof.
  unfold cache_hit, cache_miss.
  destruct (resolvedLinksCache (self st) !! key) as [entry|] eqn:Hk.
  - destruct (Z_lt_le_dec (now (host st) - timestamp entry) cacheExpiryTime).
    + left. eauto.
    + right. intros ? [= <-]. assumption.
  - right. discriminate.
Qed.

Lemma hit_not_miss st entry : cache_hit key st entry -> cache_miss key st -> False.
Proof. intros [Hk Ht] Hm. specialize (Hm entry Hk). lia. Qed.

(** Every call ends in a [return], in one of three ways: answered from
    the cache with the state untouched; or with the result of the
    child process, cached and with [lastError] cleared; or with [null]
    and [lastError] set. *)
Lemma resolveLink_outcomes st :
  exists r st', run W the_call st = (Return r, st') /\
    ((exists entry, cache_hit key st entry /\ r = data entry /\ st' = st) \/
     (cache_miss key st /\ lastError (self st') = None /\
      resolvedLinksCache (self st') !! key = Some {| timestamp := now (host st'); data := r |} /\
      isRunning (self st') = false) \/
     (cache_miss key st /\ r = JNull /\ is_Some (lastError (self st')) /\
      (is_Some (files (host st) !! scriptPath W) -> isRunning (self st') = false) /\
      (files (host st) !! scriptPath W = None -> isRunning (self st') = isRunning (self st)))).
Proof.
  destruct (hit_or_miss st) as [[entry Hhit]|Hmiss].
  { exists (data entry), st. split.
    - apply advance_finished_run, resolveLink_hit, Hhit.
    - left. eauto. }
  rewrite (resolveLink_on_miss W url headers channelName proxyConfig st Hmiss).
  destruct (files (host st) !! scriptPath W) as [script|] eqn:Hs.
  2:{ rewrite resolveLink_miss_absent by exact Hs. do 2 eexists. split; [reflexivity|].
      right; right. cbn. repeat split; eauto. intros [? [=]]. }
  rewrite resolveLink_miss_present by (rewrite Hs; eauto).
  set (s := after_throttle W st).
  assert (Hfail : forall msg s1,
             run W (resolveLink_guarded W key url headers channelName proxyConfig) s
             = (Return JNull, failed msg s1) ->
             exists r st', run W (resolveLink_guarded W key url headers channelName proxyConfig) s
                           = (Return r, st') /\
               ((exists entry, cache_hit key st entry /\ r = data entry /\ st' = st) \/
                (cache_miss key st /\ lastError (self st') = None /\
                 resolvedLinksCache (self st') !! key
                   = Some {| timestamp := now (host st'); data := r |} /\
                 isRunning (self st') = false) \/
                (cache_miss key st /\ r = JNull /\ is_Some (lastError (self st')) /\
                 (is_Some (Some script) -> isRunning (self st') = false) /\
                 (Some script = None -> isRunning (self st') = isRunning (self st))))).
  { intros msg s1 ->. do 2 eexists. split; [reflexivity|]. right; right. cbn.
    repeat split; eauto. discriminate. }
  destruct (fs_fault W OpWrite (inputFile W s) (with_self (set_isRunning true) s)) as [e|] eqn:Hw.
  { eapply Hfail, guarded_write_fails, Hw. }
  destruct (exec_outcome W url headers channelName proxyConfig s) as [[e|out] s1] eqn:Hx.
  { eapply Hfail, guarded_exec_fails; eauto. }
  destruct (files (host s1) !! outputFile W s) as [text|] eqn:Ho.
  2:{ eapply Hfail, guarded_output_missing; eauto. }
  destruct (fs_fault W OpRead (outputFile W s) s1) as [e|] eqn:Hr.
  { eapply Hfail, guarded_read_fails; eauto. }
  destruct (JSON_parse W text) as [e|result] eqn:Hp.
  { eapply Hfail, guarded_parse_fails; eauto. }
  destruct (guarded_success W url headers channelName proxyConfig s out s1 text result
              Hw Hx Ho Hr Hp) as (s' & -> & Hc & He & _ & Hrun & Hn & _).
  do 2 eexists. split; [reflexivity|]. right; left.
  repeat split; auto. rewrite Hc, Hn. apply lookup_insert_eq.
Qed.
End Outcomes.

(** ** Claims about [resolveLink] *)

(** C7 — [resolveLink] never propagates an exception: every call ends
    in a [return], which is a cache hit, a success, or [null] with
    [lastError] set.  On each failure path (program file absent, the
    process cannot be executed, no output file after the process has
    exited, output that does not parse) it returns [null] and leaves a
    descriptive message in [lastError]. *)
Theorem resolveLink_failures_return_null (W : World) (url : string) (headers : JSON)
    (channelName : string) (proxyConfig : JSON) (st : State) :
  let the_call := resolveLink W url headers channelName proxyConfig in
  let key := cacheKey url headers in
  (exists r st', run W the_call st = (Return r, st') /\
     ((exists entry, cache_hit key st entry /\ r = data entry /\ st' = st) \/
      (lastError (self st') = None /\
       resolvedLinksCache (self st') !! key = Some {| timestamp := now (host st'); data := r |}) \/
      (r = JNull /\ is_Some (lastError (self st'))))) /\
  (cache_miss key st -> files (host st) !! scriptPath W = None ->
     run W the_call st =
     (Return JNull, with_self (set_lastError (Some "Python resolver script not found")) st)) /\
  (cache_miss key st -> is_Some (files (host st) !! scriptPath W) ->
     let s := after_throttle W st in
     fs_fault W OpWrite (inputFile W s) (with_self (set_isRunning true) s) = None ->
     forall outcome s1,
       exec_outcome W url headers channelName proxyConfig s = (outcome, s1) ->
       match outcome with
       | inl e =>
           run W the_call st = (Return JNull, failed ("Execution error: " +:+ message e) s1)
       | inr _ =>
           match files (host s1) !! outputFile W s with
           | None => run W the_call st = (Return JNull, failed "Output file not created" s1)
           | Some text =>
               fs_fault W OpRead (outputFile W s) s1 = None ->
               forall e, JSON_parse W text = inl e ->
               run W the_call st = (Return JNull, failed ("Parsing error: " +:+ message e) s1)
           end
       end).
Proof.
  intros the_call key. subst the_call key. split; [|split].
  - destruct (resolveLink_outcomes W url headers channelName proxyConfig st)
      as (r & st' & Hrun & [Hhit | [(_ & He & Hc & _) | (_ & Hr & He & _)]]);
      exists r, st'; (split; [exact Hrun|]); auto.
  - intros Hm Hf. rewrite resolveLink_on_miss by exact Hm. apply resolveLink_miss_absent, Hf.
  - intros Hm Hf s Hw outcome s1 Hx.
    rewrite resolveLink_on_miss by exact Hm. rewrite resolveLink_miss_present by exact Hf.
    fold s. destruct outcome as [e|out].
    + eapply guarded_exec_fails; eauto.
    + destruct (files (host s1) !! outputFile W s) as [text|] eqn:Ho.
      * intros Hr e Hp. eapply guarded_parse_fails; eauto.
      * eapply guarded_output_missing; eauto.
Qed.

(** C7 in the scenario where the child process cannot be run. *)
Lemma resolveLink_failures_return_null_witness :
  run Scenario.W_exec_fails
    (resolveLink Scenario.W_exec_fails Scenario.url_a (JObj []) "Channel1" JNull)
    Scenario.installed =
  (Return JNull,
   failed "Execution error: Command failed: python3"
     (snd (exec_outcome Scenario.W_exec_fails Scenario.url_a (JObj []) "Channel1" JNull
             Scenario.installed))).
Proof.
  pose proof (resolveLink_failures_return_null Scenario.W_exec_fails Scenario.url_a (JObj [])
                "Channel1" JNull Scenario.installed) as H.
  cbv zeta in H. destruct H as (_ & _ & H).
  refine (H _ _ _ (inl (Error "Command failed: python3")) _ _).
  - intros entry He. vm_compute in He. discriminate.
  - exists Scenario.good_script. vm_compute. reflexivity.
  - vm_compute. reflexivity.
  - vm_compute. reflexivity.
Defined.

(** C9 as stated fails: while the call for [url_b] is waiting for its
    child process (flag set), a call for the cached [url_a] completes
    from the cache, and the flag is still set when it returns. *)
Lemma resolveLink_hit_leaves_flag_set :
  isRunning (self Scenario.b_in_flight) = true /\
  run Scenario.W0 (resolveLink Scenario.W0 Scenario.url_a (JObj []) "Channel1" JNull)
    Scenario.b_in_flight
  = (Return Scenario.resolved, Scenario.b_in_flight) /\
  isRunning (self (snd (run Scenario.W0
                          (resolveLink Scenario.W0 Scenario.url_a (JObj []) "Channel1" JNull)
                          Scenario.b_in_flight))) <> false.
Proof.
  split; [|split].
  - vm_compute. reflexivity.
  - vm_compute. reflexivity.
  - vm_compute. discriminate.
Qed.

(** C9, amended — a call that gets past the cache lookup and the
    program-existence check ends with [isRunning] false, whatever its
    outcome; a call answered from the cache, or failing because the
    program is absent, leaves the flag as it found it (so false if it
    was false). *)
Theorem resolveLink_flag_after_call (W : World) (url : string) (headers : JSON)
    (channelName : string) (proxyConfig : JSON) (st : State) :
  let st' := snd (run W (resolveLink W url headers channelName proxyConfig) st) in
  let key := cacheKey url headers in
  (cache_miss key st -> is_Some (files (host st) !! scriptPath W) ->
     isRunning (self st') = false) /\
  ((exists entry, cache_hit key st entry) -> st' = st) /\
  (cache_miss key st -> files (host st) !! scriptPath W = None ->
     isRunning (self st') = isRunning (self st)) /\
  (isRunning (self st) = false -> isRunning (self st') = false).
Proof.
  intros st' key. subst st' key.
  assert (Hpresent : cache_miss (cacheKey url headers) st ->
                     is_Some (files (host st) !! scriptPath W) ->
                     isRunning (self (snd (run W (resolveLink W url headers channelName
                                                    proxyConfig) st))) = false).
  { intros Hm Hf. rewrite resolveLink_on_miss by exact Hm.
    rewrite resolveLink_miss_present by exact Hf.
    destruct (guarded_returns W url headers channelName proxyConfig (after_throttle W st))
      as (r & s' & -> & Hflag). exact Hflag. }
  assert (Hhit : (exists entry, cache_hit (cacheKey url headers) st entry) ->
                 snd (run W (resolveLink W url headers channelName proxyConfig) st) = st).
  { intros [entry Hh].
    rewrite (advance_finished_run W _ _ _ _
               (resolveLink_hit W url headers channelName proxyConfig st entry Hh)).
    reflexivity. }
  assert (Habsent : cache_miss (cacheKey url headers) st ->
                    files (host st) !! scriptPath W = None ->
                    isRunning (self (snd (run W (resolveLink W url headers channelName
                                                   proxyConfig) st))) = isRunning (self st)).
  { intros Hm Hf. rewrite resolveLink_on_miss by exact Hm.
    rewrite resolveLink_miss_absent by exact Hf. reflexivity. }
  repeat split; auto.
  intros Hfalse. destruct (hit_or_miss url headers st) as [Hh | Hm].
  - rewrite Hhit by exact Hh. exact Hfalse.
  - destruct (files (host st) !! scriptPath W) as [script|] eqn:Hs.
    + apply Hpresent; [exact Hm | eauto].
    + rewrite Habsent; auto.
Qed.

(** The amended C9 on the call that runs the child process in the
    scenario, and on the call that finds the other one in flight. *)
Lemma resolveLink_flag_after_call_witness :
  isRunning (self (snd (run Scenario.W0
                          (resolveLink Scenario.W0 Scenario.url_a (JObj []) "Channel1" JNull)
                          Scenario.installed))) = false /\
  snd (run Scenario.W0 (resolveLink Scenario.W0 Scenario.url_a (JObj []) "Channel1" JNull)
         Scenario.b_in_flight) = Scenario.b_in_flight.
Proof.
  split.
  - refine (proj1 (resolveLink_flag_after_call Scenario.W0 Scenario.url_a (JObj [])
                     "Channel1" JNull Scenario.installed) _ _).
    + intros entry He. vm_compute in He. discriminate.
    + exists Scenario.good_script. vm_compute. reflexivity.
  - refine (proj1 (proj2 (resolveLink_flag_after_call Scenario.W0 Scenario.url_a (JObj [])
                            "Channel1" JNull Scenario.b_in_flight)) _).
    exists {| timestamp := 1700000000040; data := Scenario.resolved |}. split.
    + vm_compute. reflexivity.
    + vm_compute. reflexivity.
Defined.

(** C1 — a call that returns without error leaves its result in the
    cache under the key built from the url and the headers.  While
    the clock is less than 20 minutes past the entry's timestamp, a
    call with the same url and headers returns the entry's data
    without reaching any [await] (no process is started, the state is
    untouched); from 20 minutes on, the entry is ignored and the call
    continues as on a miss. *)
Theorem resolveLink_cache_window (W : World) (url : string) (headers : JSON)
    (channelName : string) (proxyConfig : JSON) (st : State) :
  let the_call := resolveLink W url headers channelName proxyConfig in
  let key := cacheKey url headers in
  (forall r st', run W the_call st = (Return r, st') -> lastError (self st') = None ->
     exists entry, resolvedLinksCache (self st') !! key = Some entry /\ data entry = r) /\
  (forall entry, resolvedLinksCache (self st) !! key = Some entry ->
     ((now (host st) - timestamp entry < 20 * 60 * 1000)%Z ->
        advance the_call st = (Finished (Return (data entry)), st) /\
        run W the_call st = (Return (data entry), st)) /\
     ((20 * 60 * 1000 <= now (host st) - timestamp entry)%Z ->
        run W the_call st =
        run W (resolveLink_miss W key url headers channelName proxyConfig) st)).
Proof.
  intros the_call key. subst the_call key. split.
  - intros r st' Hrun Herr.
    destruct (resolveLink_outcomes W url headers channelName proxyConfig st)
      as (r0 & st0 & Hrun0 & Hcases).
    rewrite Hrun in Hrun0. injection Hrun0 as <- <-.
    destruct Hcases as [(entry & [Hk _] & -> & ->) | [(_ & _ & Hc & _) | (_ & _ & He & _)]].
    + eauto.
    + eexists. split; [exact Hc | reflexivity].
    + rewrite Herr in He. destruct He as [? [=]].
  - intros entry Hk. split.
    + intros Ht.
      assert (Hhit : cache_hit (cacheKey url headers) st entry) by (split; assumption).
      split.
      * apply resolveLink_hit, Hhit.
      * apply advance_finished_run, resolveLink_hit, Hhit.
    + intros Ht. apply resolveLink_on_miss.
      intros entry' Hk'. rewrite Hk in Hk'. injection Hk' as <-. exact Ht.
Qed.

(** C1 in the scenario: one millisecond before the entry stored by the
    first call turns 20 minutes old, the second call is answered from
    the cache. *)
Lemma resolveLink_cache_window_witness :
  run Scenario.W0 (resolveLink Scenario.W0 Scenario.url_a (JObj []) "Channel1" JNull)
    (Scenario.later 1199999 Scenario.after_a)
  = (Return Scenario.resolved, Scenario.later 1199999 Scenario.after_a).
Proof.
  refine (proj2 (proj1 (proj2 (resolveLink_cache_window Scenario.W0 Scenario.url_a (JObj [])
                                 "Channel1" JNull (Scenario.later 1199999 Scenario.after_a))
                          {| timestamp := 1700000000040; data := Scenario.resolved |} _) _)).
  - vm_compute. reflexivity.
  - vm_compute. reflexivity.
Defined.

(** C3 as stated fails: the two header mappings hold the same pairs,
    inserted in a different order; their keys differ, and after a call
    with the first mapping a call with the second one is not answered
    from the cache but runs the program a second time. *)
Lemma cacheKey_differs_on_reordered_headers :
  Scenario.headers_1 ≡ₚ Scenario.headers_2 /\
  cacheKey Scenario.url_a (headers_object Scenario.headers_1)
    <> cacheKey Scenario.url_a (headers_object Scenario.headers_2) /\
  length (spawned (host Scenario.after_h1)) = 1 /\
  length (spawned (host (snd (run Scenario.W0
            (resolveLink Scenario.W0 Scenario.url_a (headers_object Scenario.headers_2)
               "Channel1" JNull)
            Scenario.after_h1)))) = 2.
Proof.
  split; [|split; [|split]].
  - apply perm_swap.
  - intros H. apply cacheKey_headers_inj in H. discriminate.
  - vm_compute. reflexivity.
  - vm_compute. reflexivity.
Qed.

(** C3, amended — for every url and any two header mappings with
    string values, the cache keys are equal exactly when the mappings
    list the same pairs in the same order; in that case an entry cached
    under one mapping answers a call with the other. *)
Theorem cacheKey_equal_iff_same_order (url : string) (h1 h2 : list (string * string)) :
  (cacheKey url (headers_object h1) = cacheKey url (headers_object h2) <-> h1 = h2) /\
  (h1 = h2 ->
   forall (W : World) (channelName : string) (proxyConfig : JSON) (st : State)
          (entry : CacheEntry),
     cache_hit (cacheKey url (headers_object h1)) st entry ->
     run W (resolveLink W url (headers_object h2) channelName proxyConfig) st
     = (Return (data entry), st)).
Proof.
  split.
  - split; [apply cacheKey_headers_inj | intros ->; reflexivity].
  - intros <- W channelName proxyConfig st entry Hhit.
    apply advance_finished_run, resolveLink_hit, Hhit.
Qed.

(** The amended C3 in the scenario: the entry stored by a call with
    [headers_1] answers a second call with [headers_1]. *)
Lemma cacheKey_equal_iff_same_order_witness :
  run Scenario.W0
    (resolveLink Scenario.W0 Scenario.url_a (headers_object Scenario.headers_1) "Channel9" JNull)
    Scenario.after_h1
  = (Return Scenario.resolved, Scenario.after_h1).
Proof.
  refine (proj2 (cacheKey_equal_iff_same_order Scenario.url_a Scenario.headers_1
                   Scenario.headers_1) eq_refl Scenario.W0 "Channel9" JNull Scenario.after_h1
            {| timestamp := 1700000000040; data := Scenario.resolved |} _).
  split; vm_compute; reflexivity.
Defined.

(** ** [downloadScript] and the scheduler tick *)

Section Download.
Variable W : World.

(** [downloadScript] always ends in a [return]. *)
Lemma downloadScript_returns (url : string) (s : State) :
  exists b s', run W (downloadScript W url) s = (Return b, s').
Proof.
  unfold downloadScript. rewrite run_try_catch.
  destruct (run W _ s) as [[[]|b|e] s1]; cbn; eauto.
Qed.

(** The state in which the GET request is awaited. *)
Lemma downloadScript_fetch_fails (url : string) (st s1 : State) (e : Exn) :
  respond W _ (HttpGet url) (with_self (set_scriptUrl (Some url)) st) = (inl e, s1) ->
  run W (downloadScript W url) st =
  (Return false, with_self (set_lastError (Some ("Download error: " +:+ message e))) s1).
Proof. intros Hr. unfold downloadScript. cbn. rewrite Hr. reflexivity. Qed.

Lemma downloadScript_write_fails (url : string) (st s1 : State) (body : string) (e : Exn) :
  respond W _ (HttpGet url) (with_self (set_scriptUrl (Some url)) st) = (inr body, s1) ->
  fs_fault W OpWrite (scriptPath W) s1 = Some e ->
  run W (downloadScript W url) st =
  (Return false,
   with_self (set_lastError (Some ("Download error: " +:+ message e)))
     (torn_write W (scriptPath W) body s1)).
Proof. intros Hr Hw. unfold downloadScript. cbn. rewrite Hr. cbn. rewrite Hw. reflexivity. Qed.

Lemma downloadScript_written (url : string) (st s1 : State) (body : string) :
  respond W _ (HttpGet url) (with_self (set_scriptUrl (Some url)) st) = (inr body, s1) ->
  fs_fault W OpWrite (scriptPath W) s1 = None ->
  let stored := with_host (fun h => set_files (<[scriptPath W := body]> (files h)) h) s1 in
  run W (downloadScript W url) st =
  if negb (includes body "def resolve_link") && negb (includes body "def resolve_stream")
  then (Return false,
        with_self (set_lastError
                     (Some "The script must contain a resolve_link or resolve_stream function"))
          stored)
  else (Return true, stored).
Proof.
  intros Hr Hw. unfold downloadScript. cbn. rewrite Hr. cbn. rewrite Hw. cbn.
  destruct (negb _ && negb _); reflexivity.
Qed.

(** After the request has been issued the call does not assign
    [scriptUrl]: at the end it is what the call finds when resumed. *)
Lemma downloadScript_scriptUrl (url : string) (st : State) :
  scriptUrl (self (snd (run W (downloadScript W url) st))) =
  scriptUrl (self (snd (respond W _ (HttpGet url) (with_self (set_scriptUrl (Some url)) st)))).
Proof.
  destruct (respond W _ (HttpGet url) (with_self (set_scriptUrl (Some url)) st))
    as [[e|body] s1] eqn:Hr.
  - rewrite (downloadScript_fetch_fails _ _ _ _ Hr). reflexivity.
  - destruct (fs_fault W OpWrite (scriptPath W) s1) as [e|] eqn:Hw.
    + rewrite (downloadScript_write_fails _ _ _ _ _ Hr Hw). cbn.
      rewrite torn_write_self. reflexivity.
    + rewrite (downloadScript_written _ _ _ _ Hr Hw).
      destruct (negb _ && negb _); reflexivity.
Qed.

(** [getStatus] reports the fields of the object. *)
Lemma getStatus_reports (s : State) :
  exists status, run W (getStatus W) s = (Return status, s) /\
    st_scriptUrl status = scriptUrl (self s) /\
    st_isRunning status = isRunning (self s) /\
    st_lastError status = lastError (self s) /\
    st_updateInterval status = updateInterval (self s) /\
    st_cacheItems status = size (resolvedLinksCache (self s)).
Proof.
  unfold getStatus, getResolverVersion. crunch; eexists; (split; [reflexivity|]); cbn; auto.
Qed.
End Download.

(** C8 — when the downloaded body contains neither [def resolve_link]
    nor [def resolve_stream], [downloadScript] returns false with
    [lastError] set; the write comes before the check, so once the
    write has gone through the program file holds the invalid body. *)
Theorem downloadScript_rejects_after_writing (W : World) (url body : string) (st s1 : State) :
  respond W _ (HttpGet url) (with_self (set_scriptUrl (Some url)) st) = (inr body, s1) ->
  includes body "def resolve_link" = false ->
  includes body "def resolve_stream" = false ->
  let result := run W (downloadScript W url) st in
  fst result = Return false /\
  is_Some (lastError (self (snd result))) /\
  (fs_fault W OpWrite (scriptPath W) s1 = None ->
   lastError (self (snd result))
     = Some "The script must contain a resolve_link or resolve_stream function" /\
   files (host (snd result)) !! scriptPath W = Some body).
Proof.
  intros Hr H1 H2 result. subst result.
  destruct (fs_fault W OpWrite (scriptPath W) s1) as [e|] eqn:Hw.
  - rewrite (downloadScript_write_fails W _ _ _ _ _ Hr Hw). cbn.
    split; [reflexivity | split; [eauto | discriminate]].
  - rewrite (downloadScript_written W _ _ _ _ Hr Hw). rewrite H1, H2. cbn.
    split; [reflexivity | split; [eauto | intros _; split; [reflexivity|]]].
    apply lookup_insert_eq.
Qed.

(** C8 in the scenario: the server answers with an error page. *)
Lemma downloadScript_rejects_after_writing_witness :
  let result := run Scenario.W_bad_download
                  (downloadScript Scenario.W_bad_download "https://example.com/resolver.py")
                  Scenario.installed in
  fst result = Return false /\
  lastError (self (snd result))
    = Some "The script must contain a resolve_link or resolve_stream function" /\
  files (host (snd result)) !! "/app/resolver_script.py" = Some Scenario.bad_script.
Proof.
  pose proof (downloadScript_rejects_after_writing Scenario.W_bad_download
                "https://example.com/resolver.py" Scenario.bad_script Scenario.installed _
                eq_refl eq_refl eq_refl) as (Hf & _ & Hw).
  destruct (Hw eq_refl) as [He Hfile].
  cbv zeta. split; [exact Hf | split; [exact He | exact Hfile]].
Defined.

(** C10 as stated fails: two downloads overlap on the one resolver
    object.  The call for [script_a] returns true, and the recorded
    source URL after it is [script_b], the URL of the call that started
    while it was waiting. *)
Lemma downloadScript_overlap_leaves_other_url :
  let result := run Scenario.W_overlap (downloadScript Scenario.W_overlap Scenario.script_a)
                  Scenario.installed in
  fst result = Return true /\
  scriptUrl (self (snd result)) = Some Scenario.script_b /\
  scriptUrl (self (snd result)) <> Some Scenario.script_a.
Proof.
  cbv zeta. split; [|split].
  - vm_compute. reflexivity.
  - vm_compute. reflexivity.
  - vm_compute. discriminate.
Qed.

(** C10, amended — [downloadScript(u)] records [u] before the download
    is attempted: the request is issued in the entry state with
    [scriptUrl] set to [u].  The call does not assign [scriptUrl] again,
    so after it, whether it has succeeded or failed, [scriptUrl] is what
    the call found when it was resumed.  If that is still [u] (no other
    call has assigned it meanwhile), then [scriptUrl] is [u] after the
    call, [getStatus] reports [u], and the next tick of the scheduler
    requests [u]. *)
Theorem downloadScript_records_url (W : World) (url : string) (st : State) :
  let asked := with_self (set_scriptUrl (Some url)) st in
  let resumed := snd (respond W _ (HttpGet url) asked) in
  let st' := snd (run W (downloadScript W url) st) in
  (exists k, advance (downloadScript W url) st = (Suspended (HttpGet url) k, asked)) /\
  scriptUrl (self st') = scriptUrl (self resumed) /\
  (scriptUrl (self resumed) = Some url ->
   scriptUrl (self st') = Some url /\
   (exists status, run W (getStatus W) st' = (Return status, st') /\
                   st_scriptUrl status = Some url) /\
   (truthy url = true ->
    exists k s, advance (scheduledTick W) st' = (Suspended (HttpGet url) k, s))).
Proof.
  intros asked resumed st'. subst asked resumed st'.
  pose proof (downloadScript_scriptUrl W url st) as Hsame.
  split; [|split; [exact Hsame|]].
  - unfold downloadScript. cbn. eexists. reflexivity.
  - intros Hkept. rewrite Hkept in Hsame. split; [exact Hsame | split].
    + destruct (getStatus_reports W (snd (run W (downloadScript W url) st)))
        as (status & Hrun & Hs & _).
      exists status. split; [exact Hrun | congruence].
    + intros Ht. revert Hsame. generalize (snd (run W (downloadScript W url) st)).
      intros s Hu. unfold scheduledTick, downloadScript. cbn. rewrite Hu. rewrite Ht. cbn.
      do 2 eexists. reflexivity.
Qed.

(** C10, amended, in the scenario: the server cannot be reached, nothing
    else runs meanwhile, and the URL is recorded all the same. *)
Lemma downloadScript_records_url_witness :
  scriptUrl (self (snd (run Scenario.W_offline
                          (downloadScript Scenario.W_offline "https://example.com/resolver.py")
                          Scenario.installed)))
  = Some "https://example.com/resolver.py".
Proof.
  exact (proj1 (proj2 (proj2 (downloadScript_records_url Scenario.W_offline
                                "https://example.com/resolver.py" Scenario.installed))
                  eq_refl)).
Defined.

(** C6 — a scheduler tick always completes with an empty result cache:
    whether or not a source URL is recorded, and whatever becomes of
    the download. *)
Theorem scheduledTick_clears_cache (W : World) (st : State) :
  exists st', run W (scheduledTick W) st = (Normal tt, st') /\
              resolvedLinksCache (self st') = ∅.
Proof.
  unfold scheduledTick. cbn [bind gets pure run].
  destruct (scriptUrl (self st)) as [u|]; [destruct (truthy u)|].
  - rewrite !run_bind, run_call.
    destruct (downloadScript_returns W u st) as (b & s' & ->). cbn.
    eexists. split; reflexivity.
  - cbn. eexists. split; reflexivity.
  - cbn. eexists. split; reflexivity.
Qed.

(** ** Interval specifications and what [scheduleUpdate] reads *)

Section Intervals.

Lemma in_below (k : nat) (n : N) : (n < N.of_nat k)%N -> In n (below k).
Proof.
  intros Hn. unfold below. apply in_map_iff. exists (N.to_nat n). split.
  - apply N2Nat.id.
  - apply in_seq. lia.
Qed.

Lemma is_digit_char (c : ascii) :
  is_digit c = true -> (digit_value c < 10)%N /\ c = digit_char (digit_value c).
Proof.
  destruct c as [[] [] [] [] [] [] [] []]; intros H; try discriminate H;
    (split; [vm_compute; reflexivity | reflexivity]).
Qed.

Lemma two_digits_of (d1 d2 : N) :
  (d1 < 10)%N -> (d2 < 10)%N ->
  two_digits (10 * d1 + d2) = String (digit_char d1) (str1 (digit_char d2)).
Proof.
  intros H1 H2. unfold two_digits.
  replace ((10 * d1 + d2) / 10)%N with d1
    by (apply (N.div_unique _ 10 d1 d2); [exact H2 | reflexivity]).
  replace ((10 * d1 + d2) mod 10)%N with d2
    by (apply (N.mod_unique _ 10 d1 d2); [exact H2 | reflexivity]).
  reflexivity.
Qed.

Lemma accepted_two_digits_table :
  forallb (fun h => forallb (fun m => accepted_as (two_digits h +:+ ":" +:+ two_digits m) h m)
                      (below 100)) (below 100) = true.
Proof. vm_compute. reflexivity. Qed.

Lemma accepted_one_digit_table :
  forallb (fun h => forallb (fun m => accepted_as (one_digit h +:+ ":" +:+ two_digits m) h m)
                      (below 100)) (below 10) = true.
Proof. vm_compute. reflexivity. Qed.

(** A text that reads as [h] and [m] passes the shape test and is
    split into these two numbers. *)
Lemma reads_as_accepted (s : string) (h m : N) : reads_as s h m -> accepted_as s h m = true.
Proof.
  intros (Hm & [[Hh ->] | [Hh ->]]).
  - pose proof accepted_one_digit_table as T. rewrite forallb_forall in T.
    specialize (T h (in_below 10 h Hh)). rewrite forallb_forall in T.
    apply T, (in_below 100 m Hm).
  - pose proof accepted_two_digits_table as T. rewrite forallb_forall in T.
    specialize (T h (in_below 100 h Hh)). rewrite forallb_forall in T.
    apply T, (in_below 100 m Hm).
Qed.

(** Conversely, a text that passes the shape test reads as two numbers. *)
Lemma test_time_format_reads (s : string) :
  test_time_format s = true -> exists h m, reads_as s h m.
Proof.
  unfold test_time_format.
  destruct s as [|c1 [|c2 [|c3 [|c4 [|c5 [|c6 s]]]]]]; try discriminate.
  - (* H:MM *)
    intros H. apply andb_prop in H as [H H4]. apply andb_prop in H as [H H3].
    apply andb_prop in H as [H1 H2]. apply Ascii.eqb_eq in H2 as ->.
    apply is_digit_char in H1 as [Hd1 E1], H3 as [Hd3 E3], H4 as [Hd4 E4].
    exists (digit_value c1), (10 * digit_value c3 + digit_value c4)%N.
    split; [lia|]. left. split; [exact Hd1|].
    rewrite two_digits_of by assumption. unfold one_digit, str1.
    rewrite E1 at 1. rewrite E3 at 1. rewrite E4 at 1. reflexivity.
  - (* HH:MM *)
    intros H. apply andb_prop in H as [H H5]. apply andb_prop in H as [H H4].
    apply andb_prop in H as [H H3]. apply andb_prop in H as [H1 H2].
    apply Ascii.eqb_eq in H3 as ->.
    apply is_digit_char in H1 as [Hd1 E1], H2 as [Hd2 E2], H4 as [Hd4 E4], H5 as [Hd5 E5].
    exists (10 * digit_value c1 + digit_value c2)%N, (10 * digit_value c4 + digit_value c5)%N.
    split; [lia|]. right. split; [lia|].
    rewrite !two_digits_of by assumption. unfold str1.
    rewrite E1 at 1. rewrite E2 at 1. rewrite E4 at 1. rewrite E5 at 1. reflexivity.
Qed.

Lemma accepted_parts (s : string) (h m : N) :
  accepted_as s h m = true ->
  truthy s = true /\ test_time_format s = true /\
  map Number (split ":" s) = [VNum h; VNum m].
Proof.
  unfold accepted_as, parts_are. intros H.
  apply andb_prop in H as [H Hp]. apply andb_prop in H as [Ht Hf].
  repeat split; auto.
  destruct (map Number (split ":" s)) as [|[a| |] [|[b| |] [|? ?]]]; try discriminate.
  apply andb_prop in Hp as [Ha Hb]. apply N.eqb_eq in Ha, Hb. subst. reflexivity.
Qed.

End Intervals.

(** ** [scheduleUpdate] *)

Section Schedule.
Variable W : World.

Lemma stopScheduledUpdates_effect (st : State) :
  run W (stopScheduledUpdates) st =
  (Return (bool_decide (is_Some (cronJob (self st)))), stopped st).
Proof.
  unfold stopScheduledUpdates, stopped. cbn.
  destruct (cronJob (self st)) as [task|]; reflexivity.
Qed.

Lemma scheduleUpdate_bad_format (s : string) (st : State) :
  truthy s && test_time_format s = false ->
  run W (scheduleUpdate W s) st =
  (Return false,
   with_self (set_lastError (Some "Invalid time format. Use HH:MM or H:MM")) (stopped st)).
Proof.
  intros Hf. unfold scheduleUpdate. rewrite run_bind, run_call, stopScheduledUpdates_effect.
  replace (negb (truthy s) || negb (test_time_format s)) with true
    by (destruct (truthy s), (test_time_format s); cbn in *; congruence).
  reflexivity.
Qed.

Lemma scheduleUpdate_accepted (s : string) (h m : N) (st : State) :
  accepted_as s h m = true ->
  run W (scheduleUpdate W s) st =
  if (23 <? h)%N || (59 <? m)%N then
    (Return false,
     with_self (set_lastError (Some "Invalid time. Hours: 0-23, Minutes: 0-59")) (stopped st))
  else
    match cron_validate W (cronExpression (VNum h) (VNum m)) with
    | Some e =>
        (Return false,
         with_self (set_lastError (Some ("Scheduling error: " +:+ message e))) (stopped st))
    | None => (Return true, rescheduled (cronExpression (VNum h) (VNum m)) s st)
    end.
Proof.
  intros Ha. apply accepted_parts in Ha as (Ht & Hf & Hp).
  unfold scheduleUpdate. rewrite run_bind, run_call, stopScheduledUpdates_effect.
  rewrite Ht, Hf. cbn [negb orb]. rewrite Hp. cbn [element nth].
  rewrite run_try_catch.
  replace (js_lt (VNum h) 0 || js_gt (VNum h) 23 || js_lt (VNum m) 0 || js_gt (VNum m) 59)
    with ((23 <? h)%N || (59 <? m)%N)
    by (cbn [js_lt js_gt]; rewrite !(proj2 (N.ltb_ge _ 0)) by lia;
        destruct (23 <? h)%N, (59 <? m)%N; reflexivity).
  destruct ((23 <? h)%N || (59 <? m)%N); [reflexivity|].
  rewrite run_bind. unfold cron_schedule.
  destruct (cron_validate W (cronExpression (VNum h) (VNum m))) as [e|]; reflexivity.
Qed.
End Schedule.

(** ** The cron expressions built for "every H hours" *)

Section CronTables.

Lemma hourly_expression_fields :
  forallb (fun h => forallb (fun m =>
      bool_decide (split " " (pretty m +:+ " */" +:+ pretty h +:+ " * * *")
                   = [pretty m; "*/" +:+ pretty h; "*"; "*"; "*"]))
    (below 60)) (below 24) = true.
Proof. vm_compute. reflexivity. Qed.

Lemma minute_field_table :
  forallb (fun m => forallb (fun mm =>
      Bool.eqb (field_matches (pretty m) mm) (mm =? m)%N) (below 60)) (below 60) = true.
Proof. vm_compute. reflexivity. Qed.

Lemma hour_step_table :
  forallb (fun h => forallb (fun hh =>
      Bool.eqb (field_matches ("*/" +:+ pretty (1 + h)%N) hh) (hh mod (1 + h) =? 0)%N)
    (below 24)) (below 23) = true.
Proof. vm_compute. reflexivity. Qed.

(** [m */h * * *] fires at minute [m] of the hours that are multiples
    of [h]. *)
Lemma hourly_expression_fires (h m hh mm : N) :
  (1 <= h <= 23)%N -> (m <= 59)%N -> (hh < 24)%N -> (mm < 60)%N ->
  cron_fires (pretty m +:+ " */" +:+ pretty h +:+ " * * *") hh mm
  = (mm =? m)%N && (hh mod h =? 0)%N.
Proof.
  intros Hh Hm Hhh Hmm. unfold cron_fires.
  pose proof hourly_expression_fields as T. rewrite forallb_forall in T.
  specialize (T h (in_below 24 h ltac:(lia))). rewrite forallb_forall in T.
  specialize (T m (in_below 60 m ltac:(lia))). apply bool_decide_eq_true_1 in T.
  rewrite T.
  pose proof minute_field_table as Tm. rewrite forallb_forall in Tm.
  specialize (Tm m (in_below 60 m ltac:(lia))). rewrite forallb_forall in Tm.
  specialize (Tm mm (in_below 60 mm ltac:(lia))). apply Bool.eqb_prop in Tm.
  pose proof hour_step_table as Th. rewrite forallb_forall in Th.
  specialize (Th (h - 1)%N (in_below 23 (h - 1) ltac:(lia))). rewrite forallb_forall in Th.
  specialize (Th hh (in_below 24 hh ltac:(lia))). apply Bool.eqb_prop in Th.
  replace (1 + (h - 1))%N with h in Th by lia.
  rewrite Tm, Th. reflexivity.
Qed.

End CronTables.

(** ** Claims about [scheduleUpdate] *)

(** C5 as stated fails: "0:5" is within 0-23 hours and 0-59 minutes,
    yet [scheduleUpdate] rejects it, because the minutes must be
    written with two digits. *)
Lemma scheduleUpdate_rejects_0_5 :
  run Scenario.W0 (scheduleUpdate Scenario.W0 "0:5") Scenario.installed
  = (Return false,
     with_self (set_lastError (Some "Invalid time format. Use HH:MM or H:MM"))
       Scenario.installed).
Proof. vm_compute. reflexivity. Qed.

(** C5, amended — [scheduleUpdate(s)] succeeds exactly when [s] is one
    or two digits, a colon and two digits, reading as hours 0-23 and
    minutes 0-59, and [cron.schedule] accepts the expression built from
    them.  "0:05" and "2:30" are such specifications; "24:00", "1:60"
    and "0:5" always fail. *)
Theorem scheduleUpdate_succeeds_iff (W : World) (s : string) (st : State) :
  (fst (run W (scheduleUpdate W s) st) = Return true <->
   exists h m, valid_interval s h m /\
               cron_validate W (cronExpression (VNum h) (VNum m)) = None) /\
  valid_interval "0:05" 0 5 /\
  valid_interval "2:30" 2 30 /\
  (forall t, In t ["24:00"; "1:60"; "0:5"] ->
             fst (run W (scheduleUpdate W t) st) = Return false).
Proof.
  split; [|split; [|split]].
  - split.
    + intros Hrun.
      destruct (truthy s && test_time_format s) eqn:Hf.
      2:{ rewrite scheduleUpdate_bad_format in Hrun by exact Hf. discriminate. }
      apply andb_prop in Hf as [_ Hf].
      destruct (test_time_format_reads s Hf) as (h & m & Hreads).
      rewrite (scheduleUpdate_accepted W s h m st (reads_as_accepted s h m Hreads)) in Hrun.
      destruct ((23 <? h)%N || (59 <? m)%N) eqn:Hrange; [discriminate|].
      apply orb_false_elim in Hrange as [H1 H2]. apply N.ltb_ge in H1, H2.
      exists h, m. split; [split; [exact Hreads | split; assumption]|].
      destruct (cron_validate W _); [discriminate | reflexivity].
    + intros (h & m & (Hreads & H1 & H2) & Hc).
      rewrite (scheduleUpdate_accepted W s h m st (reads_as_accepted s h m Hreads)).
      apply N.ltb_ge in H1, H2. rewrite H1, H2, Hc. reflexivity.
  - split; [split; [reflexivity | left; split; reflexivity] | split; discriminate].
  - split; [split; [reflexivity | left; split; reflexivity] | split; discriminate].
  - intros t [<- | [<- | [<- | []]]].
    + rewrite (scheduleUpdate_accepted W "24:00" 24 0 st eq_refl). reflexivity.
    + rewrite (scheduleUpdate_accepted W "1:60" 1 60 st eq_refl). reflexivity.
    + rewrite scheduleUpdate_bad_format by reflexivity. reflexivity.
Qed.

(** The amended C5 in the scenario: "2:30" is accepted. *)
Lemma scheduleUpdate_succeeds_iff_witness :
  fst (run Scenario.W0 (scheduleUpdate Scenario.W0 "2:30") Scenario.installed) = Return true.
Proof.
  apply (proj1 (scheduleUpdate_succeeds_iff Scenario.W0 "2:30" Scenario.installed)).
  exists 2%N, 30%N. split.
  - split; [split; [reflexivity | left; split; reflexivity] | split; discriminate].
  - reflexivity.
Defined.

(** C2 as stated fails: with the schedule "1:00" active, a call with
    the invalid "25:00" returns false and the schedule is gone: the
    object no longer refers to a task and the task has been stopped. *)
Lemma scheduleUpdate_invalid_drops_schedule :
  cronJob (self Scenario.scheduled) = Some 0 /\
  cronTasks (host Scenario.scheduled) = [("0 */1 * * *", true)] /\
  fst (run Scenario.W0 (scheduleUpdate Scenario.W0 "25:00") Scenario.scheduled) = Return false /\
  cronJob (self (snd (run Scenario.W0 (scheduleUpdate Scenario.W0 "25:00") Scenario.scheduled)))
    = None /\
  cronTasks (host (snd (run Scenario.W0 (scheduleUpdate Scenario.W0 "25:00") Scenario.scheduled)))
    = [("0 */1 * * *", false)].
Proof. repeat split; vm_compute; reflexivity. Qed.

(** C2, amended — for every invalid interval specification
    [scheduleUpdate] returns false and sets [lastError]; no new task is
    created, and the existing schedule has been stopped before the
    validation: the object refers to no task afterwards, and the task
    it referred to is no longer running. *)
Theorem scheduleUpdate_invalid_stops (W : World) (s : string) (st : State) :
  (forall h m, ~ valid_interval s h m) ->
  let result := run W (scheduleUpdate W s) st in
  fst result = Return false /\
  is_Some (lastError (self (snd result))) /\
  cronJob (self (snd result)) = None /\
  host (snd result) = host (stopped st) /\
  (forall task, cronJob (self st) = Some task ->
     updateInterval (self (snd result)) = None /\
     cronTasks (host (snd result))
       = alter (fun t => (fst t, false)) task (cronTasks (host st))) /\
  (cronJob (self st) = None -> cronTasks (host (snd result)) = cronTasks (host st)).
Proof.
  intros Hinv result.
  assert (Hshape : exists msg, result = (Return false, with_self (set_lastError (Some msg))
                                                         (stopped st))).
  { subst result. destruct (truthy s && test_time_format s) eqn:Hf.
    2:{ rewrite scheduleUpdate_bad_format by exact Hf. eauto. }
    apply andb_prop in Hf as [_ Hf].
    destruct (test_time_format_reads s Hf) as (h & m & Hreads).
    rewrite (scheduleUpdate_accepted W s h m st (reads_as_accepted s h m Hreads)).
    destruct ((23 <? h)%N || (59 <? m)%N) eqn:Hrange; [eauto|].
    apply orb_false_elim in Hrange as [H1 H2]. apply N.ltb_ge in H1, H2.
    destruct (Hinv h m). split; [exact Hreads | split; assumption]. }
  destruct Hshape as [msg ->]. cbn [fst snd].
  unfold stopped. destruct (cronJob (self st)) as [task|] eqn:Hjob; cbn.
  - split; [reflexivity|]. split; [eauto|]. split; [reflexivity|]. split; [reflexivity|].
    split; [|discriminate]. intros t [= <-]. split; reflexivity.
  - split; [reflexivity|]. split; [eauto|]. split; [exact Hjob|]. split; [reflexivity|].
    split; [discriminate | reflexivity].
Qed.

(** The amended C2 in the scenario. *)
Lemma scheduleUpdate_invalid_stops_witness :
  fst (run Scenario.W0 (scheduleUpdate Scenario.W0 "25:00") Scenario.scheduled) = Return false /\
  cronJob (self (snd (run Scenario.W0 (scheduleUpdate Scenario.W0 "25:00") Scenario.scheduled)))
    = None.
Proof.
  assert (Hinv : forall h m, ~ valid_interval "25:00" h m).
  { intros h m (Hreads & Hh & Hm).
    pose proof (accepted_parts _ _ _ (reads_as_accepted _ _ _ Hreads)) as (_ & _ & Hp).
    vm_compute in Hp. injection Hp as <- <-. apply Hh. reflexivity. }
  pose proof (scheduleUpdate_invalid_stops Scenario.W0 "25:00" Scenario.scheduled Hinv)
    as (H1 & _ & H2 & _).
  split; [exact H1 | exact H2].
Defined.

(** C4, what the code does — for a valid "H:MM" with H >= 1 that the
    cron library accepts, [scheduleUpdate] installs a running task with
    the expression [MM */H * * *]; that expression fires at minute MM
    of the hours that are multiples of H, so two firings within a day
    are H hours apart, not H hours and MM minutes. *)
Theorem scheduleUpdate_hourly_task (W : World) (s : string) (h m : N) (st : State) :
  valid_interval s h m -> (1 <= h)%N ->
  cron_validate W (cronExpression (VNum h) (VNum m)) = None ->
  let expression := pretty m +:+ " */" +:+ pretty h +:+ " * * *" in
  run W (scheduleUpdate W s) st = (Return true, rescheduled expression s st) /\
  (forall hh mm, (hh < 24)%N -> (mm < 60)%N ->
     cron_fires expression hh mm = (mm =? m)%N && (hh mod h =? 0)%N).
Proof.
  intros (Hreads & H1 & H2) Hh Hc expression. subst expression. split.
  - rewrite (scheduleUpdate_accepted W s h m st (reads_as_accepted s h m Hreads)).
    pose proof H1 as H1'. pose proof H2 as H2'.
    apply N.ltb_ge in H1', H2'. rewrite H1', H2', Hc. cbn [orb].
    unfold cronExpression. cbn [js_eq to_string].
    rewrite (proj2 (N.eqb_neq h 0)) by lia. reflexivity.
  - intros hh mm Hhh Hmm. apply hourly_expression_fires; lia.
Qed.

(** C4 at "2:30": the task fires at 00:30 and next at 02:30, two hours
    later; it does not fire at 03:00, two and a half hours later. *)
Lemma scheduleUpdate_hourly_task_witness :
  run Scenario.W0 (scheduleUpdate Scenario.W0 "2:30") Scenario.installed
    = (Return true, rescheduled "30 */2 * * *" "2:30" Scenario.installed) /\
  cron_fires "30 */2 * * *" 0 30 = true /\
  cron_fires "30 */2 * * *" 2 30 = true /\
  cron_fires "30 */2 * * *" 3 0 = false /\
  (forall hh mm, (hh < 24)%N -> (mm < 60)%N ->
     (30 < 60 * hh + mm < 150)%N -> cron_fires "30 */2 * * *" hh mm = false).
Proof.
  assert (Hv : valid_interval "2:30" 2 30)
    by (split; [split; [reflexivity | left; split; reflexivity] | split; discriminate]).
  pose proof (scheduleUpdate_hourly_task Scenario.W0 "2:30" 2 30 Scenario.installed
                Hv ltac:(discriminate) eq_refl) as [Hrun Hfires].
  cbv zeta in Hrun, Hfires.
  change (pretty 30%N +:+ " */" +:+ pretty 2%N +:+ " * * *") with "30 */2 * * *" in *.
  split; [exact Hrun|].
  split; [rewrite Hfires by reflexivity; reflexivity|].
  split; [rewrite Hfires by reflexivity; reflexivity|].
  split; [rewrite Hfires by reflexivity; reflexivity|].
  intros hh mm Hhh Hmm Hbetween. rewrite Hfires by assumption.
  destruct (mm =? 30)%N eqn:E; [|reflexivity]. apply N.eqb_eq in E. subst mm.
  assert (hh = 1%N) as -> by lia. reflexivity.
Defined.


(** * Further properties of the resolver *)

(** ** Scheduling *)

Section ScheduleMore.
Variable W : World.

Lemma scheduleUpdate_cases (s : string) (st : State) :
  (exists msg, run W (scheduleUpdate W s) st
               = (Return false, with_self (set_lastError (Some msg)) (stopped st))) \/
  (exists expression, run W (scheduleUpdate W s) st
                      = (Return true, rescheduled expression s st)).
Proof.
  destruct (truthy s && test_time_format s) eqn:Hf.
  2:{ left. rewrite scheduleUpdate_bad_format by exact Hf. eauto. }
  apply andb_prop in Hf as [_ Hf].
  destruct (test_time_format_reads s Hf) as (h & m & Hreads).
  rewrite (scheduleUpdate_accepted W s h m st (reads_as_accepted s h m Hreads)).
  destruct ((23 <? h)%N || (59 <? m)%N); [left; eauto|].
  destruct (cron_validate W _); [left | right]; eauto.
Qed.

Lemma stopped_no_timer (st : State) : one_timer st -> no_timer (stopped st).
Proof.
  intros Hone i e. unfold stopped. destruct (cronJob (self st)) as [task|] eqn:Hjob.
  - cbn. destruct (decide (task = i)) as [->|Hne].
    + rewrite list_lookup_alter_eq. destruct (cronTasks (host st) !! i) as [[e' b]|]; cbn;
        congruence.
    + rewrite list_lookup_alter_ne by exact Hne. intros Hi.
      specialize (Hone i e Hi). congruence.
  - intros Hi. specialize (Hone i e Hi). congruence.
Qed.

Lemma stopped_cronJob (st : State) : cronJob (self (stopped st)) = None.
Proof. unfold stopped. destruct (cronJob (self st)) eqn:Hjob; [reflexivity | exact Hjob]. Qed.

End ScheduleMore.

(** X1 — [stopScheduledUpdates] reports whether a task was set, leaves
    the object without task, and a second call finds nothing to stop:
    it returns false and changes nothing. *)
Theorem stopScheduledUpdates_idempotent (W : World) (st : State) :
  let first := run W stopScheduledUpdates st in
  fst first = Return (bool_decide (is_Some (cronJob (self st)))) /\
  cronJob (self (snd first)) = None /\
  run W stopScheduledUpdates (snd first) = (Return false, snd first).
Proof.
  intros first. subst first. rewrite stopScheduledUpdates_effect. cbn [fst snd].
  split; [reflexivity|]. split; [apply stopped_cronJob|].
  rewrite stopScheduledUpdates_effect.
  pose proof (stopped_cronJob st) as Hnone. revert Hnone.
  generalize (stopped st). intros s Hnone. unfold stopped. rewrite Hnone. reflexivity.
Qed.

(** X2 — [scheduleUpdate] never leaves two timers running.  If every
    running task is the one the object refers to, the same holds after
    the call, whatever the argument; after a success exactly the new
    task is running, after a failure none is. *)
Theorem scheduleUpdate_one_timer (W : World) (s : string) (st : State) :
  one_timer st ->
  let result := run W (scheduleUpdate W s) st in
  one_timer (snd result) /\
  (fst result = Return true ->
   exists expression,
     cronJob (self (snd result)) = Some (length (cronTasks (host st))) /\
     cronTasks (host (snd result)) !! length (cronTasks (host st)) = Some (expression, true)) /\
  (fst result = Return false -> no_timer (snd result)).
Proof.
  intros Hone result. subst result.
  pose proof (stopped_no_timer st Hone) as Hnone.
  assert (Hlen : length (cronTasks (host (stopped st))) = length (cronTasks (host st))).
  { unfold stopped. destruct (cronJob (self st)); cbn; [apply length_alter | reflexivity]. }
  destruct (scheduleUpdate_cases W s st) as [[msg ->] | [expression ->]]; cbn [fst snd].
  - split; [|split].
    + intros i e Hi. destruct (Hnone i e Hi).
    + discriminate.
    + intros _. exact Hnone.
  - split; [|split].
    + intros i e Hi. unfold rescheduled in *. cbn in *.
      destruct (decide (i < length (cronTasks (host (stopped st))))) as [Hlt|Hge].
      * rewrite lookup_app_l in Hi by exact Hlt. destruct (Hnone i e Hi).
      * apply lookup_lt_Some in Hi as Hb. rewrite length_app in Hb. cbn in Hb.
        f_equal. lia.
    + intros _. exists expression. unfold rescheduled. cbn. rewrite Hlen. split; [reflexivity|].
      rewrite <- Hlen. apply list_lookup_middle. reflexivity.
    + discriminate.
Qed.

(** X2 on the object as constructed: scheduling "1:00" and then "0:30"
    leaves one running task. *)
Lemma scheduleUpdate_one_timer_witness :
  one_timer (snd (run Scenario.W0 (scheduleUpdate Scenario.W0 "0:30") Scenario.scheduled)).
Proof.
  refine (proj1 (scheduleUpdate_one_timer Scenario.W0 "0:30" Scenario.scheduled _)).
  intros i e Hi. destruct i as [|i]; vm_compute in Hi; [reflexivity | discriminate].
Defined.

(** ** Health check *)

(** X3 — [checkScriptHealth] never throws.  Without a script file it
    returns false with [lastError] set and starts no process.
    Otherwise it runs the interpreter's version command and then the
    script with [--check]: if either fails it returns false with a
    verification error; if both succeed its verdict is whether the
    check printed [resolver_ready] on either stream, and the object is
    left as found after the process (a negative verdict sets no
    [lastError]). *)
Theorem checkScriptHealth_verdict (W : World) (st : State) :
  (exists b st', run W (checkScriptHealth W) st = (Return b, st')) /\
  (files (host st) !! scriptPath W = None ->
   run W (checkScriptHealth W) st =
   (Return false, with_self (set_lastError (Some "Python resolver script not found")) st)) /\
  (is_Some (files (host st) !! scriptPath W) ->
   forall r1 s1,
     respond W _ (Exec (pythonCmd W +:+ " --version"))
       (spawn (pythonCmd W +:+ " --version") st) = (r1, s1) ->
     match r1 with
     | inl e =>
         run W (checkScriptHealth W) st =
         (Return false,
          with_self (set_lastError (Some ("Verification error: " +:+ message e))) s1)
     | inr _ =>
         forall r2 s2,
           respond W _ (Exec (pythonCmd W +:+ " " +:+ scriptPath W +:+ " --check"))
             (spawn (pythonCmd W +:+ " " +:+ scriptPath W +:+ " --check") s1) = (r2, s2) ->
           match r2 with
           | inl e =>
               run W (checkScriptHealth W) st =
               (Return false,
                with_self (set_lastError (Some ("Verification error: " +:+ message e))) s2)
           | inr out =>
               run W (checkScriptHealth W) st =
               (Return (includes (fst out) "resolver_ready" || includes (snd out) "resolver_ready"),
                s2)
           end
     end).
Proof.
  split; [|split].
  - unfold checkScriptHealth. cbn [bind gets pure run Date_now existsSync].
    destruct (bool_decide _); cbn [negb].
    + rewrite run_try_catch. destruct (run W _ st) as [[[]|b|e] s1]; cbn; eauto.
    + cbn. eauto.
  - intros Hf. unfold checkScriptHealth. cbn. rewrite Hf. reflexivity.
  - intros Hf r1 s1 H1. unfold checkScriptHealth, spawn in *. cbn.
    rewrite bool_decide_eq_true_2 by exact Hf. cbn. rewrite H1.
    destruct r1 as [e|out1]; [reflexivity|].
    intros r2 s2 H2. cbn. rewrite H2. destruct r2 as [e|out]; reflexivity.
Qed.

(** X3 in the scenario with nothing installed. *)
Lemma checkScriptHealth_verdict_witness :
  run Scenario.W0 (checkScriptHealth Scenario.W0) Scenario.empty =
  (Return false,
   with_self (set_lastError (Some "Python resolver script not found")) Scenario.empty).
Proof.
  refine (proj1 (proj2 (checkScriptHealth_verdict Scenario.W0 Scenario.empty)) _).
  vm_compute. reflexivity.
Defined.

(** ** Cache and status *)

(** X4 — after [clearCache] no call of [resolveLink] is answered from
    the cache: whatever the url and the headers, the call goes on to
    the program-existence check.  [clearCache] returns true and
    changes nothing but the cache. *)
Theorem clearCache_forces_miss (W : World) (st : State) :
  run W clearCache st = (Return true, with_self (set_resolvedLinksCache ∅) st) /\
  forall url headers channelName proxyConfig,
    run W (resolveLink W url headers channelName proxyConfig)
      (with_self (set_resolvedLinksCache ∅) st) =
    run W (resolveLink_miss W (cacheKey url headers) url headers channelName proxyConfig)
      (with_self (set_resolvedLinksCache ∅) st).
Proof.
  split; [reflexivity|]. intros url headers channelName proxyConfig.
  apply resolveLink_on_miss. intros entry He. cbn in He. rewrite lookup_empty in He.
  discriminate.
Qed.

(** X5 — [getStatus] is a pure read: it never throws and leaves the
    state as it is, also when the script file cannot be read.  It
    reports the fields of the object, the number of cache entries and
    whether a task is set; the version is "N/A" without script file and
    "Error" when reading it fails. *)
Theorem getStatus_read_only (W : World) (st : State) :
  exists status,
    run W (getStatus W) st = (Return status, st) /\
    st_isRunning status = isRunning (self st) /\
    st_lastError status = lastError (self st) /\
    st_scriptUrl status = scriptUrl (self st) /\
    st_updateInterval status = updateInterval (self st) /\
    st_scheduledUpdates status = bool_decide (is_Some (cronJob (self st))) /\
    st_cacheItems status = size (resolvedLinksCache (self st)) /\
    st_scriptExists status = bool_decide (is_Some (files (host st) !! scriptPath W)) /\
    (files (host st) !! scriptPath W = None -> st_resolverVersion status = "N/A") /\
    (is_Some (files (host st) !! scriptPath W) ->
     is_Some (fs_fault W OpRead (scriptPath W) st) -> st_resolverVersion status = "Error").
Proof.
  unfold getStatus, getResolverVersion. cbn.
  destruct (files (host st) !! scriptPath W) as [content|] eqn:Hf; cbn.
  - destruct (fs_fault W OpRead (scriptPath W) st) as [e|] eqn:Hr; cbn.
    + eexists. split; [reflexivity|]. cbn. repeat split; auto. discriminate.
    + rewrite ?Hf. cbn.
      destruct (match_version W content) as [v|]; [destruct (truthy v)|]; cbn;
        (eexists; split; [reflexivity|]; cbn;
         repeat split; auto; try discriminate; intros _ [? [=]]).
  - eexists. split; [reflexivity|]. cbn. repeat split; auto.
    intros [? [=]].
Qed.

(** X5 on the object as constructed, nothing installed. *)
Lemma getStatus_read_only_witness :
  exists status,
    run Scenario.W0 (getStatus Scenario.W0) Scenario.empty = (Return status, Scenario.empty) /\
    st_resolverVersion status = "N/A" /\ st_cacheItems status = 0 /\
    st_scheduledUpdates status = false.
Proof.
  destruct (getStatus_read_only Scenario.W0 Scenario.empty)
    as (status & Hrun & _ & _ & _ & _ & Hs & Hc & _ & Hv & _).
  exists status. split; [exact Hrun|]. split; [|split].
  - apply Hv. vm_compute. reflexivity.
  - rewrite Hc. vm_compute. reflexivity.
  - rewrite Hs. vm_compute. reflexivity.
Defined.

(** ** Installing the program *)

(** X6 — a successful [downloadScript] (a body with one of the two
    entry points, written without fault) returns true and installs the
    body, but does not clear [lastError]: the object keeps whatever
    error was recorded before. *)
Theorem downloadScript_success_keeps_lastError (W : World) (url body : string)
    (st s1 : State) :
  respond W _ (HttpGet url) (with_self (set_scriptUrl (Some url)) st) = (inr body, s1) ->
  includes body "def resolve_link" || includes body "def resolve_stream" = true ->
  fs_fault W OpWrite (scriptPath W) s1 = None ->
  let result := run W (downloadScript W url) st in
  fst result = Return true /\
  files (host (snd result)) !! scriptPath W = Some body /\
  self (snd result) = self s1 /\
  (undisturbed W -> lastError (self (snd result)) = lastError (self st)).
Proof.
  intros Hr Hm Hw result. subst result.
  rewrite (downloadScript_written W _ _ _ _ Hr Hw).
  replace (negb (includes body "def resolve_link") && negb (includes body "def resolve_stream"))
    with false
    by (destruct (includes body "def resolve_link"), (includes body "def resolve_stream");
        cbn in *; congruence).
  cbn. split; [reflexivity|]. split; [apply lookup_insert_eq|]. split; [reflexivity|].
  intros Hquiet.
  pose proof (Hquiet _ (HttpGet url) (with_self (set_scriptUrl (Some url)) st)) as Hs.
  rewrite Hr in Hs. cbn in Hs. rewrite Hs. reflexivity.
Qed.

(** X6 in the scenario: a failed resolution has left an error, the
    download that follows succeeds and the error is still there. *)
Lemma downloadScript_success_keeps_lastError_witness :
  let st := snd (run Scenario.W_no_output
                   (resolveLink Scenario.W_no_output Scenario.url_a (JObj []) "Channel1" JNull)
                   Scenario.installed) in
  let result := run Scenario.W0 (downloadScript Scenario.W0 "https://example.com/resolver.py")
                  st in
  fst result = Return true /\
  lastError (self (snd result)) = Some "Output file not created".
Proof.
  intros st result.
  pose proof (downloadScript_success_keeps_lastError Scenario.W0
                "https://example.com/resolver.py" Scenario.good_script st _
                eq_refl eq_refl eq_refl) as (Hf & _ & _ & He).
  split; [exact Hf|].
  subst result. rewrite He; [vm_compute; reflexivity|].
  intros X req s. destruct req; reflexivity.
Defined.

(** X7 — what a download that fails before validation does to the
    installed program.  When the request is rejected, [downloadScript]
    returns false with a download error and writes nothing: the files
    are those found when the request came back.  When writing the file
    throws, it returns false with a download error and no other file
    changes; the program file is as before only if it could not be
    opened, otherwise it has been truncated and holds the bytes written
    before the failure, so the installed program is lost. *)
Theorem downloadScript_failure_program_file (W : World) (url : string) (st s1 : State)
    (response : Exn + string) :
  respond W _ (HttpGet url) (with_self (set_scriptUrl (Some url)) st) = (response, s1) ->
  match response with
  | inl e => True
  | inr body => is_Some (fs_fault W OpWrite (scriptPath W) s1)
  end ->
  let result := run W (downloadScript W url) st in
  fst result = Return false /\
  (exists e, lastError (self (snd result)) = Some ("Download error: " +:+ message e) /\
             match response with
             | inl e' => e = e'
             | inr _ => fs_fault W OpWrite (scriptPath W) s1 = Some e
             end) /\
  match response with
  | inl _ => host (snd result) = host s1
  | inr body =>
      (forall p, p <> scriptPath W ->
                 files (host (snd result)) !! p = files (host s1) !! p) /\
      match written_before_fault W (scriptPath W) body s1 with
      | None => host (snd result) = host s1
      | Some n => files (host (snd result)) !! scriptPath W = Some (substring 0 n body)
      end
  end.
Proof.
  intros Hr Hcase result. subst result. destruct response as [e|body].
  - rewrite (downloadScript_fetch_fails W _ _ _ _ Hr). cbn. eauto.
  - destruct Hcase as [e Hw]. rewrite (downloadScript_write_fails W _ _ _ _ _ Hr Hw).
    cbn [fst snd]. split; [reflexivity|]. split; [cbn; eauto|]. split.
    + intros p Hp. cbn. apply torn_write_files, Hp.
    + cbn. unfold torn_write.
      destruct (written_before_fault W (scriptPath W) body s1) as [n|]; [|reflexivity].
      destruct s1 as [o h]. cbn. apply lookup_insert_eq.
Qed.

(** X7 in the scenario where the disk is full: the download fails and
    the program that was installed is gone. *)
Lemma downloadScript_failure_program_file_witness :
  files (host (snd (run Scenario.W_disk_full
                      (downloadScript Scenario.W_disk_full "https://example.com/resolver.py")
                      Scenario.installed)))
    !! "/app/resolver_script.py"
  = Some EmptyString.
Proof.
  pose proof (downloadScript_failure_program_file Scenario.W_disk_full
                "https://example.com/resolver.py" Scenario.installed _ (inr Scenario.good_script)
                eq_refl (mk_is_Some _ _ eq_refl))
    as (_ & _ & _ & Hfile).
  exact Hfile.
Defined.

(** ** More about [resolveLink] *)

Section ResolveMore.
Variable W : World.
Variables (url : string) (headers : JSON) (channelName : string) (proxyConfig : JSON).

Abbreviation key := (cacheKey url headers).
Abbreviation the_try := (resolveLink_guarded W key url headers channelName proxyConfig).

Lemma temp_files_differ (t : Z) : temp_file W "input_" t <> temp_file W "output_" t.
Proof.
  Local Transparent temp_file.
  unfold temp_file, path_join. cbn [join]. intros H.
  apply append_inv_head in H. apply append_inv_head in H.
  apply append_inv_head in H. apply append_inv_head in H.
  apply (f_equal (fun s => match s with String c _ => c | EmptyString => "000"%char end)) in H.
  discriminate H.
  Local Opaque temp_file.
Qed.

(** The successful run in full: the state is [recorded], then the two
    temporary files are removed as far as that goes, then the flag is
    released. *)
Lemma guarded_success_state s out s1 text result :
  fs_fault W OpWrite (inputFile W s) (with_self (set_isRunning true) s) = None ->
  exec_outcome W url headers channelName proxyConfig s = (inr out, s1) ->
  files (host s1) !! outputFile W s = Some text ->
  fs_fault W OpRead (outputFile W s) s1 = None ->
  JSON_parse W text = inr result ->
  let s_ok := recorded key result s1 in
  run W the_try s =
  (Return result,
   with_self (set_isRunning false)
     match fs_fault W OpUnlink (inputFile W s) s_ok, files (host s1) !! inputFile W s with
     | None, Some _ =>
         match fs_fault W OpUnlink (outputFile W s) (without_file (inputFile W s) s_ok) with
         | None => without_file (outputFile W s) (without_file (inputFile W s) s_ok)
         | Some _ => without_file (inputFile W s) s_ok
         end
     | _, _ => s_ok
     end).
Proof.
  intros Hw Hx Ho Hr Hp s_ok. subst s_ok.
  pose proof (temp_files_differ (now (host s))) as Hne.
  unfold resolveLink_guarded, exec_outcome, exec_state, recorded, without_file,
    inputFile, outputFile in *.
  cbn. rewrite Hw. cbn. rewrite Hx. cbn. rewrite Ho. cbn. rewrite Hr, Ho. cbn.
  unfold parse. rewrite Hp. cbn.
  destruct (fs_fault W OpUnlink (temp_file W "input_" (now (host s))) _) as [e|]; cbn;
    [reflexivity|].
  destruct (files (host s1) !! temp_file W "input_" (now (host s))) as [c|]; cbn;
    [|reflexivity].
  destruct (fs_fault W OpUnlink (temp_file W "output_" (now (host s))) _) as [e|]; cbn;
    [reflexivity|].
  rewrite lookup_delete_ne by exact Hne. rewrite Ho. reflexivity.
Qed.
End ResolveMore.

Section ResolveRoundTrip.
Variable W : World.
Variables (url : string) (headers : JSON) (channelName : string) (proxyConfig : JSON).

Lemma succeeds_run st s1 result :
  succeeds W url headers channelName proxyConfig st s1 result ->
  let s := after_throttle W st in
  let s_ok := recorded (cacheKey url headers) result s1 in
  run W (resolveLink W url headers channelName proxyConfig) st =
  (Return result,
   with_self (set_isRunning false)
     match fs_fault W OpUnlink (inputFile W s) s_ok, files (host s1) !! inputFile W s with
     | None, Some _ =>
         match fs_fault W OpUnlink (outputFile W s) (without_file (inputFile W s) s_ok) with
         | None => without_file (outputFile W s) (without_file (inputFile W s) s_ok)
         | Some _ => without_file (inputFile W s) s_ok
         end
     | _, _ => s_ok
     end).
Proof.
  intros (Hm & Hf & Hw & out & text & Hx & Ho & Hr & Hp) s s_ok.
  rewrite resolveLink_on_miss by exact Hm. rewrite resolveLink_miss_present by exact Hf.
  apply (guarded_success_state W url headers channelName proxyConfig _ out s1 text result);
    assumption.
Qed.
End ResolveRoundTrip.

(** X8 — what a successful call stores is what the next call gets: right
    after a call that has run the program and returned [result], a call
    with the same url and headers (whatever its channel name and proxy
    configuration) returns [result] before reaching any [await], and
    leaves the state untouched. *)
Theorem resolveLink_result_reused (W : World) (url : string) (headers : JSON)
    (channelName : string) (proxyConfig : JSON) (st s1 : State) (result : JSON) :
  succeeds W url headers channelName proxyConfig st s1 result ->
  exists st',
    run W (resolveLink W url headers channelName proxyConfig) st = (Return result, st') /\
    forall channelName' proxyConfig',
      advance (resolveLink W url headers channelName' proxyConfig') st'
      = (Finished (Return result), st').
Proof.
  intros Hs. rewrite (succeeds_run W url headers channelName proxyConfig st s1 result Hs).
  eexists. split; [reflexivity|]. intros channelName' proxyConfig'.
  apply (resolveLink_hit W url headers channelName' proxyConfig' _
           {| timestamp := now (host s1); data := result |}).
  unfold recorded, without_file. split.
  - repeat (case_match; cbn); apply lookup_insert_eq.
  - repeat (case_match; cbn); rewrite Z.sub_diag; reflexivity.
Qed.

Lemma scenario_succeeds :
  succeeds Scenario.W0 Scenario.url_a (JObj []) "Channel1" JNull Scenario.installed
    (snd (exec_outcome Scenario.W0 Scenario.url_a (JObj []) "Channel1" JNull Scenario.installed))
    Scenario.resolved.
Proof.
  split; [|split; [|split]].
  - intros entry He. vm_compute in He. discriminate.
  - exists Scenario.good_script. vm_compute. reflexivity.
  - vm_compute. reflexivity.
  - exists (EmptyString, EmptyString), (JSON_stringify Scenario.resolved).
    split; [|split; [|split]]; vm_compute; reflexivity.
Defined.

(** X8 in the scenario, with another channel name and a proxy
    configuration in the second call. *)
Lemma resolveLink_result_reused_witness :
  exists st',
    run Scenario.W0 (resolveLink Scenario.W0 Scenario.url_a (JObj []) "Channel1" JNull)
      Scenario.installed = (Return Scenario.resolved, st') /\
    advance (resolveLink Scenario.W0 Scenario.url_a (JObj []) "Other"
               (JObj [("proxy", JStr "http://127.0.0.1:8080")])) st'
    = (Finished (Return Scenario.resolved), st').
Proof.
  destruct (resolveLink_result_reused Scenario.W0 Scenario.url_a (JObj []) "Channel1" JNull
              Scenario.installed _ Scenario.resolved scenario_succeeds) as (st' & Hrun & Hnext).
  exists st'. split; [exact Hrun | apply Hnext].
Defined.

(** X9 — the temporary files of a successful call.  When both can be
    removed, neither is left and no other file is touched.  When the
    input file cannot be removed (a fault, or the file is gone), the
    result is returned all the same and the output file is not removed
    either: it stays on disk. *)
Theorem resolveLink_cleanup (W : World) (url : string) (headers : JSON)
    (channelName : string) (proxyConfig : JSON) (st s1 : State) (result : JSON) :
  succeeds W url headers channelName proxyConfig st s1 result ->
  let s := after_throttle W st in
  let s_ok := recorded (cacheKey url headers) result s1 in
  let outcome := run W (resolveLink W url headers channelName proxyConfig) st in
  fst outcome = Return result /\
  (fs_fault W OpUnlink (inputFile W s) s_ok = None ->
   is_Some (files (host s1) !! inputFile W s) ->
   fs_fault W OpUnlink (outputFile W s) (without_file (inputFile W s) s_ok) = None ->
   files (host (snd outcome)) = delete (outputFile W s) (delete (inputFile W s) (files (host s1)))) /\
  (is_Some (fs_fault W OpUnlink (inputFile W s) s_ok) \/ files (host s1) !! inputFile W s = None ->
   files (host (snd outcome)) = files (host s1) /\
   is_Some (files (host (snd outcome)) !! outputFile W s)).
Proof.
  intros Hs s s_ok outcome. subst outcome.
  rewrite (succeeds_run W url headers channelName proxyConfig st s1 result Hs).
  fold s s_ok. cbn [fst snd]. split; [reflexivity|]. split.
  - intros H1 [c Hc] H2. rewrite H1, Hc, H2. reflexivity.
  - destruct Hs as (_ & _ & _ & out & text & _ & Ho & _). fold s in Ho.
    intros [[e He] | Hnone].
    + rewrite He. cbn. split; [reflexivity | rewrite Ho; eauto].
    + rewrite Hnone. destruct (fs_fault W OpUnlink (inputFile W s) s_ok); cbn;
        (split; [reflexivity | rewrite Ho; eauto]).
Qed.

(** X9 in the scenario: both temporary files are gone afterwards. *)
Lemma resolveLink_cleanup_witness :
  files (host Scenario.after_a) = files (host Scenario.installed).
Proof.
  pose proof (resolveLink_cleanup Scenario.W0 Scenario.url_a (JObj []) "Channel1" JNull
                Scenario.installed _ Scenario.resolved scenario_succeeds) as (_ & H & _).
  cbv zeta in H. unfold Scenario.after_a. rewrite H.
  - vm_compute. reflexivity.
  - vm_compute. reflexivity.
  - eexists. vm_compute. reflexivity.
  - vm_compute. reflexivity.
Defined.

(** X10 — the wait on a busy flag is a single delay, not a lock.  A
    call that finds [isRunning] set suspends once for 500 ms; when it
    resumes it starts its own child process in whatever state it finds,
    without looking at the flag again. *)
Theorem resolveLink_waits_once (W : World) (url : string) (headers : JSON)
    (channelName : string) (proxyConfig : JSON) (st : State) :
  cache_miss (cacheKey url headers) st ->
  is_Some (files (host st) !! scriptPath W) ->
  isRunning (self st) = true ->
  exists k,
    advance (resolveLink W url headers channelName proxyConfig) st
    = (Suspended (Sleep 500) k, st) /\
    forall s',
      fs_fault W OpWrite (inputFile W s') (with_self (set_isRunning true) s') = None ->
      exists k',
        advance (k tt) s'
        = (Suspended (Exec (resolve_command W (inputFile W s') (outputFile W s'))) k',
           exec_state W url headers channelName proxyConfig s').
Proof.
  intros Hm Hf Hrun. unfold resolveLink, resolveLink_miss.
  cbn -[Z.ltb Z.sub].
  assert (Hlook : match resolvedLinksCache (self st) !! cacheKey url headers with
                  | Some entry => (now (host st) - timestamp entry <? cacheExpiryTime)%Z = false
                  | None => True
                  end).
  { destruct (resolvedLinksCache (self st) !! cacheKey url headers) as [entry|] eqn:Hk;
      [|exact I]. apply Z.ltb_ge, Hm, Hk. }
  destruct (resolvedLinksCache (self st) !! cacheKey url headers) as [entry|];
    cbn -[Z.ltb Z.sub]; rewrite ?Hlook; cbn -[Z.ltb Z.sub];
    rewrite (bool_decide_eq_true_2 _ Hf); cbn -[Z.ltb Z.sub]; rewrite Hrun;
    cbn -[Z.ltb Z.sub]; (eexists; split; [reflexivity|]);
    intros s' Hw; unfold resolveLink_guarded, exec_state, inputFile, outputFile in *;
    cbn; rewrite Hw; cbn; eexists; reflexivity.
Qed.

(** X10 in the scenario: the call for [url_a] with other headers
    arrives while the call for [url_b] is in flight. *)
Lemma resolveLink_waits_once_witness :
  exists k,
    advance (resolveLink Scenario.W0 Scenario.url_a (headers_object Scenario.headers_1)
               "Channel1" JNull) Scenario.b_in_flight
    = (Suspended (Sleep 500) k, Scenario.b_in_flight).
Proof.
  destruct (resolveLink_waits_once Scenario.W0 Scenario.url_a
              (headers_object Scenario.headers_1) "Channel1" JNull Scenario.b_in_flight)
    as (k & Hk & _).
  - intros entry He. vm_compute in He. discriminate.
  - exists Scenario.good_script. vm_compute. reflexivity.
  - vm_compute. reflexivity.
  - exists k. exact Hk.
Defined.

(** ** The cache is only ever extended by [resolveLink] *)

Section CacheKept.
Variable W : World.
Hypothesis quiet : undisturbed W.
Variables (url : string) (headers : JSON) (channelName : string) (proxyConfig : JSON).

Abbreviation key := (cacheKey url headers).

Lemma cache_kept_refl (c : gmap string CacheEntry) : cache_kept key c c.
Proof. split; auto. Qed.

Lemma cache_kept_insert (c : gmap string CacheEntry) (entry : CacheEntry) :
  cache_kept key c (<[key := entry]> c).
Proof.
  split.
  - intros k Hk. apply lookup_insert_ne. congruence.
  - intros _. rewrite lookup_insert_eq. eauto.
Qed.

Lemma after_throttle_self st : self (after_throttle W st) = self st.
Proof.
  unfold after_throttle. destruct (isRunning (self st)); [|reflexivity]. apply quiet.
Qed.

Lemma exec_outcome_cache s :
  resolvedLinksCache (self (snd (exec_outcome W url headers channelName proxyConfig s)))
  = resolvedLinksCache (self s).
Proof. unfold exec_outcome. rewrite quiet. reflexivity. Qed.

Lemma guarded_cache_kept s :
  cache_kept key (resolvedLinksCache (self s))
    (resolvedLinksCache
       (self (snd (run W (resolveLink_guarded W key url headers channelName proxyConfig) s)))).
Proof.
  pose proof (exec_outcome_cache s) as Hc.
  destruct (fs_fault W OpWrite (inputFile W s) (with_self (set_isRunning true) s)) as [e|] eqn:Hw.
  { rewrite (guarded_write_fails W url headers channelName proxyConfig s e Hw).
    cbn. rewrite torn_write_self. apply cache_kept_refl. }
  destruct (exec_outcome W url headers channelName proxyConfig s) as [[e|out] s1] eqn:Hx;
    cbn [snd] in Hc.
  { rewrite (guarded_exec_fails W url headers channelName proxyConfig s e s1 Hw Hx).
    cbn. rewrite Hc. apply cache_kept_refl. }
  destruct (files (host s1) !! outputFile W s) as [text|] eqn:Ho.
  2:{ rewrite (guarded_output_missing W url headers channelName proxyConfig s out s1 Hw Hx Ho).
      cbn. rewrite Hc. apply cache_kept_refl. }
  destruct (fs_fault W OpRead (outputFile W s) s1) as [e|] eqn:Hr.
  { rewrite (guarded_read_fails W url headers channelName proxyConfig s out s1 text e
               Hw Hx Ho Hr).
    cbn. rewrite Hc. apply cache_kept_refl. }
  destruct (JSON_parse W text) as [e|result] eqn:Hp.
  { rewrite (guarded_parse_fails W url headers channelName proxyConfig s out s1 text e
               Hw Hx Ho Hr Hp).
    cbn. rewrite Hc. apply cache_kept_refl. }
  destruct (guarded_success W url headers channelName proxyConfig s out s1 text result
              Hw Hx Ho Hr Hp) as (s' & -> & Hcache & _).
  cbn [snd]. rewrite Hcache, Hc. apply cache_kept_insert.
Qed.

Lemma resolveLink_cache_kept st :
  cache_kept key (resolvedLinksCache (self st))
    (resolvedLinksCache
       (self (snd (run W (resolveLink W url headers channelName proxyConfig) st)))).
Proof.
  destruct (hit_or_miss url headers st) as [[entry Hhit]|Hmiss].
  { rewrite (advance_finished_run W _ _ _ _
               (resolveLink_hit W url headers channelName proxyConfig st entry Hhit)).
    apply cache_kept_refl. }
  rewrite resolveLink_on_miss by exact Hmiss.
  destruct (files (host st) !! scriptPath W) as [script|] eqn:Hs.
  2:{ rewrite resolveLink_miss_absent by exact Hs. apply cache_kept_refl. }
  rewrite resolveLink_miss_present by (rewrite Hs; eauto).
  rewrite <- (after_throttle_self st). apply guarded_cache_kept.
Qed.
End CacheKept.

(** X11 — [resolveLink] never evicts: with no other task touching the
    object meanwhile, a call leaves every cache entry under another key
    exactly as it was, and an entry under its own key is replaced at
    most, never removed, however old it is and however the call ends. *)
Theorem resolveLink_never_evicts (W : World) (url : string) (headers : JSON)
    (channelName : string) (proxyConfig : JSON) (st : State) :
  undisturbed W ->
  let st' := snd (run W (resolveLink W url headers channelName proxyConfig) st) in
  (forall k, k <> cacheKey url headers ->
             resolvedLinksCache (self st') !! k = resolvedLinksCache (self st) !! k) /\
  (is_Some (resolvedLinksCache (self st) !! cacheKey url headers) ->
   is_Some (resolvedLinksCache (self st') !! cacheKey url headers)).
Proof.
  intros Hquiet st'. subst st'.
  exact (resolveLink_cache_kept W Hquiet url headers channelName proxyConfig st).
Qed.

Lemma scenario_undisturbed (http : Exn + string) (child : Exn + option string) (ok : bool) :
  undisturbed (Scenario.world http child ok).
Proof. intros X req s. destruct req; [reflexivity | | reflexivity]. cbn. destruct child as [e|[t|]]; reflexivity. Defined.

(** X11 in the scenario: twenty minutes after the first call the entry
    is stale, the refresh fails, the entry is still there. *)
Lemma resolveLink_never_evicts_witness :
  is_Some (resolvedLinksCache
             (self (snd (run Scenario.W_exec_fails
                           (resolveLink Scenario.W_exec_fails Scenario.url_a (JObj [])
                              "Channel1" JNull)
                           (Scenario.later 1200000 Scenario.after_a))))
           !! cacheKey Scenario.url_a (JObj [])).
Proof.
  refine (proj2 (resolveLink_never_evicts Scenario.W_exec_fails Scenario.url_a (JObj [])
                   "Channel1" JNull (Scenario.later 1200000 Scenario.after_a)
                   (scenario_undisturbed _ _ _)) _).
  eexists. vm_compute. reflexivity.
Defined.

(** ** The cron expressions built for "every MM minutes" *)

Section MinuteTables.

Lemma minute_expression_fields :
  forallb (fun m =>
      bool_decide (split " " ("*/" +:+ pretty m +:+ " * * * *")
                   = ["*/" +:+ pretty m; "*"; "*"; "*"; "*"]))
    (below 60) = true.
Proof. vm_compute. reflexivity. Qed.

Lemma minute_step_table :
  forallb (fun m => forallb (fun mm =>
      Bool.eqb (field_matches ("*/" +:+ pretty (1 + m)%N) mm) (mm mod (1 + m) =? 0)%N)
    (below 60)) (below 59) = true.
Proof. vm_compute. reflexivity. Qed.

Lemma minute_expression_fires (m hh mm : N) :
  (1 <= m <= 59)%N -> (mm < 60)%N ->
  cron_fires ("*/" +:+ pretty m +:+ " * * * *") hh mm = (mm mod m =? 0)%N.
Proof.
  intros Hm Hmm. unfold cron_fires.
  pose proof minute_expression_fields as T. rewrite forallb_forall in T.
  specialize (T m (in_below 60 m ltac:(lia))). apply bool_decide_eq_true_1 in T.
  rewrite T.
  pose proof minute_step_table as Tm. rewrite forallb_forall in Tm.
  specialize (Tm (m - 1)%N (in_below 59 (m - 1) ltac:(lia))). rewrite forallb_forall in Tm.
  specialize (Tm mm (in_below 60 mm ltac:(lia))). apply Bool.eqb_prop in Tm.
  replace (1 + (m - 1))%N with m in Tm by lia.
  rewrite Tm. cbn [field_matches]. apply andb_true_r.
Qed.

End MinuteTables.

(** X12 — for "0:MM" (or "00:MM") that the cron library accepts,
    [scheduleUpdate] installs a running task with the expression
    [*/MM * * * *], also for MM = 00, which the checks let through.
    For MM >= 1 that expression fires at the minutes of every hour that
    are multiples of MM: the count starts again with each hour. *)
Theorem scheduleUpdate_minutes_task (W : World) (s : string) (m : N) (st : State) :
  valid_interval s 0 m ->
  cron_validate W (cronExpression (VNum 0) (VNum m)) = None ->
  let expression := "*/" +:+ pretty m +:+ " * * * *" in
  run W (scheduleUpdate W s) st = (Return true, rescheduled expression s st) /\
  ((1 <= m)%N -> forall hh mm, (mm < 60)%N ->
     cron_fires expression hh mm = (mm mod m =? 0)%N).
Proof.
  intros (Hreads & H1 & H2) Hc expression. subst expression. split.
  - rewrite (scheduleUpdate_accepted W s 0 m st (reads_as_accepted s 0 m Hreads)).
    pose proof H2 as H2'. apply N.ltb_ge in H2'. rewrite H2', Hc. reflexivity.
  - intros Hm hh mm Hmm. apply minute_expression_fires; lia.
Qed.

(** X12 at "0:45": the task fires at minute 0 and at minute 45 of every
    hour, so 45 and then 15 minutes apart. *)
Lemma scheduleUpdate_minutes_task_witness :
  run Scenario.W0 (scheduleUpdate Scenario.W0 "0:45") Scenario.installed
    = (Return true, rescheduled "*/45 * * * *" "0:45" Scenario.installed) /\
  cron_fires "*/45 * * * *" 7 0 = true /\
  cron_fires "*/45 * * * *" 7 45 = true /\
  cron_fires "*/45 * * * *" 8 0 = true /\
  cron_fires "*/45 * * * *" 8 30 = false.
Proof.
  assert (Hv : valid_interval "0:45" 0 45)
    by (split; [split; [reflexivity | left; split; reflexivity] | split; discriminate]).
  pose proof (scheduleUpdate_minutes_task Scenario.W0 "0:45" 45 Scenario.installed
                Hv eq_refl) as [Hrun Hfires].
  cbv zeta in Hrun, Hfires. specialize (Hfires ltac:(discriminate)).
  change ("*/" +:+ pretty 45%N +:+ " * * * *") with "*/45 * * * *" in *.
  split; [exact Hrun|].
  repeat split; rewrite Hfires by reflexivity; reflexivity.
Defined.

(** * [logo-utils.js] *)

Section LogoUrl.

Local Arguments String.append : simpl nomatch.

Lemma decode_encode_byte (c : ascii) (rest : string) :
  decode_head (encode_byte c +:+ rest) = Some (c, rest).
Proof. destruct c as [[] [] [] [] [] [] [] []]; reflexivity. Qed.

Lemma encode_byte_chars (c : ascii) :
  all_chars (fun x => is_unreserved x || Ascii.eqb x "%") (encode_byte c) = true.
Proof. destruct c as [[] [] [] [] [] [] [] []]; reflexivity. Qed.

Lemma all_chars_app (p : ascii -> bool) (a b : string) :
  all_chars p (a +:+ b) = all_chars p a && all_chars p b.
Proof.
  induction a as [|c a IH]; cbn [String.append all_chars]; [reflexivity|].
  rewrite IH. apply andb_assoc.
Qed.

(** A text that starts with [&] is not the encoding of anything
    followed by more text: [&] is always escaped. *)
Lemma encode_inj (s1 s2 r1 r2 : string) :
  encodeURIComponent s1 +:+ String "&" r1 = encodeURIComponent s2 +:+ String "&" r2 ->
  s1 = s2 /\ r1 = r2.
Proof.
  revert s2. induction s1 as [|c1 s1 IH]; intros [|c2 s2] H; cbn [encodeURIComponent] in H.
  - cbn in H. injection H as ->. auto.
  - rewrite append_assoc in H. apply (f_equal decode_head) in H.
    rewrite decode_encode_byte in H. discriminate.
  - rewrite append_assoc in H. apply (f_equal decode_head) in H.
    rewrite decode_encode_byte in H. discriminate.
  - rewrite !append_assoc in H. apply (f_equal decode_head) in H.
    rewrite !decode_encode_byte in H. injection H as -> H.
    destruct (IH _ H) as [-> ->]. auto.
Qed.

Lemma wrapped_is_proxy_url (x : string) :
  let w := LOGO_PROXY_BASE +:+ "?url=" +:+ x in
  truthy w = true /\ test_http_scheme w = true /\ includes w "images.weserv.nl" = true.
Proof. cbn. repeat split; reflexivity. Qed.

End LogoUrl.

(** X13 — [wrapLogoUrl] is idempotent: a URL that has been wrapped is
    recognised as pointing to the proxy and returned unchanged, and a
    value that was left alone is left alone again. *)
Theorem wrapLogoUrl_idempotent (A : Type) (url : A + string) :
  wrapLogoUrl (wrapLogoUrl url) = wrapLogoUrl url.
Proof.
  destruct url as [other|s]; [reflexivity|].
  assert (Hsame : forall t : string, wrapLogoUrl (A:=A) (inr t) = inr t ->
                    wrapLogoUrl (wrapLogoUrl (A:=A) (inr t)) = wrapLogoUrl (inr t))
    by (intros t Heq; rewrite !Heq; reflexivity).
  destruct (negb (truthy s)) eqn:Ht;
    [apply Hsame; unfold wrapLogoUrl; rewrite Ht; reflexivity|].
  destruct (negb (test_http_scheme s)) eqn:Hs;
    [apply Hsame; unfold wrapLogoUrl; rewrite Ht, Hs; reflexivity|].
  destruct (includes s "images.weserv.nl") eqn:Hi;
    [apply Hsame; unfold wrapLogoUrl; rewrite Ht, Hs, Hi; reflexivity|].
  destruct (wrapped_is_proxy_url
              (encodeURIComponent s +:+ "&w=512&h=512&fit=contain&bg=00000000"))
    as (H1 & H2 & H3).
  cbv zeta in H1, H2, H3.
  replace (wrapLogoUrl (A:=A) (inr s))
    with (inr (A:=A) (LOGO_PROXY_BASE +:+ "?url=" +:+ encodeURIComponent s
                        +:+ "&w=512&h=512&fit=contain&bg=00000000"))
    by (unfold wrapLogoUrl; rewrite Ht, Hs, Hi; reflexivity).
  unfold wrapLogoUrl. rewrite H1, H2, H3. reflexivity.
Qed.

(** X14 — the value of the [url] parameter is made of unreserved
    characters and percent signs only: whatever the logo URL contains
    ([&], [=], [#], spaces, non-ASCII bytes), none of it can end the
    parameter early or add one. *)
Theorem encodeURIComponent_alphabet (s : string) :
  all_chars (fun c => is_unreserved c || Ascii.eqb c "%") (encodeURIComponent s) = true.
Proof.
  induction s as [|c s IH]; [reflexivity|]. cbn [encodeURIComponent].
  rewrite all_chars_app, encode_byte_chars, IH. reflexivity.
Qed.

(** X15 — two logo URLs that [wrapLogoUrl] wraps never end up with the
    same proxy URL: from the wrapped form the original can be read
    back. *)
Theorem wrapLogoUrl_injective (A : Type) (u v : string) :
  wrapLogoUrl (A:=A) (inr u) <> inr u ->
  wrapLogoUrl (A:=A) (inr v) <> inr v ->
  wrapLogoUrl (A:=A) (inr u) = wrapLogoUrl (inr v) ->
  u = v.
Proof.
  unfold wrapLogoUrl. intros Hu Hv.
  destruct (negb (truthy u)); [congruence|].
  destruct (negb (test_http_scheme u)); [congruence|].
  destruct (includes u "images.weserv.nl"); [congruence|].
  destruct (negb (truthy v)); [congruence|].
  destruct (negb (test_http_scheme v)); [congruence|].
  destruct (includes v "images.weserv.nl"); [congruence|].
  intros [= H]. apply encode_inj in H as [-> _]. reflexivity.
Qed.

(** X15 on two URLs that differ in a query parameter. *)
Lemma wrapLogoUrl_injective_witness :
  wrapLogoUrl (A:=unit) (inr "http://tv.example/logo.png?id=1&s=2")
  <> wrapLogoUrl (inr "http://tv.example/logo.png?id=1&s=3").
Proof.
  intros H.
  apply (wrapLogoUrl_injective unit) in H; [discriminate H | |]; vm_compute; discriminate.
Defined.

(** * [meta-handler.js]: [normalizeId] *)

Section Trimming.

Lemma reverse_onto_app (acc s : string) :
  reverse_onto acc s = reverse s +:+ acc.
Proof.
  unfold reverse. revert acc. induction s as [|c s IH]; intros acc; cbn [reverse_onto].
  - reflexivity.
  - rewrite (IH (String c acc)), (IH (String c EmptyString)), append_assoc. reflexivity.
Qed.

Lemma reverse_cons (c : ascii) (s : string) : reverse (String c s) = reverse s +:+ str1 c.
Proof. unfold reverse at 1. cbn [reverse_onto]. apply reverse_onto_app. Qed.

Lemma append_empty_r (s : string) : s +:+ EmptyString = s.
Proof. induction s as [|c s IH]; [reflexivity|]. change (String c (s +:+ EmptyString) = String c s). congruence. Qed.

Lemma reverse_app (a b : string) : reverse (a +:+ b) = reverse b +:+ reverse a.
Proof.
  induction a as [|c a IH].
  - change (reverse b = reverse b +:+ EmptyString). symmetry. apply append_empty_r.
  - change (reverse (String c (a +:+ b)) = reverse b +:+ reverse (String c a)).
    rewrite !reverse_cons, IH, append_assoc. reflexivity.
Qed.

Lemma reverse_involutive (s : string) : reverse (reverse s) = s.
Proof.
  induction s as [|c s IH]; [reflexivity|].
  rewrite reverse_cons, reverse_app, IH. reflexivity.
Qed.

Lemma all_chars_reverse (p : ascii -> bool) (s : string) :
  all_chars p (reverse s) = all_chars p s.
Proof.
  induction s as [|c s IH]; [reflexivity|].
  rewrite reverse_cons, all_chars_app, IH. cbn [all_chars str1].
  rewrite andb_true_r. apply andb_comm.
Qed.

(** Trimming only removes characters. *)
Lemma trimStart_step (b1 : ascii) (rest1 : string) :
  trimStart (String b1 rest1) =
  if is_ascii_space b1 then trimStart rest1
  else match rest1 with
       | String b2 rest2 =>
           if is_space2 b1 b2 then trimStart rest2
           else match rest2 with
                | String b3 rest3 =>
                    if is_space3 b1 b2 b3 then trimStart rest3 else String b1 rest1
                | EmptyString => String b1 rest1
                end
       | EmptyString => String b1 rest1
       end.
Proof. destruct rest1 as [|b2 [|b3 rest3]]; reflexivity. Qed.

Lemma all_chars_trimStart_bounded (p : ascii -> bool) (n : nat) (s : string) :
  String.length s <= n -> all_chars p s = true -> all_chars p (trimStart s) = true.
Proof.
  revert s. induction n as [|n IH]; intros s Hn H.
  - destruct s; [reflexivity | cbn in Hn; lia].
  - destruct s as [|b1 rest1]; [reflexivity|]. rewrite trimStart_step.
    pose proof H as Hall. cbn [all_chars] in H. apply andb_prop in H as [H1 H2].
    cbn [String.length] in Hn.
    destruct (is_ascii_space b1); [apply IH; [lia | exact H2]|].
    destruct rest1 as [|b2 rest2]; [exact Hall|].
    cbn [all_chars] in H2. apply andb_prop in H2 as [H2 H3]. cbn [String.length] in Hn.
    destruct (is_space2 b1 b2); [apply IH; [lia | exact H3]|].
    destruct rest2 as [|b3 rest3]; [exact Hall|].
    cbn [all_chars] in H3. apply andb_prop in H3 as [H3 H4]. cbn [String.length] in Hn.
    destruct (is_space3 b1 b2 b3); [apply IH; [lia | exact H4] | exact Hall].
Qed.

Lemma all_chars_trimStart (p : ascii -> bool) (s : string) :
  all_chars p s = true -> all_chars p (trimStart s) = true.
Proof. apply (all_chars_trimStart_bounded p (String.length s)). lia. Qed.

Lemma trimStart_reversed_step (b1 : ascii) (rest1 : string) :
  trimStart_reversed (String b1 rest1) =
  if is_ascii_space b1 then trimStart_reversed rest1
  else match rest1 with
       | String b2 rest2 =>
           if is_space2 b2 b1 then trimStart_reversed rest2
           else match rest2 with
                | String b3 rest3 =>
                    if is_space3 b3 b2 b1 then trimStart_reversed rest3 else String b1 rest1
                | EmptyString => String b1 rest1
                end
       | EmptyString => String b1 rest1
       end.
Proof. destruct rest1 as [|b2 [|b3 rest3]]; reflexivity. Qed.

Lemma all_chars_trimStart_reversed_bounded (p : ascii -> bool) (n : nat) (s : string) :
  String.length s <= n -> all_chars p s = true -> all_chars p (trimStart_reversed s) = true.
Proof.
  revert s. induction n as [|n IH]; intros s Hn H.
  - destruct s; [reflexivity | cbn in Hn; lia].
  - destruct s as [|b1 rest1]; [reflexivity|]. rewrite trimStart_reversed_step.
    pose proof H as Hall. cbn [all_chars] in H. apply andb_prop in H as [H1 H2].
    cbn [String.length] in Hn.
    destruct (is_ascii_space b1); [apply IH; [lia | exact H2]|].
    destruct rest1 as [|b2 rest2]; [exact Hall|].
    cbn [all_chars] in H2. apply andb_prop in H2 as [H2 H3]. cbn [String.length] in Hn.
    destruct (is_space2 b2 b1); [apply IH; [lia | exact H3]|].
    destruct rest2 as [|b3 rest3]; [exact Hall|].
    cbn [all_chars] in H3. apply andb_prop in H3 as [H3 H4]. cbn [String.length] in Hn.
    destruct (is_space3 b3 b2 b1); [apply IH; [lia | exact H4] | exact Hall].
Qed.

Lemma all_chars_trimStart_reversed (p : ascii -> bool) (s : string) :
  all_chars p s = true -> all_chars p (trimStart_reversed s) = true.
Proof. apply (all_chars_trimStart_reversed_bounded p (String.length s)). lia. Qed.

Lemma all_chars_trim (p : ascii -> bool) (s : string) :
  all_chars p s = true -> all_chars p (trim s) = true.
Proof.
  intros H. unfold trim, trimEnd. rewrite all_chars_reverse.
  apply all_chars_trimStart_reversed. rewrite all_chars_reverse.
  apply all_chars_trimStart, H.
Qed.

Lemma trimStart_plain (c : ascii) (s : string) :
  plain c = true -> trimStart (String c s) = String c s.
Proof.
  destruct c as [[] [] [] [] [] [] [] []]; try discriminate; intros _;
    destruct s as [|b2 [|b3 rest]]; reflexivity.
Qed.

Lemma trimStart_reversed_plain (c : ascii) (s : string) :
  plain c = true -> trimStart_reversed (String c s) = String c s.
Proof.
  intros Hc. cbn [trimStart_reversed].
  assert (H1 : is_ascii_space c = false)
    by (unfold plain in Hc; destruct (is_ascii_space c); [rewrite andb_false_r in Hc|];
        congruence).
  assert (H2 : forall b, is_space2 b c = false).
  { intros b. unfold is_space2. destruct c as [[] [] [] [] [] [] [] []]; try discriminate Hc;
      apply andb_false_r. }
  assert (H3 : forall a b, is_space3 a b c = false).
  { intros a b. unfold is_space3.
    destruct c as [[] [] [] [] [] [] [] []]; try discriminate Hc;
      cbn; rewrite ?andb_false_r; reflexivity. }
  rewrite H1. destruct s as [|b2 [|b3 rest]]; rewrite ?H2, ?H3; reflexivity.
Qed.

Lemma all_chars_last (p : ascii -> bool) (s : string) (c : ascii) :
  all_chars p (s +:+ str1 c) = true -> p c = true.
Proof. rewrite all_chars_app. cbn. intros H. apply andb_prop in H as [_ H].
  rewrite andb_true_r in H. exact H. Qed.

Lemma trim_plain (s : string) : all_chars plain s = true -> trim s = s.
Proof.
  intros H. unfold trim, trimEnd.
  assert (Hs : trimStart s = s) by (destruct s as [|c s]; [reflexivity|];
    cbn [all_chars] in H; apply andb_prop in H as [Hc _]; apply trimStart_plain, Hc).
  rewrite Hs.
  assert (Hr : trimStart_reversed (reverse s) = reverse s).
  { pose proof (all_chars_reverse plain s) as Hrev. rewrite H in Hrev.
    destruct (reverse s) as [|c r]; [reflexivity|].
    cbn [all_chars] in Hrev. apply andb_prop in Hrev as [Hc _].
    apply trimStart_reversed_plain, Hc. }
  rewrite Hr. apply reverse_involutive.
Qed.

End Trimming.

Section NormalizeIdFacts.
Variable toLowerCase : string -> string.

Lemma id_char_facts (c : ascii) :
  is_id_char c = true ->
  plain c = true /\ is_ascii c = true /\ lower_ascii c = c /\
  is_word c || (N_of_ascii c =? 46)%N = true.
Proof. destruct c as [[] [] [] [] [] [] [] []]; try discriminate; intros _; repeat split. Qed.

Lemma kept_no_upper_is_id_char (c : ascii) :
  is_word c || (N_of_ascii c =? 46)%N = true -> negb (is_upper c) = true ->
  is_id_char c = true.
Proof. destruct c as [[] [] [] [] [] [] [] []]; try discriminate; reflexivity. Qed.

Lemma keep_word_dot_id_chars (s : string) :
  all_chars (fun c => negb (is_upper c)) s = true ->
  all_chars is_id_char (keep_word_dot s) = true.
Proof.
  induction s as [|c s IH]; [reflexivity|]. cbn [all_chars keep_word_dot].
  intros H. apply andb_prop in H as [Hc Hs].
  destruct (is_word c || (N_of_ascii c =? 46)%N) eqn:Hk; [|apply IH, Hs].
  cbn [all_chars]. rewrite (kept_no_upper_is_id_char c Hk Hc). apply IH, Hs.
Qed.

Lemma all_chars_impl (p q : ascii -> bool) (s : string) :
  (forall c, p c = true -> q c = true) -> all_chars p s = true -> all_chars q s = true.
Proof.
  intros Hpq. induction s as [|c s IH]; [reflexivity|]. cbn [all_chars].
  intros H. apply andb_prop in H as [Hc Hs]. rewrite (Hpq c Hc). apply IH, Hs.
Qed.

Lemma id_chars_fixed (s : string) :
  all_chars is_id_char s = true ->
  map_chars lower_ascii s = s /\ keep_word_dot s = s.
Proof.
  induction s as [|c s IH]; [split; reflexivity|]. cbn [all_chars map_chars keep_word_dot].
  intros H. apply andb_prop in H as [Hc Hs].
  destruct (id_char_facts c Hc) as (_ & _ & Hl & Hk). destruct (IH Hs) as [IH1 IH2].
  rewrite Hl, Hk, IH1, IH2. split; reflexivity.
Qed.

Lemma normalizeId_id_chars (id : option string) :
  leaves_no_upper toLowerCase ->
  all_chars is_id_char (normalizeId toLowerCase id) = true.
Proof.
  intros Hno. destruct id as [s|]; [|reflexivity]. unfold normalizeId.
  destruct (truthy _); [|reflexivity].
  apply all_chars_trim, keep_word_dot_id_chars, Hno.
Qed.

(** On a text without upper-case letters the regular expression keeps
    the characters of an id, and those only. *)
Lemma keep_word_dot_only (s : string) :
  all_chars (fun c => negb (is_upper c)) s = true ->
  keep_word_dot s = only_chars is_id_char s.
Proof.
  induction s as [|c s IH]; [reflexivity|]. cbn [all_chars keep_word_dot only_chars].
  intros H. apply andb_prop in H as [Hc Hs]. rewrite (IH Hs).
  destruct (is_word c || (N_of_ascii c =? 46)%N) eqn:Hk.
  - rewrite (kept_no_upper_is_id_char c Hk Hc). reflexivity.
  - destruct (is_id_char c) eqn:Hi; [|reflexivity].
    destruct (id_char_facts c Hi) as (_ & _ & _ & Hk'). congruence.
Qed.

Lemma only_chars_all (p : ascii -> bool) (s : string) :
  all_chars p (only_chars p s) = true.
Proof.
  induction s as [|c s IH]; [reflexivity|]. cbn [only_chars].
  destruct (p c) eqn:Hc; [|exact IH]. cbn [all_chars]. rewrite Hc, IH. reflexivity.
Qed.

Lemma normalizeId_only (s : string) :
  leaves_no_upper toLowerCase ->
  normalizeId toLowerCase (Some s) = only_chars is_id_char (toLowerCase s).
Proof.
  intros Hno. unfold normalizeId. rewrite (keep_word_dot_only _ (Hno s)).
  rewrite trim_plain.
  - destruct (only_chars is_id_char (toLowerCase s)); reflexivity.
  - apply (all_chars_impl is_id_char); [intros c Hc; apply (id_char_facts c Hc)|].
    apply only_chars_all.
Qed.
End NormalizeIdFacts.

(** X16 — what [normalizeId] keeps.  The normalised id of a text is
    the lowered text without every character other than [a-z], [0-9],
    [_] and [.], the remaining ones in their order; in particular, for
    an ASCII text, letters are lowered, digits, [_] and [.] are kept,
    and every other character is removed.  So a normalised id contains
    only [a-z], [0-9], [_] and [.]; [undefined] gives the empty
    string. *)
Theorem normalizeId_alphabet (toLowerCase : string -> string) (id : option string) :
  leaves_no_upper toLowerCase ->
  (forall s, normalizeId toLowerCase (Some s) = only_chars is_id_char (toLowerCase s)) /\
  (lowers_ascii toLowerCase ->
   forall s, all_chars is_ascii s = true ->
             normalizeId toLowerCase (Some s) = only_chars is_id_char (map_chars lower_ascii s)) /\
  all_chars is_id_char (normalizeId toLowerCase id) = true /\
  normalizeId toLowerCase None = EmptyString.
Proof.
  intros Hno. split; [|split; [|split]].
  - intros s. apply normalizeId_only, Hno.
  - intros Hlow s Hs. rewrite (normalizeId_only toLowerCase s Hno), (Hlow s Hs). reflexivity.
  - apply normalizeId_id_chars, Hno.
  - reflexivity.
Qed.

Lemma map_lower_no_upper : leaves_no_upper (map_chars lower_ascii).
Proof.
  intros s. induction s as [|c s IH]; [reflexivity|]. cbn [map_chars all_chars].
  rewrite IH, andb_true_r. destruct c as [[] [] [] [] [] [] [] []]; reflexivity.
Defined.

Lemma map_lower_lowers_ascii : lowers_ascii (map_chars lower_ascii).
Proof. intros s _. reflexivity. Defined.

(** X16 on an id with upper case, spaces and a hyphen. *)
Lemma normalizeId_alphabet_witness :
  normalizeId (map_chars lower_ascii) (Some " Rai 1.HD-it ") = "rai1.hdit".
Proof.
  rewrite (proj1 (proj2 (normalizeId_alphabet (map_chars lower_ascii) None map_lower_no_upper))
             map_lower_lowers_ascii " Rai 1.HD-it " eq_refl).
  vm_compute. reflexivity.
Defined.

(** X17 — [normalizeId] is idempotent: normalising a normalised id
    changes nothing, so ids can be compared after one pass on each
    side. *)
Theorem normalizeId_idempotent (toLowerCase : string -> string) (id : option string) :
  lowers_ascii toLowerCase -> leaves_no_upper toLowerCase ->
  normalizeId toLowerCase (Some (normalizeId toLowerCase id)) = normalizeId toLowerCase id.
Proof.
  intros Hlow Hno.
  pose proof (normalizeId_id_chars toLowerCase id Hno) as Hid.
  set (r := normalizeId toLowerCase id) in *.
  unfold normalizeId at 1.
  assert (Hascii : all_chars is_ascii r = true)
    by (apply (all_chars_impl is_id_char); [intros c Hc; apply (id_char_facts c Hc) | exact Hid]).
  assert (Hplain : all_chars plain r = true)
    by (apply (all_chars_impl is_id_char); [intros c Hc; apply (id_char_facts c Hc) | exact Hid]).
  destruct (id_chars_fixed r Hid) as [Hmap Hkeep].
  rewrite (Hlow r Hascii), Hmap, Hkeep, (trim_plain r Hplain).
  destruct r; reflexivity.
Qed.

(** X17 on the same id. *)
Lemma normalizeId_idempotent_witness :
  normalizeId (map_chars lower_ascii)
    (Some (normalizeId (map_chars lower_ascii) (Some " Rai 1.HD-it ")))
  = "rai1.hdit".
Proof.
  rewrite (normalizeId_idempotent (map_chars lower_ascii) (Some " Rai 1.HD-it ")
             map_lower_lowers_ascii map_lower_no_upper).
  vm_compute. reflexivity.
Defined.

(** * The [/api/resolver] route *)

Section RouteFacts.
Variable W : World.

Lemma checkScriptHealth_returns (st : State) :
  exists b st', run W (checkScriptHealth W) st = (Return b, st').
Proof.
  unfold checkScriptHealth. cbn [bind gets pure run Date_now existsSync].
  destruct (bool_decide _); cbn [negb].
  - rewrite run_try_catch. destruct (run W _ st) as [[[]|b|e] s1]; cbn; eauto.
  - cbn. eauto.
Qed.

Lemma createScriptTemplate_run (st : State) :
  run W (createScriptTemplate W) st =
  match fs_fault W OpWrite (scriptPath W) st with
  | Some e =>
      (Return false,
       with_self (set_lastError (Some ("Template creation error: " +:+ message e)))
         (torn_write W (scriptPath W) templateContent st))
  | None =>
      (Return true,
       with_host (fun h => set_files (<[scriptPath W := templateContent]> (files h)) h) st)
  end.
Proof.
  unfold createScriptTemplate. cbn.
  destruct (fs_fault W OpWrite (scriptPath W) st); reflexivity.
Qed.

Lemma status_lastError_run {R} (s : State) :
  run W (status_lastError W (R:=R)) s = (Normal (lastError (self s)), s).
Proof.
  unfold status_lastError. rewrite run_bind, run_call.
  destruct (getStatus_reports W s) as (status & -> & _ & _ & -> & _). reflexivity.
Qed.

(** A [downloadScript] that returns false has recorded an error. *)
Lemma downloadScript_false_error (url : string) (st st' : State) :
  run W (downloadScript W url) st = (Return false, st') -> is_Some (lastError (self st')).
Proof.
  destruct (respond W _ (HttpGet url) (with_self (set_scriptUrl (Some url)) st))
    as [[e|body] s1] eqn:Hr.
  - rewrite (downloadScript_fetch_fails W _ _ _ _ Hr). intros [= <-]. cbn. eauto.
  - destruct (fs_fault W OpWrite (scriptPath W) s1) as [e|] eqn:Hw.
    + rewrite (downloadScript_write_fails W _ _ _ _ _ Hr Hw). intros [= <-]. cbn. eauto.
    + rewrite (downloadScript_written W _ _ _ _ Hr Hw).
      destruct (negb _ && negb _); intros [= <-]. cbn. eauto.
Qed.

Lemma resolverApi_download (u : string) (interval : option string) (st : State) :
  truthy u = true ->
  exists b st', run W (downloadScript W u) st = (Return b, st') /\
    run W (resolverApi_try W (Some "download") (Some u) interval) st =
    (Return (if b then {| code := 200;
                          body := Outcome true (Some "Resolver script downloaded successfully")
                                    None |}
             else failure_response st'), st').
Proof.
  intros Hu. destruct (downloadScript_returns W u st) as (b & st' & Hrun).
  exists b, st'. split; [exact Hrun|].
  unfold resolverApi_try, given. rewrite Hu.
  change (is_action (Some "download") "download") with true. cbv iota.
  rewrite run_bind, run_call, Hrun. destruct b; [reflexivity|].
  rewrite run_bind, status_lastError_run. reflexivity.
Qed.

Lemma resolverApi_schedule (i : string) (url : option string) (st : State) :
  truthy i = true ->
  exists b st', run W (scheduleUpdate W i) st = (Return b, st') /\
    run W (resolverApi_try W (Some "schedule") url (Some i)) st =
    (Return (if b then {| code := 200;
                          body := Outcome true (Some ("Automatic updates scheduled every " +:+ i))
                                    None |}
             else failure_response st'), st').
Proof.
  intros Hi.
  assert (Hret : exists b st', run W (scheduleUpdate W i) st = (Return b, st'))
    by (destruct (scheduleUpdate_cases W i st) as [[msg ->] | [e ->]]; eauto).
  destruct Hret as (b & st' & Hrun). exists b, st'. split; [exact Hrun|].
  unfold resolverApi_try, given. rewrite Hi.
  change (is_action (Some "schedule") "download") with false.
  change (is_action (Some "schedule") "create-template") with false.
  change (is_action (Some "schedule") "check-health") with false.
  change (is_action (Some "schedule") "status") with false.
  change (is_action (Some "schedule") "clear-cache") with false.
  change (is_action (Some "schedule") "schedule") with true.
  cbv iota.
  rewrite run_bind, run_call, Hrun. destruct b; [reflexivity|].
  rewrite run_bind, status_lastError_run. reflexivity.
Qed.
End RouteFacts.

Section RouteAnswers.
Variable W : World.

Lemma scheduleUpdate_false_error (i : string) (st st' : State) :
  run W (scheduleUpdate W i) st = (Return false, st') -> is_Some (lastError (self st')).
Proof.
  destruct (scheduleUpdate_cases W i st) as [[msg ->] | [e ->]]; intros [= <-]. cbn. eauto.
Qed.

Lemma scheduleUpdate_returns (i : string) (st : State) :
  exists b st', run W (scheduleUpdate W i) st = (Return b, st').
Proof. destruct (scheduleUpdate_cases W i st) as [[msg ->] | [e ->]]; eauto. Qed.

Ltac route_sent :=
  do 2 eexists; split; [reflexivity|]; cbn;
  split; [split; (discriminate || reflexivity)
         | split; [(discriminate || (intros _; split; reflexivity)) | auto]].

Ltac route_failed H :=
  rewrite run_bind, status_lastError_run; do 2 eexists; split; [reflexivity|]; cbn;
  split; [split; discriminate|]; split; [discriminate|]; right; right;
  split; [reflexivity|]; split; [|reflexivity]; apply H.

Ltac route_rest W st :=
  cbn [andb orb];
  destruct (is_action _ "create-template");
  [ rewrite run_bind, run_call, createScriptTemplate_run;
    destruct (fs_fault W OpWrite (scriptPath W) st) as [e|];
    [ route_failed (ltac:(cbn; eauto) : is_Some (Some ("Template creation error: " +:+ message e)))
    | route_sent ] |];
  destruct (is_action _ "check-health");
  [ rewrite run_bind, run_call;
    let b := fresh "b" in let st' := fresh "st'" in
    destruct (checkScriptHealth_returns W st) as (b & st' & ->);
    rewrite run_bind; destruct b;
    [ route_sent | rewrite status_lastError_run; route_sent ] |];
  destruct (is_action _ "status");
  [ rewrite run_bind, run_call;
    let status := fresh "status" in
    destruct (getStatus_reports W st) as (status & -> & _); route_sent |];
  destruct (is_action _ "clear-cache"); [ route_sent |];
  destruct (is_action _ "schedule"), (given _) as [i|];
  [ rewrite run_bind, run_call;
    let b := fresh "b" in let st' := fresh "st'" in let Hrun := fresh "Hrun" in
    destruct (scheduleUpdate_returns i st) as (b & st' & Hrun); rewrite Hrun;
    destruct b; [ route_sent | route_failed (scheduleUpdate_false_error i st st' Hrun) ]
  | | | ];
  (destruct (is_action _ "stopSchedule");
   [ rewrite run_bind, run_call, stopScheduledUpdates_effect; route_sent | route_sent ]).

(** What the [try] block of the route does, request by request. *)
Lemma resolverApi_try_answers (action url interval : option string) (st : State) :
  exists resp st',
    run W (resolverApi_try W action url interval) st = (Return resp, st') /\
    (code resp = 400 <-> known_action action url interval = false) /\
    (code resp = 400 ->
     resp = {| code := 400; body := Outcome false (Some "Invalid action") None |} /\
     st' = st) /\
    (code resp = 200 \/ code resp = 400 \/
     code resp = 500 /\ is_Some (lastError (self st')) /\
     body resp = Outcome false (lastError (self st')) None).
Proof.
  unfold resolverApi_try, known_action.
  destruct (is_action action "download"), (given url) as [u|].
  - rewrite run_bind, run_call.
    destruct (downloadScript_returns W u st) as (b & st' & Hrun). rewrite Hrun.
    destruct b; [ route_sent | route_failed (downloadScript_false_error W u st st' Hrun) ].
  - route_rest W st.
  - route_rest W st.
  - route_rest W st.
Qed.

Lemma resolverApi_as_try (action url interval : option string) (st : State) resp st' :
  run W (resolverApi_try W action url interval) st = (Return resp, st') ->
  run W (resolverApi W action url interval) st = (Return resp, st').
Proof. intros H. unfold resolverApi. rewrite run_try_catch, H. reflexivity. Qed.
End RouteAnswers.

(** ** The route [POST /api/resolver] *)

(** X18 — whatever the request (fields [action], [url], [interval]
    strings or absent), the world and the state, the [try] block of the
    route completes without throwing, so the [catch] answer with
    [error.message] is never sent: every failure of the resolver's
    methods has been turned into [false] by the method.  The status is
    200, 400 or 500, and a 500 carries as [message] the [lastError] the
    failed method has just recorded, which is a string, not null. *)
Theorem resolverApi_never_reaches_catch (W : World) (action url interval : option string)
  (st : State) :
  exists resp st',
    run W (resolverApi_try W action url interval) st = (Return resp, st') /\
    run W (resolverApi W action url interval) st = (Return resp, st') /\
    (code resp = 200 \/ code resp = 400 \/ code resp = 500) /\
    (code resp = 500 ->
     exists msg, lastError (self st') = Some msg /\ body resp = Outcome false (Some msg) None).
Proof.
  destruct (resolverApi_try_answers W action url interval st)
    as (resp & st' & Hrun & _ & _ & Hcode).
  exists resp, st'. split; [exact Hrun|]. split; [exact (resolverApi_as_try W _ _ _ _ _ _ Hrun)|].
  split.
  - destruct Hcode as [H | [H | [H _]]]; auto.
  - intros H500. destruct Hcode as [H | [H | (_ & [msg Hmsg] & Hbody)]]; [congruence..|].
    exists msg. split; [exact Hmsg|]. rewrite Hbody, Hmsg. reflexivity.
Qed.

(** X19 — the route answers 400 'Invalid action', leaving the resolver
    and the host as they are, exactly for the requests outside its
    seven actions; [download] without a non-empty [url] and [schedule]
    without a non-empty [interval] are among them. *)
Theorem resolverApi_invalid_action (W : World) (action url interval : option string)
  (st : State) :
  (known_action action url interval = false <->
   run W (resolverApi W action url interval) st =
   (Return {| code := 400; body := Outcome false (Some "Invalid action") None |}, st)) /\
  known_action (Some "download") None interval = false /\
  known_action (Some "download") (Some EmptyString) interval = false /\
  known_action (Some "schedule") url None = false /\
  known_action (Some "schedule") url (Some EmptyString) = false.
Proof.
  split; [|repeat split; reflexivity].
  destruct (resolverApi_try_answers W action url interval st)
    as (resp & st' & Hrun & Hiff & H400 & _).
  rewrite (resolverApi_as_try W _ _ _ _ _ _ Hrun). split.
  - intros Hk. apply Hiff in Hk. destruct (H400 Hk) as [-> ->]. reflexivity.
  - intros [= -> _]. apply Hiff. reflexivity.
Qed.

(** X20 — [check-health] answers 200 also for a negative verdict, and
    the message of such an answer need not be about the check.  When the
    script is present, both commands run and the check does not print
    [resolver_ready], [checkScriptHealth] returns false without
    recording an error, so the [message] sent is whatever [lastError]
    holds when the check ends.  If no other task touches the object
    while the two commands run, that is the [lastError] the object had
    before the request: null on a fresh object, otherwise the error of
    some earlier operation. *)
Theorem resolverApi_check_health_stale_message (W : World) (url interval : option string)
  (st s1 s2 : State) (out1 out : string * string) :
  is_Some (files (host st) !! scriptPath W) ->
  respond W _ (Exec (pythonCmd W +:+ " --version"))
    (spawn (pythonCmd W +:+ " --version") st) = (inr out1, s1) ->
  respond W _ (Exec (pythonCmd W +:+ " " +:+ scriptPath W +:+ " --check"))
    (spawn (pythonCmd W +:+ " " +:+ scriptPath W +:+ " --check") s1) = (inr out, s2) ->
  includes (fst out) "resolver_ready" || includes (snd out) "resolver_ready" = false ->
  run W (resolverApi W (Some "check-health") url interval) st =
  (Return {| code := 200; body := Outcome false (lastError (self s2)) None |}, s2) /\
  (undisturbed W -> lastError (self s2) = lastError (self st)).
Proof.
  intros Hf H1 H2 Hno. split.
  - assert (Hrun : run W (checkScriptHealth W) st = (Return false, s2)).
    { unfold checkScriptHealth, spawn in *. cbn.
      rewrite bool_decide_eq_true_2 by exact Hf. cbn. rewrite H1. cbn. rewrite H2. cbn.
      rewrite Hno. reflexivity. }
    apply resolverApi_as_try. unfold resolverApi_try.
    destruct (given url);
      change (is_action (Some "check-health") "download") with false;
      change (is_action (Some "check-health") "create-template") with false;
      change (is_action (Some "check-health") "check-health") with true;
      cbv iota;
      rewrite run_bind, run_call, Hrun, run_bind, status_lastError_run; reflexivity.
  - intros Hquiet.
    pose proof (Hquiet _ (Exec (pythonCmd W +:+ " " +:+ scriptPath W +:+ " --check"))
                  (spawn (pythonCmd W +:+ " " +:+ scriptPath W +:+ " --check") s1)) as Q2.
    pose proof (Hquiet _ (Exec (pythonCmd W +:+ " --version"))
                  (spawn (pythonCmd W +:+ " --version") st)) as Q1.
    rewrite H2 in Q2. rewrite H1 in Q1. cbn in Q1, Q2. rewrite Q2, Q1. reflexivity.
Qed.

(** X20 in the scenario: a resolution has failed earlier; the program
    is run for the check and prints nothing; the answer carries the
    error of the resolution. *)
Lemma resolverApi_check_health_stale_message_witness :
  let st := with_self (set_lastError (Some "Output file not created")) Scenario.installed in
  run Scenario.W_no_output (resolverApi Scenario.W_no_output (Some "check-health") None None) st =
  (Return {| code := 200; body := Outcome false (Some "Output file not created") None |},
   snd (run Scenario.W_no_output (checkScriptHealth Scenario.W_no_output) st)).
Proof.
  intros st.
  exact (proj1 (resolverApi_check_health_stale_message Scenario.W_no_output None None st _ _ _ _
                  (ltac:(vm_compute; eauto)) eq_refl eq_refl eq_refl)).
Defined.

(** ** [createScriptTemplate] *)

(** X21 — [createScriptTemplate] never throws.  It returns true exactly
    when the write succeeds; then the script file holds the template,
    whatever program was installed before, every other file and the
    object are as before.  When the write fails it returns false and
    [lastError] is 'Template creation error: ' followed by the message
    of the failure; no other file changes, and the script file is as
    before only if it could not be opened: otherwise it has been
    truncated and holds the part of the template written before the
    failure. *)
Theorem createScriptTemplate_outcome (W : World) (st : State) :
  exists b st',
    run W (createScriptTemplate W) st = (Return b, st') /\
    (forall p, p <> scriptPath W -> files (host st') !! p = files (host st) !! p) /\
    now (host st') = now (host st) /\ cronTasks (host st') = cronTasks (host st) /\
    spawned (host st') = spawned (host st) /\
    match fs_fault W OpWrite (scriptPath W) st with
    | None =>
        b = true /\ self st' = self st /\
        files (host st') !! scriptPath W = Some templateContent
    | Some e =>
        b = false /\
        self st' = set_lastError (Some ("Template creation error: " +:+ message e)) (self st) /\
        match written_before_fault W (scriptPath W) templateContent st with
        | None => host st' = host st
        | Some n => files (host st') !! scriptPath W = Some (substring 0 n templateContent)
        end
    end.
Proof.
  rewrite createScriptTemplate_run.
  destruct (fs_fault W OpWrite (scriptPath W) st) as [e|]; do 2 eexists; (split; [reflexivity|]).
  - split; [intros p Hp; cbn; apply torn_write_files, Hp|].
    destruct (torn_write_host W (scriptPath W) templateContent st) as (Hn & Hc & Hs).
    cbn [host with_self]. split; [exact Hn|]. split; [exact Hc|]. split; [exact Hs|].
    split; [reflexivity|]. split; [cbn; rewrite torn_write_self; reflexivity|].
    unfold torn_write.
    destruct (written_before_fault W (scriptPath W) templateContent st) as [n|]; [|reflexivity].
    destruct st as [o h]. cbn. apply lookup_insert_eq.
  - destruct st as [o h]. cbn.
    split; [intros p Hp; apply lookup_insert_ne; congruence|].
    split; [reflexivity|]. split; [reflexivity|]. split; [reflexivity|].
    split; [reflexivity|]. split; [reflexivity|]. apply lookup_insert_eq.
Qed.

(** X21 in the scenario where the disk is full: the template is not
    installed and the program that was installed is gone. *)
Lemma createScriptTemplate_outcome_witness :
  let result := run Scenario.W_disk_full (createScriptTemplate Scenario.W_disk_full)
                  Scenario.installed in
  fst result = Return false /\
  files (host (snd result)) !! "/app/resolver_script.py" = Some EmptyString.
Proof.
  destruct (createScriptTemplate_outcome Scenario.W_disk_full Scenario.installed)
    as (b & st' & Hrun & _ & _ & _ & _ & Hb & _ & Hfile).
  cbv zeta. rewrite Hrun. split; [cbn; congruence | exact Hfile].
Defined.

(** X22 — the template passes the check [downloadScript] makes on a
    program: served by a web server and downloaded, it is accepted, and
    the script file is the one [createScriptTemplate] writes. *)
Theorem createScriptTemplate_accepted_by_download (W : World) (url : string) (st s1 : State) :
  respond W _ (HttpGet url) (with_self (set_scriptUrl (Some url)) st) = (inr templateContent, s1) ->
  fs_fault W OpWrite (scriptPath W) s1 = None ->
  fs_fault W OpWrite (scriptPath W) st = None ->
  fst (run W (downloadScript W url) st) = Return true /\
  fst (run W (createScriptTemplate W) st) = Return true /\
  files (host (snd (run W (downloadScript W url) st))) !! scriptPath W =
  files (host (snd (run W (createScriptTemplate W) st))) !! scriptPath W.
Proof.
  intros Hget Hw1 Hw.
  rewrite (downloadScript_written W url st s1 templateContent Hget Hw1).
  rewrite createScriptTemplate_run, Hw.
  assert (Hin : includes templateContent "def resolve_link" = true) by (vm_compute; reflexivity).
  rewrite Hin. cbn [negb andb fst snd]. split; [reflexivity|]. split; [reflexivity|].
  destruct s1 as [o1 h1], st as [o h]. cbn. rewrite !lookup_insert_eq. reflexivity.
Qed.

(** X22 in a scenario whose server serves the template. *)
Lemma createScriptTemplate_accepted_by_download_witness :
  let W := Scenario.world (inr templateContent) (inr None) true in
  fst (run W (downloadScript W "https://example.com/resolver.py") Scenario.empty) = Return true /\
  fst (run W (createScriptTemplate W) Scenario.empty) = Return true /\
  files (host (snd (run W (downloadScript W "https://example.com/resolver.py") Scenario.empty)))
    !! scriptPath W =
  files (host (snd (run W (createScriptTemplate W) Scenario.empty))) !! scriptPath W.
Proof.
  intros W.
  exact (createScriptTemplate_accepted_by_download W "https://example.com/resolver.py"
           Scenario.empty _ eq_refl eq_refl eq_refl).
Defined.

(** ** Trimming, again: what is cut off *)

Section TrimSplit.

Lemma space_not_plain (b : ascii) : is_ascii_space b = true -> not_plain b = true.
Proof. intros H. unfold not_plain, plain. rewrite H, andb_false_r. reflexivity. Qed.

Lemma space2_not_plain (b1 b2 : ascii) :
  is_space2 b1 b2 = true -> not_plain b1 = true /\ not_plain b2 = true.
Proof.
  unfold is_space2, not_plain, plain, is_ascii. intros H.
  apply andb_prop in H as [H1 H2]. apply N.eqb_eq in H1, H2. rewrite H1, H2. split; reflexivity.
Qed.

Lemma space3_not_plain (b1 b2 b3 : ascii) :
  is_space3 b1 b2 b3 = true ->
  not_plain b1 = true /\ not_plain b2 = true /\ not_plain b3 = true.
Proof.
  unfold is_space3, not_plain, plain, is_ascii. intros H.
  assert (H' : (128 <= N_of_ascii b1 /\ 128 <= N_of_ascii b2 /\ 128 <= N_of_ascii b3)%N).
  { repeat match type of H with
           | (_ || _ = true) => apply orb_prop in H as [H|H]
           | (_ && _ = true) => apply andb_prop in H as [? H]
           end;
    repeat match goal with
           | H0 : (_ && _ = true) |- _ => apply andb_prop in H0 as [? ?]
           | H0 : (_ || _ = true) |- _ => apply orb_prop in H0 as [H0|H0]
           | H0 : (_ =? _)%N = true |- _ => apply N.eqb_eq in H0
           | H0 : (_ <=? _)%N = true |- _ => apply N.leb_le in H0
           end; lia. }
  destruct H' as (A1 & A2 & A3).
  apply N.ltb_ge in A1, A2, A3. rewrite A1, A2, A3. auto.
Qed.

Lemma trimStart_split_bounded (n : nat) (s : string) :
  String.length s <= n ->
  exists pre, s = pre +:+ trimStart s /\ all_chars not_plain pre = true.
Proof.
  revert s. induction n as [|n IH]; intros s Hn.
  - destruct s; [exists EmptyString; auto | cbn in Hn; lia].
  - destruct s as [|b1 rest1]; [exists EmptyString; auto|]. rewrite trimStart_step.
    cbn [String.length] in Hn.
    destruct (is_ascii_space b1) eqn:E1.
    { destruct (IH rest1 ltac:(lia)) as (pre & Hs & Hp). exists (String b1 pre). split.
      - change (String b1 rest1 = String b1 (pre +:+ trimStart rest1)). congruence.
      - cbn [all_chars]. rewrite (space_not_plain _ E1), Hp. reflexivity. }
    destruct rest1 as [|b2 rest2]; [exists EmptyString; auto|].
    cbn [String.length] in Hn.
    destruct (is_space2 b1 b2) eqn:E2.
    { destruct (IH rest2 ltac:(lia)) as (pre & Hs & Hp).
      destruct (space2_not_plain _ _ E2) as [P1 P2].
      exists (String b1 (String b2 pre)). split.
      - change (String b1 (String b2 rest2) = String b1 (String b2 (pre +:+ trimStart rest2))).
        congruence.
      - cbn [all_chars]. rewrite P1, P2, Hp. reflexivity. }
    destruct rest2 as [|b3 rest3]; [exists EmptyString; auto|].
    cbn [String.length] in Hn.
    destruct (is_space3 b1 b2 b3) eqn:E3; [|exists EmptyString; auto].
    destruct (IH rest3 ltac:(lia)) as (pre & Hs & Hp).
    destruct (space3_not_plain _ _ _ E3) as (P1 & P2 & P3).
    exists (String b1 (String b2 (String b3 pre))). split.
    + change (String b1 (String b2 (String b3 rest3)) =
              String b1 (String b2 (String b3 (pre +:+ trimStart rest3)))).
      congruence.
    + cbn [all_chars]. rewrite P1, P2, P3, Hp. reflexivity.
Qed.

(** [trimStart] cuts off a prefix without ASCII text. *)
Lemma trimStart_split (s : string) :
  exists pre, s = pre +:+ trimStart s /\ all_chars not_plain pre = true.
Proof. apply (trimStart_split_bounded (String.length s)). lia. Qed.

Lemma trimStart_reversed_split_bounded (n : nat) (s : string) :
  String.length s <= n ->
  exists pre, s = pre +:+ trimStart_reversed s /\ all_chars not_plain pre = true.
Proof.
  revert s. induction n as [|n IH]; intros s Hn.
  - destruct s; [exists EmptyString; auto | cbn in Hn; lia].
  - destruct s as [|b1 rest1]; [exists EmptyString; auto|]. rewrite trimStart_reversed_step.
    cbn [String.length] in Hn.
    destruct (is_ascii_space b1) eqn:E1.
    { destruct (IH rest1 ltac:(lia)) as (pre & Hs & Hp). exists (String b1 pre). split.
      - change (String b1 rest1 = String b1 (pre +:+ trimStart_reversed rest1)). congruence.
      - cbn [all_chars]. rewrite (space_not_plain _ E1), Hp. reflexivity. }
    destruct rest1 as [|b2 rest2]; [exists EmptyString; auto|].
    cbn [String.length] in Hn.
    destruct (is_space2 b2 b1) eqn:E2.
    { destruct (IH rest2 ltac:(lia)) as (pre & Hs & Hp).
      destruct (space2_not_plain _ _ E2) as [P2 P1].
      exists (String b1 (String b2 pre)). split.
      - change (String b1 (String b2 rest2) =
                String b1 (String b2 (pre +:+ trimStart_reversed rest2))).
        congruence.
      - cbn [all_chars]. rewrite P1, P2, Hp. reflexivity. }
    destruct rest2 as [|b3 rest3]; [exists EmptyString; auto|].
    cbn [String.length] in Hn.
    destruct (is_space3 b3 b2 b1) eqn:E3; [|exists EmptyString; auto].
    destruct (IH rest3 ltac:(lia)) as (pre & Hs & Hp).
    destruct (space3_not_plain _ _ _ E3) as (P3 & P2 & P1).
    exists (String b1 (String b2 (String b3 pre))). split.
    + change (String b1 (String b2 (String b3 rest3)) =
              String b1 (String b2 (String b3 (pre +:+ trimStart_reversed rest3)))).
      congruence.
    + cbn [all_chars]. rewrite P1, P2, P3, Hp. reflexivity.
Qed.

Lemma trimStart_reversed_split (s : string) :
  exists pre, s = pre +:+ trimStart_reversed s /\ all_chars not_plain pre = true.
Proof. apply (trimStart_reversed_split_bounded (String.length s)). lia. Qed.

(** [trimEnd] cuts off a suffix without ASCII text. *)
Lemma trimEnd_split (s : string) :
  exists suf, s = trimEnd s +:+ suf /\ all_chars not_plain suf = true.
Proof.
  destruct (trimStart_reversed_split (reverse s)) as (pre & Hs & Hp).
  exists (reverse pre). split.
  - unfold trimEnd. rewrite <- reverse_app, <- Hs. symmetry. apply reverse_involutive.
  - rewrite all_chars_reverse. exact Hp.
Qed.

(** Trimming keeps the ASCII text: a string with a letter in it is not
    trimmed to nothing. *)
Lemma trim_keeps_text (s : string) :
  all_chars not_plain (trim s) = all_chars not_plain s.
Proof.
  unfold trim.
  destruct (trimStart_split s) as (pre & Hs & Hp).
  destruct (trimEnd_split (trimStart s)) as (suf & Ht & Hq).
  rewrite Hs at 2. rewrite Ht at 2. rewrite !all_chars_app, Hp, Hq, andb_true_r. reflexivity.
Qed.

Lemma trim_text_not_empty (c : ascii) (s : string) :
  plain c = true -> trim (String c s) <> EmptyString.
Proof.
  intros Hc He. pose proof (trim_keeps_text (String c s)) as H. rewrite He in H.
  cbn [all_chars] in H.
  assert (Hn : not_plain c = false) by (unfold not_plain; rewrite Hc; reflexivity).
  rewrite Hn in H. discriminate.
Qed.

(** A word of ASCII text at the beginning is still there after
    trimming. *)
Lemma plain_prefix_kept (word : string) :
  all_chars plain word = true ->
  forall tail kept suffix,
    word +:+ tail = kept +:+ suffix -> all_chars not_plain suffix = true ->
    exists rest, kept = word +:+ rest.
Proof.
  induction word as [|c word IH]; intros Hw tail kept suffix Heq Hs.
  - exists kept. reflexivity.
  - cbn [all_chars] in Hw. apply andb_prop in Hw as [Hc Hw].
    change (String c word +:+ tail) with (String c (word +:+ tail)) in Heq.
    destruct kept as [|k kept].
    + change (EmptyString +:+ suffix) with suffix in Heq. subst suffix.
      cbn [all_chars] in Hs. unfold not_plain at 1 in Hs. rewrite Hc in Hs. discriminate.
    + change (String k kept +:+ suffix) with (String k (kept +:+ suffix)) in Heq.
      injection Heq as -> Heq. destruct (IH Hw tail kept suffix Heq Hs) as [rest ->].
      exists rest. reflexivity.
Qed.

Lemma trim_keeps_word (c : ascii) (word tail : string) :
  all_chars plain (String c word) = true ->
  exists rest, trim (String c word +:+ tail) = String c word +:+ rest.
Proof.
  intros Hw. unfold trim.
  change (String c word +:+ tail) with (String c (word +:+ tail)).
  rewrite trimStart_plain by (cbn [all_chars] in Hw; apply andb_prop in Hw as [Hc _]; exact Hc).
  destruct (trimEnd_split (String c (word +:+ tail))) as (suffix & Heq & Hs).
  apply (plain_prefix_kept (String c word) Hw tail _ suffix); [exact Heq | exact Hs].
Qed.

End TrimSplit.

(** ** [epg-utils.js] *)

Section EpgFacts.
Variable remove_pictographic : string -> string.

Lemma push_upcoming_extends (len : nat) (upcoming : list Program) :
  forall index lines,
    exists extra, push_upcoming remove_pictographic len index upcoming lines = (lines ++ extra)%list.
Proof.
  induction upcoming as [|program rest IH]; intros index lines; cbn [push_upcoming].
  - exists []. symmetry. apply app_nil_r.
  - destruct (0 <? length _)%nat; [destruct (_ <? _)%Z|].
    + destruct (IH (S index) ((lines ++ formatProgramLine remove_pictographic (Some program))
                               ++ [EmptyString])%list) as [extra ->].
      eexists. rewrite <- !app_assoc. reflexivity.
    + destruct (IH (S index) (lines ++ formatProgramLine remove_pictographic (Some program))%list)
        as [extra ->].
      eexists. rewrite <- !app_assoc. reflexivity.
    + apply IH.
Qed.

Lemma join_head (sep x : string) (rest : list string) :
  exists tail, join sep (x :: rest) = x +:+ tail.
Proof.
  destruct rest as [|y rest].
  - exists EmptyString. symmetry. apply append_empty_r.
  - eexists. reflexivity.
Qed.

(** A description whose first line begins with a letter is not empty
    after trimming. *)
Lemma description_not_empty (c : ascii) (word : string) (rest : list string) :
  plain c = true -> trim (join newline (String c word :: rest)) <> EmptyString.
Proof.
  intros Hc. destruct (join_head newline (String c word) rest) as [tail ->].
  change (String c word +:+ tail) with (String c (word +:+ tail)).
  apply trim_text_not_empty, Hc.
Qed.

(** The first line of the description before trimming. *)
Lemma buildEpgDescription_first_line (currentProgram : option Program)
  (upcomingPrograms : list (option Program)) (upcomingLimit : Z) :
  exists lines,
    buildEpgDescription remove_pictographic currentProgram upcomingPrograms upcomingLimit
      = trim (join newline lines) /\
    match currentProgram, slice (omap id upcomingPrograms) upcomingLimit with
    | Some _, _ => exists more, lines = "Now" :: more
    | None, _ :: _ => exists more, lines = "Next" :: more
    | None, [] => lines = []
    end.
Proof.
  unfold buildEpgDescription.
  destruct (slice (omap id upcomingPrograms) upcomingLimit) as [|program upcoming] eqn:Hup.
  - cbn [length Nat.ltb Nat.leb]. destruct currentProgram as [p|].
    + eexists. split; [reflexivity|]. cbn [app]. eexists. reflexivity.
    + eexists. split; reflexivity.
  - change (0 <? length (program :: upcoming))%nat with true. cbv iota.
    destruct currentProgram as [p|].
    + destruct (push_upcoming_extends (length (program :: upcoming)) (program :: upcoming) 0
                  ((if (0 <? length (([] ++ ["Now"]) ++
                                     formatProgramLine remove_pictographic (Some p)))%nat
                    then ((([] ++ ["Now"]) ++ formatProgramLine remove_pictographic (Some p))
                          ++ [EmptyString])%list
                    else (([] ++ ["Now"]) ++ formatProgramLine remove_pictographic (Some p))%list)
                   ++ ["Next"])%list) as [extra ->].
      eexists. split; [reflexivity|]. cbn [app length Nat.ltb Nat.leb]. eexists. reflexivity.
    + destruct (push_upcoming_extends (length (program :: upcoming)) (program :: upcoming) 0
                  ((if (0 <? length (@nil string))%nat then ([] ++ [EmptyString])%list else [])
                   ++ ["Next"])%list) as [extra ->].
      eexists. split; [reflexivity|]. cbn [app length Nat.ltb Nat.leb]. eexists. reflexivity.
Qed.

Lemma description_begins (c : ascii) (word : string) (more : list string) :
  all_chars plain (String c word) = true ->
  exists rest, trim (join newline (String c word :: more)) = String c word +:+ rest.
Proof.
  intros Hw. destruct (join_head newline (String c word) more) as [tail ->].
  apply trim_keeps_word, Hw.
Qed.

Lemma buildEpgDescription_empty (currentProgram : option Program)
  (upcomingPrograms : list (option Program)) (upcomingLimit : Z) :
  buildEpgDescription remove_pictographic currentProgram upcomingPrograms upcomingLimit
    = EmptyString <->
  currentProgram = None /\ slice (omap id upcomingPrograms) upcomingLimit = [].
Proof.
  unfold buildEpgDescription.
  destruct (slice (omap id upcomingPrograms) upcomingLimit) as [|program upcoming] eqn:Hup.
  - cbn [length Nat.ltb Nat.leb]. destruct currentProgram as [p|].
    + split; [|intros [[=] _]]. intros H. exfalso. revert H.
      cbn [app]. apply description_not_empty. reflexivity.
    + split; [auto|]. intros _. reflexivity.
  - change (0 <? length (program :: upcoming))%nat with true. cbv iota.
    split; [|intros [_ [=]]]. intros H. exfalso. revert H.
    destruct currentProgram as [p|].
    + destruct (push_upcoming_extends (length (program :: upcoming)) (program :: upcoming) 0
                  ((if (0 <? length (([] ++ ["Now"]) ++
                                     formatProgramLine remove_pictographic (Some p)))%nat
                    then ((([] ++ ["Now"]) ++ formatProgramLine remove_pictographic (Some p))
                          ++ [EmptyString])%list
                    else (([] ++ ["Now"]) ++ formatProgramLine remove_pictographic (Some p))%list)
                   ++ ["Next"])%list) as [extra ->].
      cbn [app length Nat.ltb Nat.leb]. apply description_not_empty. reflexivity.
    + destruct (push_upcoming_extends (length (program :: upcoming)) (program :: upcoming) 0
                  ((if (0 <? length (@nil string))%nat then ([] ++ [EmptyString])%list else [])
                   ++ ["Next"])%list) as [extra ->].
      cbn [app length Nat.ltb Nat.leb]. apply description_not_empty. reflexivity.
Qed.

End EpgFacts.

Section Spaces.

Lemma replace_spaces_step (inside : bool) (b1 : ascii) (rest1 : string) :
  replace_spaces inside (String b1 rest1) =
  if is_ascii_space b1 then run_space inside (replace_spaces true rest1)
  else match rest1 with
       | String b2 rest2 =>
           if is_space2 b1 b2 then run_space inside (replace_spaces true rest2)
           else match rest2 with
                | String b3 rest3 =>
                    if is_space3 b1 b2 b3
                    then run_space inside (replace_spaces true rest3)
                    else String b1 (replace_spaces false rest1)
                | EmptyString => String b1 (replace_spaces false rest1)
                end
       | EmptyString => String b1 EmptyString
       end.
Proof. destruct rest1 as [|b2 [|b3 rest3]]; reflexivity. Qed.

(** The space put for a run is followed by a character that is not
    ASCII white space, or by nothing. *)
Lemma run_space_spaced (inside : bool) (rest : string) :
  spaced rest = true -> starts_spaced rest = false ->
  spaced (run_space inside rest) = true /\
  (inside = true -> starts_spaced (run_space inside rest) = false).
Proof.
  intros Hs Hh. destruct inside; cbn [run_space].
  - auto.
  - split; [|discriminate]. cbn [spaced]. rewrite Hh, Hs. reflexivity.
Qed.

Lemma kept_spaced (b1 : ascii) (rest : string) (inside : bool) :
  is_ascii_space b1 = false -> spaced rest = true ->
  spaced (String b1 rest) = true /\
  (inside = true -> starts_spaced (String b1 rest) = false).
Proof. intros H1 Hs. cbn [spaced starts_spaced]. rewrite H1, Hs. auto. Qed.

Lemma replace_spaces_spaced_bounded (n : nat) (s : string) :
  String.length s <= n ->
  forall inside,
    spaced (replace_spaces inside s) = true /\
    (inside = true -> starts_spaced (replace_spaces inside s) = false).
Proof.
  revert s. induction n as [|n IH]; intros s Hn inside.
  - destruct s; [auto | cbn in Hn; lia].
  - destruct s as [|b1 rest1]; [auto|]. rewrite replace_spaces_step.
    cbn [String.length] in Hn.
    destruct (is_ascii_space b1) eqn:E1.
    { destruct (IH rest1 ltac:(lia) true) as [Hs Hh]. apply run_space_spaced; auto. }
    destruct rest1 as [|b2 rest2]; [apply kept_spaced; auto|].
    cbn [String.length] in Hn.
    destruct (is_space2 b1 b2) eqn:E2.
    { destruct (IH rest2 ltac:(lia) true) as [Hs Hh]. apply run_space_spaced; auto. }
    destruct rest2 as [|b3 rest3].
    { apply kept_spaced; [exact E1|]. apply (IH (String b2 EmptyString)). cbn. lia. }
    cbn [String.length] in Hn.
    destruct (is_space3 b1 b2 b3) eqn:E3.
    { destruct (IH rest3 ltac:(lia) true) as [Hs Hh]. apply run_space_spaced; auto. }
    apply kept_spaced; [exact E1|]. apply (IH (String b2 (String b3 rest3))). cbn. lia.
Qed.

Lemma replace_spaces_spaced (s : string) : spaced (replace_spaces false s) = true.
Proof. apply (replace_spaces_spaced_bounded (String.length s) s); lia. Qed.

(** [spaced] passes to the ends of a text. *)
Lemma spaced_app_r (a b : string) : spaced (a +:+ b) = true -> spaced b = true.
Proof.
  induction a as [|c a IH]; [auto|].
  change (String c a +:+ b) with (String c (a +:+ b)). cbn [spaced].
  intros H. apply andb_prop in H as [_ H]. auto.
Qed.

Lemma starts_spaced_app (a b : string) :
  starts_spaced (a +:+ b) = false -> starts_spaced a = false.
Proof. destruct a as [|c a]; [reflexivity | exact (fun H => H)]. Qed.

Lemma spaced_app_l (a b : string) : spaced (a +:+ b) = true -> spaced a = true.
Proof.
  induction a as [|c a IH]; [reflexivity|].
  change (String c a +:+ b) with (String c (a +:+ b)). cbn [spaced].
  intros H. apply andb_prop in H as [H1 H2]. rewrite (IH H2), andb_true_r.
  destruct (is_ascii_space c); [|reflexivity].
  apply andb_prop in H1 as [-> H1]. apply negb_true_iff in H1.
  rewrite (starts_spaced_app _ _ H1). reflexivity.
Qed.

Lemma trimStart_head_bounded (n : nat) (s : string) :
  String.length s <= n -> starts_spaced (trimStart s) = false.
Proof.
  revert s. induction n as [|n IH]; intros s Hn.
  - destruct s; [reflexivity | cbn in Hn; lia].
  - destruct s as [|b1 rest1]; [reflexivity|]. rewrite trimStart_step.
    cbn [String.length] in Hn.
    destruct (is_ascii_space b1) eqn:E1; [apply IH; lia|].
    destruct rest1 as [|b2 rest2]; [exact E1|]. cbn [String.length] in Hn.
    destruct (is_space2 b1 b2); [apply IH; lia|].
    destruct rest2 as [|b3 rest3]; [exact E1|]. cbn [String.length] in Hn.
    destruct (is_space3 b1 b2 b3); [apply IH; lia | exact E1].
Qed.

Lemma trimStart_reversed_head_bounded (n : nat) (s : string) :
  String.length s <= n -> starts_spaced (trimStart_reversed s) = false.
Proof.
  revert s. induction n as [|n IH]; intros s Hn.
  - destruct s; [reflexivity | cbn in Hn; lia].
  - destruct s as [|b1 rest1]; [reflexivity|]. rewrite trimStart_reversed_step.
    cbn [String.length] in Hn.
    destruct (is_ascii_space b1) eqn:E1; [apply IH; lia|].
    destruct rest1 as [|b2 rest2]; [exact E1|]. cbn [String.length] in Hn.
    destruct (is_space2 b2 b1); [apply IH; lia|].
    destruct rest2 as [|b3 rest3]; [exact E1|]. cbn [String.length] in Hn.
    destruct (is_space3 b3 b2 b1); [apply IH; lia | exact E1].
Qed.

(** What [trim] leaves of a text with single spaces only. *)
Lemma trim_spaced (s : string) :
  spaced s = true ->
  spaced (trim s) = true /\ starts_spaced (trim s) = false /\
  starts_spaced (reverse (trim s)) = false.
Proof.
  intros Hs. unfold trim.
  destruct (trimStart_split s) as (pre & Hpre & _).
  destruct (trimEnd_split (trimStart s)) as (suf & Hsuf & _).
  assert (H1 : spaced (trimStart s) = true) by (apply (spaced_app_r pre); congruence).
  split; [|split].
  - apply (spaced_app_l _ suf). congruence.
  - apply (starts_spaced_app _ suf). rewrite <- Hsuf.
    apply (trimStart_head_bounded (String.length s)). lia.
  - unfold trimEnd. rewrite reverse_involutive.
    apply (trimStart_reversed_head_bounded (String.length (reverse (trimStart s)))). lia.
Qed.

End Spaces.

Lemma slice_3_empty {A} (l : list A) : slice l 3 = [] <-> l = [].
Proof. unfold slice. cbn. destruct l; split; intros H; (reflexivity || discriminate). Qed.

(** X23 — how the description begins.  With a current programme the
    text begins with [Now]; without one, and with a programme left of
    the upcoming ones after dropping the missing entries and cutting at
    the limit, it begins with [Next]; it is the empty string exactly
    when there is neither.  A programme counts whatever its fields, also
    when it has no time and no title to show. *)
Theorem buildEpgDescription_empty_iff (remove_pictographic : string -> string)
  (currentProgram : option Program) (upcomingPrograms : list (option Program))
  (upcomingLimit : Z) :
  let text := buildEpgDescription remove_pictographic currentProgram upcomingPrograms
                upcomingLimit in
  let upcoming := slice (omap id upcomingPrograms) upcomingLimit in
  (text = EmptyString <-> currentProgram = None /\ upcoming = []) /\
  (is_Some currentProgram -> exists rest, text = "Now" +:+ rest) /\
  (currentProgram = None -> upcoming <> [] -> exists rest, text = "Next" +:+ rest).
Proof.
  intros text upcoming. subst text upcoming. split; [apply buildEpgDescription_empty|].
  destruct (buildEpgDescription_first_line remove_pictographic currentProgram upcomingPrograms
              upcomingLimit) as (lines & -> & Hlines).
  split.
  - intros [p ->]. destruct Hlines as [more ->]. apply description_begins. reflexivity.
  - intros -> Hup.
    destruct (slice (omap id upcomingPrograms) upcomingLimit) as [|program rest];
      [congruence|].
    destruct Hlines as [more ->]. apply description_begins. reflexivity.
Qed.

(** X23 for a current programme that has nothing to show. *)
Lemma buildEpgDescription_empty_iff_witness :
  exists rest,
    buildEpgDescription (fun s => s)
      (Some {| start := None; stop := None; title := None |}) [] 3 = "Now" +:+ rest.
Proof.
  exact (proj1 (proj2 (buildEpgDescription_empty_iff (fun s => s)
                         (Some {| start := None; stop := None; title := None |}) [] 3))
           (mk_is_Some _ _ eq_refl)).
Defined.

(** X24 — whatever the text and whatever the engine removes as
    pictographs, the only ASCII white space left in a sanitised title
    is the single space between two other characters: no line break or
    tab, no two spaces in a row, none at the beginning or the end.  So
    a title takes one line of the description. *)
Theorem sanitizeEpgText_single_spaces (remove_pictographic : string -> string)
  (text : option string) :
  let clean := sanitizeEpgText remove_pictographic text in
  spaced clean = true /\ starts_spaced clean = false /\ starts_spaced (reverse clean) = false.
Proof.
  unfold sanitizeEpgText. destruct (given text) as [t|]; [|auto].
  apply trim_spaced, replace_spaces_spaced.
Qed.

(** X25 — [enrichWithDetailedEPG] either returns [meta] as it is or
    replaces its description (it does not add to it).  It returns
    [meta] as it is when [epg_enabled] is absent or empty, and when the
    guide has no current programme and no upcoming one for the
    normalised id.  For every other value of [epg_enabled], the text
    'false' included, and a guide with a programme, the description
    becomes the non-empty text of [buildEpgDescription] with limit 3 and
    [releaseInfo] the title of the current programme, or 'LIVE' without
    one; the other fields stay. *)
Theorem enrichWithDetailedEPG_replaces (remove_pictographic : string -> string)
  (getCurrentProgram : string -> option Program)
  (getUpcomingPrograms : string -> option (list (option Program)))
  (toLowerCase : string -> string) {T} (meta : Meta T) (channelId epg_enabled : option string) :
  let normalizedId := normalizeId toLowerCase channelId in
  let enriched := enrichWithDetailedEPG remove_pictographic getCurrentProgram getUpcomingPrograms
                    toLowerCase meta channelId epg_enabled in
  (given epg_enabled = None \/
   getCurrentProgram normalizedId = None /\
   omap id (default [] (getUpcomingPrograms normalizedId)) = [] ->
   enriched = meta) /\
  (is_Some (given epg_enabled) ->
   is_Some (getCurrentProgram normalizedId) \/
   omap id (default [] (getUpcomingPrograms normalizedId)) <> [] ->
   description enriched =
     buildEpgDescription remove_pictographic (getCurrentProgram normalizedId)
       (default [] (getUpcomingPrograms normalizedId)) 3 /\
   description enriched <> EmptyString /\
   releaseInfo enriched =
     default "LIVE" (getCurrentProgram normalizedId ≫= fun p => given (title p)) /\
   others enriched = others meta).
Proof.
  intros normalizedId enriched. subst enriched. unfold enrichWithDetailedEPG.
  fold normalizedId.
  pose proof (buildEpgDescription_empty remove_pictographic (getCurrentProgram normalizedId)
                (default [] (getUpcomingPrograms normalizedId)) 3) as Hempty.
  rewrite slice_3_empty in Hempty.
  split.
  - intros [-> | [Hc Hu]]; [reflexivity|].
    destruct (given epg_enabled); [|reflexivity].
    rewrite (proj2 Hempty (conj Hc Hu)). reflexivity.
  - intros [e ->] Hsome.
    destruct (buildEpgDescription remove_pictographic (getCurrentProgram normalizedId)
                (default [] (getUpcomingPrograms normalizedId)) 3) as [|c d] eqn:Hd.
    + exfalso. destruct (proj1 Hempty eq_refl) as [Hc Hu].
      destruct Hsome as [[p Hp] | Hn]; congruence.
    + cbn. split; [reflexivity|]. split; [discriminate|]. split; reflexivity.
Qed.

(** X25 with [epg_enabled] the text 'false' and a guide that knows the
    running programme. *)
Lemma enrichWithDetailedEPG_replaces_witness :
  let news := {| start := Some "20:00"; stop := Some "21:00"; title := Some "Evening  News " |} in
  let meta := {| description := "Channel ID: rai1"; releaseInfo := "LIVE"; others := tt |} in
  description
    (enrichWithDetailedEPG (fun s => s) (fun _ => Some news) (fun _ => None)
       (map_chars lower_ascii) meta (Some "Rai 1") (Some "false"))
  = join newline ["Now"; "20:00 - 21:00"; bullet +:+ "Evening News"].
Proof.
  intros news meta.
  rewrite (proj1 (proj2 (enrichWithDetailedEPG_replaces (fun s => s) (fun _ => Some news)
                           (fun _ => None) (map_chars lower_ascii) meta (Some "Rai 1")
                           (Some "false"))
                   (mk_is_Some _ _ eq_refl) (or_introl (mk_is_Some _ _ eq_refl)))).
  vm_compute. reflexivity.
Defined.
